(** * pyliza: the Twitter interaction handler and its platform client

    A shallow embedding of [src/twitter/twitterInteractions.py] and
    [src/twitter/twitterClient.py].

    Python objects are records, [None] and missing attributes are [option],
    exceptions are values of [exn] carried by [result], and every method is
    a function in the state-and-exception monad [M] over [World], the part
    of the outside world the handler writes to.  Collaborators (the platform
    client, the Chroma store, the response generator, the context callbacks)
    are oracles that read the [World] and answer or raise.  Standard output
    is not part of the [World]: of a [print] the model keeps what evaluating
    its argument does, not the text. *)

From Stdlib Require Import List String Ascii ZArith Bool Lia Arith.
From Stdlib Require Import Sorting.Sorted Sorting.Permutation.
Import ListNotations.

Local Open Scope Z_scope.
Set Warnings "-register-all".

(** ** Exceptions *)

(** What a Python call can raise: an instance of [BaseException].  The
    named constructors up to [PyException] are the classes the sources name
    or that the interpreter raises on the modelled operations; [OtherError]
    is an instance of any other subclass of [Exception] with an ordinary
    [__str__]; [StrRaises cls e] is an instance of a subclass [cls] of
    [Exception] whose [__str__] raises [e].  The last three are not
    instances of [Exception]. *)
Inductive exn : Type :=
| FileNotFoundError
| JSONDecodeError
| AttributeError
| TypeError
| ValueError
| KeyError
| IndexError
| CookieConflictError
| PyException (msg : string)
| OtherError (cls msg : string)
| StrRaises (cls : string) (raised : exn)
| KeyboardInterrupt
| SystemExit
| OtherBaseException (cls : string).

Inductive result (A : Type) : Type :=
| Ok (a : A)
| Raise (e : exn).
Arguments Ok {A} a.
Arguments Raise {A} e.

(** [isinstance(e, Exception)], the test of [except Exception]. *)
Definition is_Exception (e : exn) : bool :=
  match e with
  | KeyboardInterrupt | SystemExit | OtherBaseException _ => false
  | _ => true
  end.

(** [str(e)] runs the exception's [__str__]; its text is only printed, so
    what is kept is whether it returns. *)
Definition py_str_exn (e : exn) : result unit :=
  match e with
  | StrRaises _ raised => Raise raised
  | _ => Ok tt
  end.

(** An exception that [except Exception as e: print(f"...{str(e)}")]
    disposes of: an instance of [Exception] whose [__str__] returns. *)
Definition benign (e : exn) : bool :=
  is_Exception e
  && match py_str_exn e with
     | Ok _ => true
     | Raise _ => false
     end.

Definition benign_result {A} (r : result A) : bool :=
  match r with
  | Ok _ => true
  | Raise e => benign e
  end.

(** ** JSON values, as [json.loads] and [response.json()] produce them *)

Inductive pynum : Type :=
| PInt (z : Z)
| PFloat (mantissa exponent : Z)
| PInf (negative : bool)
| PNaN.

Inductive json : Type :=
| JNull
| JBool (b : bool)
| JNum (n : pynum)
| JStr (s : string)
| JList (l : list json)
| JDict (d : list (string * json)).

Definition pynum_eqb (a b : pynum) : bool :=
  match a, b with
  | PInt x, PInt y => x =? y
  | PFloat m e, PFloat m' e' => (m =? m') && (e =? e')
  | PInf s, PInf s' => Bool.eqb s s'
  | PNaN, PNaN => true
  | _, _ => false
  end.

(** Structural equality; on strings, the only identifiers the platform
    issues, it is Python's [==]. *)
Fixpoint json_eqb (a b : json) {struct a} : bool :=
  match a, b with
  | JNull, JNull => true
  | JBool x, JBool y => Bool.eqb x y
  | JNum x, JNum y => pynum_eqb x y
  | JStr x, JStr y => String.eqb x y
  | JList l, JList l' =>
      (fix go (l l' : list json) {struct l} : bool :=
         match l, l' with
         | [], [] => true
         | x :: r, y :: r' => json_eqb x y && go r r'
         | _, _ => false
         end) l l'
  | JDict d, JDict d' =>
      (fix go (d d' : list (string * json)) {struct d} : bool :=
         match d, d' with
         | [], [] => true
         | (k, x) :: r, (k', y) :: r' =>
             String.eqb k k' && json_eqb x y && go r r'
         | _, _ => false
         end) d d'
  | _, _ => false
  end.

(** [bool(v)]: Python truthiness of a decoded JSON value. *)
Definition truthy (v : json) : bool :=
  match v with
  | JNull => false
  | JBool b => b
  | JNum (PInt z) => negb (z =? 0)
  | JNum (PFloat m _) => negb (m =? 0)
  | JNum _ => true
  | JStr s => negb (String.eqb s EmptyString)
  | JList l => match l with [] => false | _ => true end
  | JDict d => match d with [] => false | _ => true end
  end.

(** [v == u] where [u] is a [str] or [None] (an [Optional[str]]). *)
Definition eq_optional_str (v : json) (u : option string) : bool :=
  match v, u with
  | JStr s, Some s' => String.eqb s s'
  | JNull, None => true
  | _, _ => false
  end.

(** ** Data of the platform *)

Module Tweet.
(** The dict [search_tweets] builds per entry (twitterClient.py 183-193);
    each value is whatever [dict.get] found, [JNull] for [None]. *)
Record t : Type := mk {
  id : json;
  text : json;
  username : json;
  name : json;
  user_id : json;
  created_at : json;
  conversation_id : json;
  in_reply_to_status_id : json;
  in_reply_to_user_id : json
}.
End Tweet.

Module Follower.
Record t : Type := mk {
  username : json;
  description : json
}.
End Follower.

Module ReplyTarget.
(** A reply target dict; [None] is a missing key. *)
Record t : Type := mk {
  searchTerm : option string;
  searchContext : option string
}.
End ReplyTarget.

(** ** The world the handler acts on *)

(** [log_entry] of [log_response] (twitterInteractions.py 40-46). *)
Record LogEntry : Type := mkLogEntry {
  timestamp : string;
  original_tweet_id : json;
  response_tweet_id : string;
  tweet_content : json;
  response_text : string
}.

(** One row of the Chroma collection [tweet_responses]. *)
Record ChromaRow : Type := mkRow {
  row_id : json;
  row_document : json;
  row_metadata : LogEntry
}.

(** A post the platform accepted: the arguments of a [send_tweet] call that
    returned.  [reply_to = JNull] is the default [None], a top-level post. *)
Record SentTweet : Type := mkSent {
  sent_text : string;
  reply_to : json
}.

Record World : Type := mkWorld {
  calls : nat;                       (* collaborator calls made so far *)
  tweet_responses : list ChromaRow;  (* the Chroma collection *)
  sent : list SentTweet;             (* posts accepted by the platform *)
  processing_log : list Tweet.t      (* "Processing tweet ..." lines, 134 *)
}.

Definition tick (w : World) : World :=
  mkWorld (S (calls w)) (tweet_responses w) (sent w) (processing_log w).

Definition add_row (r : ChromaRow) (w : World) : World :=
  mkWorld (calls w) (tweet_responses w ++ [r]) (sent w) (processing_log w).

Definition add_sent (s : SentTweet) (w : World) : World :=
  mkWorld (calls w) (tweet_responses w) (sent w ++ [s]) (processing_log w).

Definition add_processing (t : Tweet.t) (w : World) : World :=
  mkWorld (calls w) (tweet_responses w) (sent w) (processing_log w ++ [t]).

(** The store of [w] holds a Response Record under identifier [i]. *)
Definition has_record (w : World) (i : json) : bool :=
  existsb (json_eqb i) (map row_id (tweet_responses w)).

(** ** The monad: state that survives a raised exception *)

Definition M (A : Type) : Type := World -> result A * World.

Definition ret {A} (a : A) : M A := fun w => (Ok a, w).

Definition raise {A} (e : exn) : M A := fun w => (Raise e, w).

Definition bind {A B} (m : M A) (k : A -> M B) : M B :=
  fun w =>
    match m w with
    | (Ok a, w') => k a w'
    | (Raise e, w') => (Raise e, w')
    end.

Notation "x <- m ;; k" := (bind m (fun x => k))
  (at level 61, m at next level, right associativity).
Notation "m ;;; k" := (bind m (fun _ => k))
  (at level 61, right associativity).

(** [try: body except <classes>: handler], [catches] deciding the classes. *)
Definition try_except {A} (body : M A) (catches : exn -> bool)
    (handler : exn -> M A) : M A :=
  fun w =>
    match body w with
    | (Ok a, w') => (Ok a, w')
    | (Raise e, w') => if catches e then handler e w' else (Raise e, w')
    end.

Definition lift {A} (r : result A) : M A := fun w => (r, w).

(** [print(f"...{str(e)}")], the body of the drivers' handlers. *)
Definition print_error (e : exn) : M unit := lift (py_str_exn e).

(** A collaborator: it reads the world (so it may answer differently at
    every call, [calls] growing) and answers or raises. *)
Definition oracle (A : Type) : Type := World -> result A.

Definition call {A} (o : oracle A) : M A := fun w => (o w, tick w).

(** Calling an attribute that may be missing on the object. *)
Definition call_method {A} (m : option (oracle A)) : M A :=
  match m with
  | Some o => call o
  | None => raise AttributeError
  end.

(** ** The Python run-time and the helpers outside the sources *)

(** Library functions the handler calls, and [getTweetResponsePrompt] of the
    [helpers] module, which the sources import but do not contain.  They
    stay parameters: every theorem holds whatever they compute.  [int] and
    [strptime] are the interpreter's own: on a decoded JSON value they
    raise [ValueError], [TypeError] or [OverflowError], instances of
    [Exception] with an ordinary [__str__], which the last two fields
    record.  [getTweetResponsePrompt] is repository code that is not at
    hand and may raise anything. *)
Record PyLib : Type := mkPyLib {
  (* int(v) *)
  py_int : json -> result Z;
  (* datetime.strptime(v, '%a %b %d %H:%M:%S %z %Y'), an aware instant in
     microseconds since the epoch *)
  strptime : json -> result Z;
  (* str(v), as an f-string substitutes it *)
  py_str : json -> string;
  (* json.dumps(v) *)
  json_dumps : json -> string;
  (* datetime.now().isoformat() *)
  now_isoformat : World -> string;
  (* random.choice draws index [random_index w n mod n] among n items *)
  random_index : World -> nat -> nat;
  (* helpers.getTweetResponsePrompt(tweetContent, username, searchContext) *)
  getTweetResponsePrompt : json -> json -> string -> oracle string;
  py_int_benign : forall v, benign_result (py_int v) = true;
  strptime_benign : forall v, benign_result (strptime v) = true
}.

(** [random.choice(seq)]; raises [IndexError] on an empty sequence. *)
Definition random_choice {A} (L : PyLib) (seq : list A) : M A :=
  fun w =>
    match nth_error seq (Nat.modulo (random_index L w (List.length seq)) (List.length seq)) with
    | Some x => (Ok x, w)
    | None => (Raise IndexError, w)
    end.

(** ** Python callables and the binding of their arguments *)

(** A function object with its parameter names (a bound method's [self]
    left out), their defaults, whether it takes [**kwargs], and its body
    run on the bound arguments. *)
Record PyFunction : Type := mkPyFunction {
  fn_params : list (string * option string);
  fn_var_keyword : bool;
  fn_body : list (string * string) -> oracle string
}.

Fixpoint lookup {A} (k : string) (env : list (string * A)) : option A :=
  match env with
  | [] => None
  | (k', v) :: r => if String.eqb k k' then Some v else lookup k r
  end.

(** Positional arguments fill the parameters in order; too many is a
    [TypeError].  Returns the bindings and the parameters left. *)
Fixpoint bind_positional (params : list (string * option string))
    (args : list string)
  : result (list (string * string) * list (string * option string)) :=
  match args, params with
  | [], _ => Ok ([], params)
  | a :: args', (p, _) :: params' =>
      match bind_positional params' args' with
      | Ok (env, rest) => Ok ((p, a) :: env, rest)
      | Raise e => Raise e
      end
  | _ :: _, [] => Raise TypeError
  end.

(** A keyword argument must name a parameter not bound yet, or the function
    must take [**kwargs]; otherwise the call is a [TypeError]
    ("got an unexpected keyword argument", "got multiple values"). *)
Fixpoint bind_keywords (f : PyFunction) (env : list (string * string))
    (kwargs : list (string * string)) : result (list (string * string)) :=
  match kwargs with
  | [] => Ok env
  | (k, v) :: kwargs' =>
      match lookup k env with
      | Some _ => Raise TypeError
      | None =>
          match lookup k (fn_params f) with
          | Some _ => bind_keywords f (env ++ [(k, v)]) kwargs'
          | None =>
              if fn_var_keyword f
              then bind_keywords f (env ++ [(k, v)]) kwargs'
              else Raise TypeError
          end
      end
  end.

(** Parameters still unbound take their default; one without default is a
    [TypeError] ("missing required positional argument"). *)
Fixpoint bind_defaults (env : list (string * string))
    (rest : list (string * option string)) : result (list (string * string)) :=
  match rest with
  | [] => Ok env
  | (p, d) :: rest' =>
      match lookup p env with
      | Some _ => bind_defaults env rest'
      | None =>
          match d with
          | Some v => bind_defaults (env ++ [(p, v)]) rest'
          | None => Raise TypeError
          end
      end
  end.

(** Calling [f] with positional and keyword arguments. *)
Definition py_call (f : PyFunction) (args : list string)
    (kwargs : list (string * string)) : M string :=
  match bind_positional (fn_params f) args with
  | Raise e => raise e
  | Ok (env, rest) =>
      match bind_keywords f env kwargs with
      | Raise e => raise e
      | Ok env' =>
          match bind_defaults env' rest with
          | Raise e => raise e
          | Ok env'' => call (fn_body f env'')
          end
      end
  end.

(** ** The Chroma store *)

Module Chroma.
(** A Chroma client on the collection [tweet_responses]: the rows live in
    the [World]; each operation may fail with the exception its fault
    oracle names, and otherwise does what the store does. *)
Record Client : Type := mk {
  get_or_create_collection_fault : string -> World -> option exn;
  get_fault : json -> World -> option exn;
  add_fault : json -> World -> option exn
}.

Definition get_or_create_collection (c : Client) (name : string) : M unit :=
  fun w =>
    match get_or_create_collection_fault c name w with
    | Some e => (Raise e, tick w)
    | None => (Ok tt, tick w)
    end.

(** [collection.get(ids=[i])["ids"]]: the stored ids equal to [i]. *)
Definition get (c : Client) (i : json) : M (list json) :=
  fun w =>
    match get_fault c i w with
    | Some e => (Raise e, tick w)
    | None =>
        (Ok (filter (json_eqb i) (map row_id (tweet_responses w))), tick w)
    end.

(** [collection.add(ids=[i], documents=[d], metadatas=[m])]: under an
    identifier the collection already holds, the store keeps the row it has
    and adds nothing. *)
Definition add (c : Client) (i d : json) (m : LogEntry) : M unit :=
  fun w =>
    match add_fault c i w with
    | Some e => (Raise e, tick w)
    | None =>
        (Ok tt,
         if has_record w i then tick w else add_row (mkRow i d m) (tick w))
    end.
End Chroma.

(** ** The platform client, as the handler sees it *)

Module Client.
(** Any object passed as [twitter_client]; a method the object does not
    have is [None], and calling it raises [AttributeError]. *)
Record t : Type := mk {
  username : option string;
  search_tweets : option (string -> Z -> oracle (list Tweet.t));
  send_tweet : option (string -> json -> oracle json);
  get_followers : option (option string -> oracle (list Follower.t))
}.

Definition call_search_tweets (c : t) (query : string) (max_tweets : Z)
  : M (list Tweet.t) :=
  call_method (option_map (fun f => f query max_tweets) (search_tweets c)).

(** A [send_tweet] call that returns is a post the platform accepted. *)
Definition call_send_tweet (c : t) (text : string) (reply_to_tweet_id : json)
  : M json :=
  match send_tweet c with
  | None => raise AttributeError
  | Some f =>
      fun w =>
        match f text reply_to_tweet_id w with
        | Ok r => (Ok r, add_sent (mkSent text reply_to_tweet_id) (tick w))
        | Raise e => (Raise e, tick w)
        end
  end.

Definition call_get_followers (c : t) (user : option string)
  : M (list Follower.t) :=
  call_method (option_map (fun f => f user) (get_followers c)).
End Client.

(** ** TwitterInteractionHandler *)

Definition nl : string := String (ascii_of_nat 10) EmptyString.
Definition dq : string := String (ascii_of_nat 34) EmptyString.

(** [timedelta(hours=24)] in microseconds. *)
Definition hours_24 : Z := 24 * 60 * 60 * 1000000.

(** What reading [last_checked_tweet.json] finds. *)
Inductive CursorFile : Type :=
| NoFile                                        (* FileNotFoundError *)
| BadJSON                                       (* json.JSONDecodeError *)
| Saved (last_checked_tweet_id : option Z).     (* the value under the key *)

Definition load_last_checked_tweet_id (f : CursorFile) : option Z :=
  match f with
  | Saved v => v
  | NoFile | BadJSON => None
  end.

(** [default_response(self, tweet_text)], as the bound method. *)
Definition default_response : PyFunction :=
  mkPyFunction [("tweet_text"%string, None)] false
    (fun _ _ => Ok "Hi there! I'm Rice "%string).

Record TwitterInteractionHandler : Type := mkHandler {
  client : Client.t;
  response_generator : PyFunction;
  last_checked_tweet_id : option Z;
  chroma_client : option Chroma.Client;
  start_time : Z;
  search_terms : list string;
  reply_targets : list ReplyTarget.t;
  getUserContext : option (option Chroma.Client -> json -> oracle string);
  updateUserContext :
    option (option Chroma.Client -> json -> string -> json -> string -> oracle unit);
  fetchContext : option (option Chroma.Client -> string -> oracle string)
}.

(** The constructor; [now] is [datetime.now(timezone.utc)] and [cursor_file]
    the state of [last_checked_tweet.json] at that moment. *)
Definition __init__ (now : Z) (cursor_file : CursorFile)
    (twitter_client : Client.t) (response_generator : option PyFunction)
    (chroma_client : option Chroma.Client) (search_terms : list string)
    (reply_targets : list ReplyTarget.t)
    (getUserContext : option (option Chroma.Client -> json -> oracle string))
    (fetchContext : option (option Chroma.Client -> string -> oracle string))
    (updateUserContext :
       option (option Chroma.Client -> json -> string -> json -> string -> oracle unit))
  : TwitterInteractionHandler :=
  mkHandler
    twitter_client
    (match response_generator with Some g => g | None => default_response end)
    (load_last_checked_tweet_id cursor_file)
    chroma_client
    (now - hours_24)
    search_terms
    reply_targets
    getUserContext
    updateUserContext
    fetchContext.

(** [self.last_checked_tweet_id or 0]. *)
Definition cursor_or_0 (c : option Z) : Z :=
  match c with
  | Some n => if n =? 0 then 0 else n
  | None => 0
  end.

(** [client.get_or_create_collection(name)] on [self.chroma_client]; on
    [None] the attribute lookup raises. *)
Definition get_or_create_collection (c : option Chroma.Client) (name : string)
  : M Chroma.Client :=
  match c with
  | None => raise AttributeError
  | Some cl => Chroma.get_or_create_collection cl name ;;; ret cl
  end.

Section Handler.
Context (L : PyLib).

Definition log_response (self : TwitterInteractionHandler)
    (original_tweet_id : json) (response_tweet_id : string)
    (tweet_content : json) (response_text : string) : M unit :=
  fun w =>
    let timestamp := now_isoformat L w in
    let log_entry :=
      mkLogEntry timestamp original_tweet_id response_tweet_id
        tweet_content response_text in
    match chroma_client self with
    | Some _ =>
        (collection <- get_or_create_collection (chroma_client self)
                         "tweet_responses" ;;
         Chroma.add collection original_tweet_id tweet_content log_entry) w
    | None => (Ok tt, w)
    end.

(** The [try] block of [has_responded_to_tweet] (63-72). *)
Definition has_responded_lookup (self : TwitterInteractionHandler)
    (tweet_id : json) : M bool :=
  collection <- get_or_create_collection (chroma_client self)
                  "tweet_responses" ;;
  ids <- Chroma.get collection tweet_id ;;
  if (0 <? Z.of_nat (List.length ids)) then ret true else ret false.

(** [except (FileNotFoundError, json.JSONDecodeError)]. *)
Definition file_or_json_error (e : exn) : bool :=
  match e with
  | FileNotFoundError | JSONDecodeError => true
  | _ => false
  end.

Definition has_responded_to_tweet (self : TwitterInteractionHandler)
    (tweet_id : json) : M bool :=
  try_except (has_responded_lookup self tweet_id) file_or_json_error
    (fun _ => ret false).

Definition fetched_context_block (fetchedContext : string) : string :=
  (nl
   ++ "            Below is some fetched context, it includes some inner thoughts / context from the internet / etc. "
   ++ nl ++ "<fetchedContext>" ++ dq ++ " + " ++ fetchedContext ++ " + " ++ dq
   ++ "</fetchedContext>" ++ dq ++ nl
   ++ "            If relevant, you can use this context to inform your response."
   ++ nl ++ "            ")%string.

Definition generate_response (self : TwitterInteractionHandler)
    (tweet_text : string) (additionalContext : string) : M string :=
  additionalContext <-
    match fetchContext self with
    | Some fetch =>
        fetchedContext <- call (fetch (chroma_client self) tweet_text) ;;
        ret (additionalContext ++ fetched_context_block fetchedContext)%string
    | None => ret additionalContext
    end ;;
  py_call (response_generator self) [tweet_text]
    [("additionalContext"%string, additionalContext)].

(** [[tweet for tweet in search_response if int(tweet['id']) > cursor]]:
    the first [int] that raises ends the comprehension. *)
Fixpoint newer_than (cursor : Z) (search_response : list Tweet.t)
  : result (list Tweet.t) :=
  match search_response with
  | [] => Ok []
  | tweet :: rest =>
      match py_int L (Tweet.id tweet) with
      | Raise e => Raise e
      | Ok n =>
          match newer_than cursor rest with
          | Raise e => Raise e
          | Ok kept => Ok (if n >? cursor then tweet :: kept else kept)
          end
      end
  end.

(** The keys [sorted] computes, [int(x['id'])] of every element. *)
Fixpoint sort_keys (l : list Tweet.t) : result (list (Z * Tweet.t)) :=
  match l with
  | [] => Ok []
  | tweet :: rest =>
      match py_int L (Tweet.id tweet) with
      | Raise e => Raise e
      | Ok n =>
          match sort_keys rest with
          | Raise e => Raise e
          | Ok keyed => Ok ((n, tweet) :: keyed)
          end
      end
  end.

(** [sorted] is stable: an element goes before the first one of the
    sorted rest whose key is not smaller. *)
Fixpoint insert_keyed (x : Z * Tweet.t) (l : list (Z * Tweet.t))
  : list (Z * Tweet.t) :=
  match l with
  | [] => [x]
  | y :: r => if fst x <=? fst y then x :: y :: r else y :: insert_keyed x r
  end.

Definition sort_keyed (l : list (Z * Tweet.t)) : list (Z * Tweet.t) :=
  fold_right insert_keyed [] l.

(** [sorted(l, key=lambda x: int(x['id']))]. *)
Definition sorted_by_id (l : list Tweet.t) : result (list Tweet.t) :=
  match sort_keys l with
  | Raise e => Raise e
  | Ok keyed => Ok (map snd (sort_keyed keyed))
  end.

Definition interaction_text (tweet : Tweet.t) (response_text : string)
  : string :=
  (nl ++ "                You had the following interaction with "
   ++ py_str L (Tweet.username tweet) ++ " " ++ nl
   ++ "                " ++ py_str L (Tweet.username tweet)
   ++ " tweeted : " ++ py_str L (Tweet.text tweet) ++ nl ++ nl
   ++ "                You responded with : " ++ response_text ++ nl
   ++ "                ")%string.

(** The reply pipeline a candidate enters once no filter dropped it
    (134-163).  [nResponses += 1] (147) is read at 165 only: the loop below
    does it. *)
Definition reply_pipeline (self : TwitterInteractionHandler)
    (additionalContext searchContext : string) (tweet : Tweet.t) : M unit :=
  let tweet_id := Tweet.id tweet in
  (fun w => (Ok tt, add_processing tweet w)) ;;;
  let tweetContent := Tweet.text tweet in
  tweetPrompt <-
    call (getTweetResponsePrompt L tweetContent (Tweet.username tweet)
            searchContext) ;;
  respondContext <-
    match getUserContext self with
    | Some get =>
        userContext <-
          call (get (chroma_client self) (Tweet.username tweet)) ;;
        ret (additionalContext ++ userContext)%string
    | None => ret additionalContext
    end ;;
  response_text <- generate_response self tweetPrompt respondContext ;;
  response <- Client.call_send_tweet (client self) response_text tweet_id ;;
  let interaction := interaction_text tweet response_text in
  match updateUserContext self with
  | Some update =>
      call (update (chroma_client self) (Tweet.username tweet) interaction
              (Tweet.username tweet) additionalContext)
  | None => ret tt
  end ;;;
  let responseId := "PLACEHOLDER"%string in
  log_response self tweet_id responseId tweetContent response_text.

(** The body of [for tweet in tweets] (116-166), [nResponses] threaded;
    [next] is [continue], the final [ret tt] is [break]. *)
Fixpoint check_mentions_loop (self : TwitterInteractionHandler)
    (additionalContext searchContext : string) (maxReplies : Z)
    (tweets : list Tweet.t) (nResponses : Z) {struct tweets} : M unit :=
  match tweets with
  | [] => ret tt
  | tweet :: rest =>
      let next :=
        check_mentions_loop self additionalContext searchContext maxReplies
          rest in
      let tweet_id := Tweet.id tweet in
      tweet_created_at <- lift (strptime L (Tweet.created_at tweet)) ;;
      if tweet_created_at <? start_time self then next nResponses
      else if eq_optional_str (Tweet.username tweet)
                (Client.username (client self))
      then next nResponses
      else
        responded <- has_responded_to_tweet self tweet_id ;;
        if (responded : bool) then next nResponses
        else
          reply_pipeline self additionalContext searchContext tweet ;;;
          let nResponses := nResponses + 1 in
          if nResponses >=? maxReplies then ret tt else next nResponses
  end.

(** The [try] block of [check_mentions] (104-166). *)
Definition check_mentions_body (self : TwitterInteractionHandler)
    (searchTerm additionalContext searchContext : string) (maxReplies : Z)
  : M unit :=
  let nResponses := 0 in
  search_response <- Client.call_search_tweets (client self) searchTerm 20 ;;
  match search_response with
  | [] => ret tt
  | _ :: _ =>
      newer <- lift (newer_than (cursor_or_0 (last_checked_tweet_id self))
                       search_response) ;;
      tweets <- lift (sorted_by_id newer) ;;
      check_mentions_loop self additionalContext searchContext maxReplies
        tweets nResponses
  end.

(** The [print] of line 100 comes before the [try]; it formats
    [searchTerm], a [str].  The handler prints [str(e)] (168-169). *)
Definition check_mentions (self : TwitterInteractionHandler)
    (searchTerm additionalContext searchContext : string) (maxReplies : Z)
  : M unit :=
  try_except
    (check_mentions_body self searchTerm additionalContext searchContext
       maxReplies)
    is_Exception
    print_error.

(** [for searchTerm in self.search_terms] (176-177), with the defaults
    [searchContext = ""] and [maxReplies = 3]. *)
Fixpoint monitor_mentions_loop (self : TwitterInteractionHandler)
    (terms : list string) (additionalContext : string) : M unit :=
  match terms with
  | [] => ret tt
  | searchTerm :: rest =>
      check_mentions self searchTerm additionalContext "" 3 ;;;
      monitor_mentions_loop self rest additionalContext
  end.

(** The [print]s of lines 173 and 179 write constant strings; the
    handler prints [str(e)] (181-182). *)
Definition monitor_mentions (self : TwitterInteractionHandler)
    (check_interval : Z) (additionalContext : string) : M unit :=
  try_except
    (monitor_mentions_loop self (search_terms self) additionalContext)
    is_Exception
    print_error.

Definition follower_prompt (follower : Follower.t) : string :=
  let username := py_str L (Follower.username follower) in
  (nl ++ "        Tweet to your follower - " ++ username
   ++ " make sure to include their handle i.e. @" ++ username
   ++ " in the tweet. " ++ nl
   ++ "        Profile of " ++ username ++ " : "
   ++ py_str L (Follower.description follower) ++ nl ++ nl
   ++ "        When tweeting consider the below tweet style instructions "
   ++ nl ++ "<tweetStyle>" ++ nl
   ++ "    never use hashtags or emojis" ++ nl
   ++ "    response should be short, punchy, and to the point" ++ nl
   ++ "    don't say ah yes or oh or anything" ++ nl
   ++ "    don't ask rhetorical questions, its lame" ++ nl
   ++ "    occassionally you'll ask provocative / controversial questions"
   ++ nl
   ++ "    use lowercase most of the time" ++ nl
   ++ "    you like to go deep down the rabbithole...." ++ nl
   ++ "</tweetStyle>" ++ nl ++ nl
   ++ "        Base the tweet on your current thought process & stay true to your identity."
   ++ nl
   ++ "        If there is something relevant in their profile mention that otherwise mention something aligned with your current thougts / persona. "
   ++ nl
   ++ "        The tweet can either be a question or a statement " ++ nl ++ nl
   ++ "        ")%string.

Definition follower_interaction (follower : Follower.t) (tweet_text : string)
  : string :=
  let username := py_str L (Follower.username follower) in
  (nl ++ "            You tweeted to " ++ username ++ " : " ++ tweet_text ++ nl
   ++ "            Profile of " ++ username ++ " : "
   ++ py_str L (Follower.description follower) ++ nl
   ++ "            They follow you" ++ nl
   ++ "            ")%string.

(** No [try] here: whatever a collaborator raises reaches the caller. *)
Definition tweet_to_followers (self : TwitterInteractionHandler)
    (check_interval : Z) (additionalContext : string) : M unit :=
  followers <- Client.call_get_followers (client self)
                 (Client.username (client self)) ;;
  follower <- random_choice L followers ;;
  let prompt := follower_prompt follower in
  additionalContext <-
    match getUserContext self with
    | Some get =>
        follower_context <-
          call (get (chroma_client self) (Follower.username follower)) ;;
        ret (additionalContext ++ follower_context)%string
    | None => ret additionalContext
    end ;;
  tweet_text <- generate_response self prompt additionalContext ;;
  response <- Client.call_send_tweet (client self) tweet_text JNull ;;
  match updateUserContext self with
  | Some update =>
      let interaction := follower_interaction follower tweet_text in
      call (update (chroma_client self) (Follower.username follower)
              interaction (Follower.username follower) additionalContext)
  | None => ret tt
  end.

(** [d[key]] on a dict: a missing key raises [KeyError]. *)
Definition getitem {A} (v : option A) : M A :=
  match v with
  | Some a => ret a
  | None => raise KeyError
  end.

(** The [print]s of lines 232 and 238 write constant strings; the
    handler prints [str(e)] (246-247). *)
Definition reply_guy (self : TwitterInteractionHandler)
    (check_interval : Z) (additionalContext : string) : M unit :=
  try_except
    (match reply_targets self with
     | [] => ret tt
     | _ :: _ =>
         reply_target <- random_choice L (reply_targets self) ;;
         term <- getitem (ReplyTarget.searchTerm reply_target) ;;
         let reply_search := ("from:" ++ term)%string in
         searchContext <- getitem (ReplyTarget.searchContext reply_target) ;;
         check_mentions self reply_search additionalContext searchContext 3
     end)
    is_Exception
    print_error.
End Handler.

(** ** TwitterClient *)

Definition rbind {A B} (r : result A) (k : A -> result B) : result B :=
  match r with
  | Ok a => k a
  | Raise e => Raise e
  end.

Notation "'let?' x ':=' r 'in' k" := (rbind r (fun x => k))
  (at level 10, x name, r at level 100, k at level 200).

(** [d.get(key, default)]: only a dict has [get]. *)
Definition dict_get (d : json) (key : string) (default : json) : result json :=
  match d with
  | JDict items =>
      Ok (match lookup key items with Some v => v | None => default end)
  | _ => Raise AttributeError
  end.

(** [for x in v]: a list gives its elements, a dict its keys, a string its
    characters; anything else is not iterable. *)
Definition iterate (v : json) : result (list json) :=
  match v with
  | JList l => Ok l
  | JDict d => Ok (map (fun kv => JStr (fst kv)) d)
  | JStr s =>
      Ok (map (fun c => JStr (String c EmptyString)) (list_ascii_of_string s))
  | _ => Raise TypeError
  end.

(** [v.startswith(prefix)]: only a string has [startswith]. *)
Definition startswith (v : json) (prefix : string) : result bool :=
  match v with
  | JStr s => Ok (String.prefix prefix s)
  | _ => Raise AttributeError
  end.

(** A dict display [{k1: v1, k2: v2, ...}]: a repeated key keeps its first
    position and takes the last value. *)
Fixpoint dict_set (k : string) (v : json) (d : list (string * json))
  : list (string * json) :=
  match d with
  | [] => [(k, v)]
  | (k', v') :: r =>
      if String.eqb k k' then (k, v) :: r else (k', v') :: dict_set k v r
  end.

Definition dict_display (items : list (string * json)) : json :=
  JDict (fold_left (fun d kv => dict_set (fst kv) (snd kv) d) items []).

Module TwitterClient.
Definition BASE_URL : string := "https://twitter.com".

Record Cookie : Type := mkCookie {
  cookie_name : string;
  cookie_value : string;
  cookie_domain : string;
  cookie_path : string
}.

(** [requests]' cookie jar, which holds one cookie per domain, path and
    name. *)
Definition same_slot (a b : Cookie) : bool :=
  String.eqb (cookie_name a) (cookie_name b)
  && String.eqb (cookie_domain a) (cookie_domain b)
  && String.eqb (cookie_path a) (cookie_path b).

Definition quote : ascii := ascii_of_nat 34.
Definition backslash : ascii := ascii_of_nat 92.

(** [value.replace(backslash-quote, '')]. *)
Fixpoint drop_escaped_quotes (s : string) : string :=
  match s with
  | EmptyString => EmptyString
  | String c r =>
      match r with
      | String c' r' =>
          if Ascii.eqb c backslash && Ascii.eqb c' quote
          then drop_escaped_quotes r'
          else String c (drop_escaped_quotes r)
      | EmptyString => String c EmptyString
      end
  end.

Fixpoint ends_with_quote (s : string) : bool :=
  match s with
  | EmptyString => false
  | String c EmptyString => Ascii.eqb c quote
  | String _ r => ends_with_quote r
  end.

Definition starts_with_quote (s : string) : bool :=
  match s with
  | String c _ => Ascii.eqb c quote
  | EmptyString => false
  end.

(** The value [RequestsCookieJar.set_cookie] stores: one that starts and
    ends with a quote loses its escaped quotes. *)
Definition stored_value (value : string) : string :=
  if starts_with_quote value && ends_with_quote value
  then drop_escaped_quotes value
  else value.

Definition stored_cookie (c : Cookie) : Cookie :=
  mkCookie (cookie_name c) (stored_value (cookie_value c))
    (cookie_domain c) (cookie_path c).

(** [session.cookies.set(name, value, domain=..., path=...)]. *)
Definition cookies_set (c : Cookie) (jar : list Cookie) : list Cookie :=
  filter (fun c' => negb (same_slot c c')) jar ++ [stored_cookie c].

(** [session.cookies.get(name, domain=...)]: [CookieConflictError] when
    several paths hold a cookie of that name and domain; otherwise the
    value of the one cookie when it is a non-empty string, and the default
    [None] when there is no cookie or its value is empty. *)
Definition cookies_get (jar : list Cookie) (name domain : string)
  : result (option string) :=
  match
    filter (fun c => String.eqb (cookie_name c) name
                     && String.eqb (cookie_domain c) domain) jar
  with
  | [] => Ok None
  | [c] =>
      Ok (if String.eqb (cookie_value c) EmptyString then None
          else Some (cookie_value c))
  | _ :: _ :: _ => Raise CookieConflictError
  end.

Record Response : Type := mkResponse {
  status_code : Z;
  text_ : string;                (* response.text *)
  json_ : result json            (* what response.json() does *)
}.

(** How one HTTP exchange ends: the call raises, or a response arrives. *)
Inductive HttpOutcome : Type :=
| HttpRaises (e : exn)
| HttpResponse (r : Response).

(** What [requests] raises and what [response.json()] raises are
    instances of [Exception] with an ordinary [__str__]. *)
Definition benign_outcome (o : HttpOutcome) : bool :=
  match o with
  | HttpRaises e => benign e
  | HttpResponse r => benign_result (json_ r)
  end.

(** The network behind [session.get] and [session.post], answering from
    the url, the query parameters or JSON payload, and the headers; and
    the session's cookie jar after the exchange, in which [requests] has
    stored the cookies the responses set.  The last two fields record
    that every exchange ends in a [benign_outcome]. *)
Record Transport : Type := mkTransport {
  http_get : string -> list (string * string) -> list (string * string)
             -> HttpOutcome;
  http_post : string -> json -> list (string * string) -> HttpOutcome;
  jar_after_get : string -> list (string * string) -> list (string * string)
                  -> list Cookie -> list Cookie;
  jar_after_post : string -> json -> list (string * string)
                   -> list Cookie -> list Cookie;
  http_get_benign :
    forall url params headers,
      benign_outcome (http_get url params headers) = true;
  http_post_benign :
    forall url payload headers,
      benign_outcome (http_post url payload headers) = true
}.

Record t : Type := mk {
  username : option string;
  password : option string;
  email : option string;
  poll_interval : Z;
  cookies : list Cookie;               (* self.session.cookies *)
  headers : list (string * string);    (* self.session.headers *)
  bearer_token : string;
  chroma_client : option Chroma.Client
}.

(** The names the class defines and [__init__] sets on the instance. *)
Definition attributes : list string :=
  [ "BASE_URL"; "API_URL"; "__init__"; "_get_default_features";
    "_setup_cookies"; "get_csrf_token"; "_update_headers_with_csrf";
    "search_tweets"; "send_tweet"; "get_tweet"; "get_user_tweets";
    "username"; "password"; "email"; "poll_interval"; "session";
    "bearer_token"; "chroma_client" ]%string.

Definition hasattr (name : string) : bool :=
  existsb (String.eqb name) attributes.

(** One cookie dict of the decoded cookie list; [None] is a missing
    key, which [cookie.get(key, default)] replaces. *)
Record CookieDict : Type := mkCookieDict {
  cd_name : string;
  cd_value : string;
  cd_domain : option string;
  cd_path : option string
}.

(** The [try] branch of [_setup_cookies] (92-99), [json.loads] having
    returned [cookie_list]. *)
Definition _setup_cookies (cookie_list : list CookieDict)
    (jar : list Cookie) : list Cookie :=
  fold_left
    (fun jar cookie =>
       cookies_set
         (mkCookie (cd_name cookie) (cd_value cookie)
            (match cd_domain cookie with Some d => d | None => ".twitter.com" end)
            (match cd_path cookie with Some p => p | None => "/" end))
         jar)
    cookie_list jar.

Definition get_csrf_token (self : t) : result (option string) :=
  cookies_get (cookies self) "ct0" ".twitter.com".

(** [key.lower()], on the ASCII letters header names are made of. *)
Definition lower_ascii (c : ascii) : ascii :=
  let n := nat_of_ascii c in
  if ((65 <=? n) && (n <=? 90))%nat then ascii_of_nat (n + 32) else c.

Fixpoint lower (s : string) : string :=
  match s with
  | EmptyString => EmptyString
  | String c r => String (lower_ascii c) (lower r)
  end.

(** [headers.update({key: value})] on the session's case-insensitive
    dict: the entry whose key has the same [lower()] is replaced in place,
    the new spelling of the key kept. *)
Fixpoint headers_update (key value : string) (h : list (string * string))
  : list (string * string) :=
  match h with
  | [] => [(key, value)]
  | (k, v) :: r =>
      if String.eqb (lower key) (lower k) then (key, value) :: r
      else (k, v) :: headers_update key value r
  end.

(** [headers.get(key)]. *)
Fixpoint headers_get (key : string) (h : list (string * string))
  : option string :=
  match h with
  | [] => None
  | (k, v) :: r =>
      if String.eqb (lower key) (lower k) then Some v else headers_get key r
  end.

Definition with_headers (self : t) (h : list (string * string)) : t :=
  mk (username self) (password self) (email self) (poll_interval self)
     (cookies self) h (bearer_token self) (chroma_client self).

Definition with_cookies (self : t) (jar : list Cookie) : t :=
  mk (username self) (password self) (email self) (poll_interval self)
     jar (headers self) (bearer_token self) (chroma_client self).

Definition _update_headers_with_csrf (self : t) : result t :=
  let? csrf_token := get_csrf_token self in
  match csrf_token with
  | Some tok =>
      if String.eqb tok EmptyString then Ok self
      else Ok (with_headers self
                 (headers_update "x-csrf-token" tok (headers self)))
  | None => Ok self
  end.

(** The dict display of [_get_default_features] (44-87), as written. *)
Definition _get_default_features : json :=
  dict_display
    [ ("verified_phone_label_enabled"%string, JBool false);
      ("tweetypie_unmention_optimization_enabled"%string, JBool true);
      ("responsive_web_edit_tweet_api_enabled"%string, JBool true);
      ("graphql_is_translatable_rweb_tweet_is_translatable_enabled"%string, JBool true);
      ("view_counts_everywhere_api_enabled"%string, JBool true);
      ("longform_notetweets_consumption_enabled"%string, JBool true);
      ("responsive_web_twitter_article_tweet_consumption_enabled"%string, JBool false);
      ("tweet_awards_web_tipping_enabled"%string, JBool false);
      ("freedom_of_speech_not_reach_fetch_enabled"%string, JBool true);
      ("standardized_nudges_misinfo"%string, JBool true);
      ("tweet_with_visibility_results_prefer_gql_limited_actions_policy_enabled"%string, JBool true);
      ("longform_notetweets_rich_text_read_enabled"%string, JBool true);
      ("longform_notetweets_inline_media_enabled"%string, JBool true);
      ("responsive_web_enhance_cards_enabled"%string, JBool false);
      ("responsive_web_graphql_exclude_directive_enabled"%string, JBool true);
      ("responsive_web_graphql_skip_user_profile_image_extensions_enabled"%string, JBool false);
      ("responsive_web_graphql_timeline_navigation_enabled"%string, JBool true);
      ("vibe_api_enabled"%string, JBool false);
      ("responsive_web_text_conversations_enabled"%string, JBool false);
      ("interactive_text_enabled"%string, JBool true);
      ("blue_business_profile_image_shape_enabled"%string, JBool false);
      ("c9s_tweet_anatomy_moderator_badge_enabled"%string, JBool true);
      ("rweb_video_timestamps_enabled"%string, JBool true);
      ("responsive_web_media_download_video_enabled"%string, JBool false);
      ("rweb_tipjar_consumption_enabled"%string, JBool true);
      ("articles_preview_enabled"%string, JBool true);
      ("creator_subscriptions_quote_tweet_preview_enabled"%string, JBool true);
      ("communities_web_enable_tweet_community_results_fetch"%string, JBool true);
      ("android_graphql_skip_api_media_color_palette"%string, JBool false);
      ("creator_subscriptions_tweet_preview_api_enabled"%string, JBool true);
      ("responsive_web_enhance_cards_enabled"%string, JBool false);
      ("unified_cards_ad_metadata_container_dynamic_card_content_query_enabled"%string, JBool false);
      ("responsive_web_twitter_article_tweet_consumption_enabled"%string, JBool false);
      ("longform_notetweets_rich_text_read_enabled"%string, JBool true);
      ("responsive_web_graphql_timeline_navigation_enabled"%string, JBool true) ].

(** The tweet dict of one timeline entry (169-195); [None] is an entry
    the loop skips with [continue]. *)
Definition tweet_of_entry (entry : json) : result (option Tweet.t) :=
  let? entryId := dict_get entry "entryId" (JStr "") in
  let? is_tweet := startswith entryId "tweet-" in
  if negb is_tweet then Ok None
  else
    let? content := dict_get entry "content" (JDict []) in
    let? itemContent := dict_get content "itemContent" (JDict []) in
    let? tweet_results := dict_get itemContent "tweet_results" (JDict []) in
    let? result := dict_get tweet_results "result" (JDict []) in
    if negb (truthy result) then Ok None
    else
      let? legacy := dict_get result "legacy" (JDict []) in
      let? core := dict_get result "core" (JDict []) in
      let? user_results := dict_get core "user_results" (JDict []) in
      let? user_result := dict_get user_results "result" (JDict []) in
      let? user_legacy := dict_get user_result "legacy" (JDict []) in
      if negb (truthy legacy) || negb (truthy user_legacy) then Ok None
      else
        let? id := dict_get legacy "id_str" JNull in
        let? text := dict_get legacy "full_text" JNull in
        let? username := dict_get user_legacy "screen_name" JNull in
        let? name := dict_get user_legacy "name" JNull in
        let? user_id := dict_get user_legacy "id_str" JNull in
        let? created_at := dict_get legacy "created_at" JNull in
        let? conversation_id := dict_get legacy "conversation_id_str" JNull in
        let? in_reply_to_status_id :=
          dict_get legacy "in_reply_to_status_id_str" JNull in
        let? in_reply_to_user_id :=
          dict_get legacy "in_reply_to_user_id_str" JNull in
        Ok (Some (Tweet.mk id text username name user_id created_at
                    conversation_id in_reply_to_status_id
                    in_reply_to_user_id)).

(** [for entry in entries] (168-195), appending to [tweets]. *)
Fixpoint tweets_of_entries (entries : list json) (tweets : list Tweet.t)
  : result (list Tweet.t) :=
  match entries with
  | [] => Ok tweets
  | entry :: rest =>
      let? tweet := tweet_of_entry entry in
      match tweet with
      | Some tw => tweets_of_entries rest (tweets ++ [tw])
      | None => tweets_of_entries rest tweets
      end
  end.

(** [for instruction in instructions] (165-195). *)
Fixpoint tweets_of_instructions (instructions : list json)
    (tweets : list Tweet.t) : result (list Tweet.t) :=
  match instructions with
  | [] => Ok tweets
  | instruction :: rest =>
      let? type := dict_get instruction "type" JNull in
      if eq_optional_str type (Some "TimelineAddEntries"%string)
      then
        let? entries := dict_get instruction "entries" (JList []) in
        let? entries := iterate entries in
        let? tweets := tweets_of_entries entries tweets in
        tweets_of_instructions rest tweets
      else tweets_of_instructions rest tweets
  end.

(** The [try] block of [search_tweets] (150-197). *)
Definition search_tweets_try (outcome : HttpOutcome)
  : result (list Tweet.t) :=
  match outcome with
  | HttpRaises e => Raise e
  | HttpResponse response =>
      if negb (status_code response =? 200) then Ok []
      else
        let? data := json_ response in
        let tweets := [] in
        let? d := dict_get data "data" (JDict []) in
        let? q := dict_get d "search_by_raw_query" (JDict []) in
        let? st := dict_get q "search_timeline" (JDict []) in
        let? tl := dict_get st "timeline" (JDict []) in
        let? instructions := dict_get tl "instructions" (JList []) in
        let? instructions := iterate instructions in
        tweets_of_instructions instructions tweets
  end.

Section Requests.
Context (L : PyLib) (net : Transport).

(** [search_tweets]: the session comes back with the result, its headers
    refreshed and its jar as the exchange left it.  The handler prints
    [str(e)] (199-201). *)
Definition search_tweets (self : t) (query : string) (max_tweets : Z)
  : result (list Tweet.t) * t :=
  match _update_headers_with_csrf self with
  | Raise e => (Raise e, self)
  | Ok self =>
      let variables :=
        dict_display
          [ ("rawQuery"%string, JStr query);
            ("count"%string, JNum (PInt (Z.min max_tweets 40)));
            ("querySource"%string, JStr "typed_query");
            ("product"%string, JStr "Latest");
            ("includePromotedContent"%string, JBool false);
            ("withDownvotePerspective"%string, JBool false);
            ("withReactionsMetadata"%string, JBool false);
            ("withReactionsPerspective"%string, JBool false) ] in
      let features := _get_default_features in
      let field_toggles :=
        dict_display
          [ ("withArticleRichContentState"%string, JBool false) ] in
      let params :=
        [ ("variables"%string, json_dumps L variables);
          ("features"%string, json_dumps L features);
          ("fieldToggles"%string, json_dumps L field_toggles) ] in
      let url :=
        (BASE_URL ++ "/i/api/graphql/gkjsKepM6gl_HmFWoWKfgg/SearchTimeline")%string in
      let outcome := http_get net url params (headers self) in
      let self :=
        with_cookies self
          (jar_after_get net url params (headers self) (cookies self)) in
      match search_tweets_try outcome with
      | Ok tweets => (Ok tweets, self)
      | Raise e =>
          if is_Exception e
          then (match py_str_exn e with
                | Ok _ => Ok []
                | Raise e' => Raise e'
                end, self)
          else (Raise e, self)
      end
  end.

Definition send_tweet (self : t) (text : string) (reply_to_tweet_id : json)
  : result json * t :=
  match _update_headers_with_csrf self with
  | Raise e => (Raise e, self)
  | Ok self =>
      let variables :=
        [ ("tweet_text"%string, JStr text);
          ("dark_request"%string, JBool false);
          ("media"%string,
           dict_display
             [ ("media_entities"%string, JList []);
               ("possibly_sensitive"%string, JBool false) ]);
          ("semantic_annotation_ids"%string, JList []) ] in
      let variables :=
        if truthy reply_to_tweet_id
        then variables
             ++ [ ("reply"%string,
                   dict_display
                     [ ("in_reply_to_tweet_id"%string, reply_to_tweet_id) ]) ]
        else variables in
      let payload :=
        dict_display
          [ ("variables"%string, dict_display variables);
            ("features"%string, _get_default_features);
            ("queryId"%string, JStr "a1p9RWpkYKBjWv_I3WzS-A") ] in
      let url :=
        (BASE_URL ++ "/i/api/graphql/a1p9RWpkYKBjWv_I3WzS-A/CreateTweet")%string in
      let outcome := http_post net url payload (headers self) in
      let self :=
        with_cookies self
          (jar_after_post net url payload (headers self) (cookies self)) in
      match outcome with
      | HttpRaises e => (Raise e, self)
      | HttpResponse response =>
          if negb (status_code response =? 200)
          then (Raise (PyException
                         ("Failed to send tweet: Status "
                          ++ py_str L (JNum (PInt (status_code response)))
                          ++ " - " ++ text_ response)%string),
                self)
          else (json_ response, self)
      end
  end.

Definition get_tweet (self : t) (tweet_id : string) : result json * t :=
  match _update_headers_with_csrf self with
  | Raise e => (Raise e, self)
  | Ok self =>
      let variables :=
        dict_display
          [ ("focalTweetId"%string, JStr tweet_id);
            ("with_rux_injections"%string, JBool false);
            ("includePromotedContent"%string, JBool false);
            ("withCommunity"%string, JBool true);
            ("withQuickPromoteEligibilityTweetFields"%string, JBool true);
            ("withBirdwatchNotes"%string, JBool false);
            ("withVoice"%string, JBool true);
            ("withV2Timeline"%string, JBool true) ] in
      let params :=
        [ ("variables"%string, json_dumps L variables);
          ("features"%string, json_dumps L _get_default_features) ] in
      let url :=
        (BASE_URL ++ "/i/api/graphql/xOhkmRac04YFZmOzU9PJHg/TweetDetail")%string in
      let outcome := http_get net url params (headers self) in
      let self :=
        with_cookies self
          (jar_after_get net url params (headers self) (cookies self)) in
      match outcome with
      | HttpRaises e => (Raise e, self)
      | HttpResponse response =>
          if negb (status_code response =? 200)
          then (Raise (PyException
                         ("Failed to fetch tweet: " ++ text_ response)%string),
                self)
          else (json_ response, self)
      end
  end.

Definition get_user_tweets (self : t) (user_id : string) (max_tweets : Z)
  : result json * t :=
  match _update_headers_with_csrf self with
  | Raise e => (Raise e, self)
  | Ok self =>
      let variables :=
        dict_display
          [ ("userId"%string, JStr user_id);
            ("count"%string, JNum (PInt (Z.min max_tweets 40)));
            ("includePromotedContent"%string, JBool false);
            ("withQuickPromoteEligibilityTweetFields"%string, JBool true);
            ("withVoice"%string, JBool true);
            ("withV2Timeline"%string, JBool true) ] in
      let params :=
        [ ("variables"%string, json_dumps L variables);
          ("features"%string, json_dumps L _get_default_features) ] in
      let url :=
        (BASE_URL ++ "/i/api/graphql/V7H0Ap3_Hh2FyS75OCDO3Q/UserTweets")%string in
      let outcome := http_get net url params (headers self) in
      let self :=
        with_cookies self
          (jar_after_get net url params (headers self) (cookies self)) in
      match outcome with
      | HttpRaises e => (Raise e, self)
      | HttpResponse response =>
          if negb (status_code response =? 200)
          then (Raise (PyException
                         ("Failed to fetch user tweets: "
                          ++ text_ response)%string),
                self)
          else (json_ response, self)
      end
  end.
End Requests.

(** A [TwitterClient] given to the handler as its [twitter_client]; the
    network may answer differently at every call.  The class has no
    [get_followers]. *)
Definition as_client (L : PyLib) (net : World -> Transport) (self : t)
  : Client.t :=
  Client.mk
    (username self)
    (Some (fun query max_tweets w =>
             fst (search_tweets L (net w) self query max_tweets)))
    (Some (fun text reply_to_tweet_id w =>
             fst (send_tweet L (net w) self text reply_to_tweet_id)))
    None.
End TwitterClient.

(** ** Vocabulary of the properties *)

(** The three logs of a world agree: nothing was recorded, posted or taken
    into the pipeline in between. *)
Definition same_logs (w w' : World) : Prop :=
  tweet_responses w' = tweet_responses w
  /\ sent w' = sent w
  /\ processing_log w' = processing_log w.

Section Eligibility.
Context (L : PyLib) (self : TwitterInteractionHandler).

(** The identifier is strictly greater than the cursor, a missing cursor
    counting as 0 (112). *)
Definition after_cursor (t : Tweet.t) : bool :=
  match py_int L (Tweet.id t) with
  | Ok n => n >? cursor_or_0 (last_checked_tweet_id self)
  | Raise _ => false
  end.

(** The timestamp is not before [start_time] (119-120). *)
Definition in_session_window (t : Tweet.t) : bool :=
  match strptime L (Tweet.created_at t) with
  | Ok created => negb (created <? start_time self)
  | Raise _ => false
  end.

(** The author is not the handler's own account (125). *)
Definition by_other_author (t : Tweet.t) : bool :=
  negb (eq_optional_str (Tweet.username t) (Client.username (client self))).

(** The filters of the loop on one candidate, the store being that of [w]. *)
Definition passes_loop_filters (w : World) (t : Tweet.t) : bool :=
  in_session_window t && by_other_author t
  && negb (has_record w (Tweet.id t)).

Definition eligible (w : World) (t : Tweet.t) : bool :=
  after_cursor t && passes_loop_filters w t.

(** The list the loop of [check_mentions] runs over (110-114), empty when
    an [int] raised. *)
Definition survivors (search_response : list Tweet.t) : list Tweet.t :=
  match newer_than L (cursor_or_0 (last_checked_tweet_id self)) search_response with
  | Raise _ => []
  | Ok newer =>
      match sorted_by_id L newer with
      | Raise _ => []
      | Ok tweets => tweets
      end
  end.

(** The eligible candidates of a search result, in the order the loop
    meets them. *)
Definition eligible_in_order (w : World) (search_response : list Tweet.t)
  : list Tweet.t :=
  filter (passes_loop_filters w) (survivors search_response).
End Eligibility.

(** No step of the reply pipeline fails: the prompt helper, the context
    callbacks, the generator called with the keyword [additionalContext],
    the post and the store all answer. *)
Record Reliable (L : PyLib) (self : TwitterInteractionHandler) : Prop := {
  prompt_ok :
    forall text user ctx w, exists p,
      getTweetResponsePrompt L text user ctx w = Ok p;
  user_context_ok :
    forall get, getUserContext self = Some get ->
      forall c u w, exists s, get c u w = Ok s;
  fetch_context_ok :
    forall fetch, fetchContext self = Some fetch ->
      forall c t w, exists s, fetch c t w = Ok s;
  generator_ok :
    forall text ctx w, exists r,
      fst (py_call (response_generator self) [text]
             [("additionalContext"%string, ctx)] w) = Ok r;
  send_ok :
    exists send, Client.send_tweet (client self) = Some send
      /\ forall text i w, exists j, send text i w = Ok j;
  update_context_ok :
    forall update, updateUserContext self = Some update ->
      forall c u i u' a w, update c u i u' a w = Ok tt;
  store_ok :
    exists c, chroma_client self = Some c
      /\ (forall n w, Chroma.get_or_create_collection_fault c n w = None)
      /\ (forall i w, Chroma.get_fault c i w = None)
      /\ (forall i w, Chroma.add_fault c i w = None)
}.

(** Every exception a collaborator of the handler raises is an instance
    of [Exception] whose [__str__] returns. *)
Definition benign_fault (o : option exn) : bool :=
  match o with
  | Some e => benign e
  | None => true
  end.

Record Benign (L : PyLib) (self : TwitterInteractionHandler) : Prop := {
  search_benign :
    forall search, Client.search_tweets (client self) = Some search ->
      forall q n w, benign_result (search q n w) = true;
  send_benign :
    forall send, Client.send_tweet (client self) = Some send ->
      forall text i w, benign_result (send text i w) = true;
  prompt_benign :
    forall text user ctx w,
      benign_result (getTweetResponsePrompt L text user ctx w) = true;
  user_context_benign :
    forall get, getUserContext self = Some get ->
      forall c u w, benign_result (get c u w) = true;
  fetch_context_benign :
    forall fetch, fetchContext self = Some fetch ->
      forall c t w, benign_result (fetch c t w) = true;
  generator_benign :
    forall env w,
      benign_result (fn_body (response_generator self) env w) = true;
  update_context_benign :
    forall update, updateUserContext self = Some update ->
      forall c u i u' a w, benign_result (update c u i u' a w) = true;
  store_benign :
    forall c, chroma_client self = Some c ->
      (forall n w,
          benign_fault (Chroma.get_or_create_collection_fault c n w) = true)
      /\ (forall i w, benign_fault (Chroma.get_fault c i w) = true)
      /\ (forall i w, benign_fault (Chroma.add_fault c i w) = true)
}.

(** A computation that raises nothing but such exceptions. *)
Definition raises_only_benign {A} (m : M A) : Prop :=
  forall w e w', m w = (Raise e, w') -> benign e = true.

(** In [w] a reply to [t] has been posted. *)
Definition posted_to (t : Tweet.t) (w : World) : Prop :=
  exists s, In s (sent w) /\ reply_to s = Tweet.id t.

(** A step between the post for [t] and its record raises [e], called
    when the reply to [t] has been posted: [updateUserContext], or the
    store's [get_or_create_collection] or [add]. *)
Definition step_after_post_raises (self : TwitterInteractionHandler)
    (t : Tweet.t) (e : exn) : Prop :=
  (exists update interaction additionalContext w0,
      updateUserContext self = Some update
      /\ posted_to t w0
      /\ update (chroma_client self) (Tweet.username t) interaction
           (Tweet.username t) additionalContext w0 = Raise e)
  \/ (exists c w0,
         chroma_client self = Some c
         /\ posted_to t w0
         /\ (Chroma.get_or_create_collection_fault c "tweet_responses" w0
             = Some e
             \/ Chroma.add_fault c (Tweet.id t) w0 = Some e)).

(** How one run of the reply pipeline on [t] can end: it raised before
    the post returned; the post was accepted and a later step raised; it
    ran to its end and wrote the record; or it ran to its end and wrote
    none, the store holding a record under that identifier already (or no
    store being configured). *)
Definition pipeline_outcome (self : TwitterInteractionHandler) (t : Tweet.t)
    (w : World) (res : result unit) (w' : World) : Prop :=
  processing_log w' = processing_log w ++ [t]
  /\ ((exists e, res = Raise e
                /\ tweet_responses w' = tweet_responses w
                /\ sent w' = sent w)
      \/ (exists e txt, res = Raise e
                /\ step_after_post_raises self t e
                /\ tweet_responses w' = tweet_responses w
                /\ sent w' = sent w ++ [mkSent txt (Tweet.id t)])
      \/ (exists txt row, res = Ok tt
                /\ has_record w (Tweet.id t) = false
                /\ row_id row = Tweet.id t
                /\ tweet_responses w' = tweet_responses w ++ [row]
                /\ sent w' = sent w ++ [mkSent txt (Tweet.id t)])
      \/ (exists txt, res = Ok tt
                /\ (chroma_client self = None
                    \/ has_record w (Tweet.id t) = true)
                /\ tweet_responses w' = tweet_responses w
                /\ sent w' = sent w ++ [mkSent txt (Tweet.id t)])).

(** The identifiers of [ids], taken in order, that get a record written
    when the store holds records under [known]: one that is known, or was
    met earlier in [ids], gets none. *)
Fixpoint newly_recorded (known ids : list json) : list json :=
  match ids with
  | [] => []
  | i :: rest =>
      if existsb (json_eqb i) known then newly_recorded known rest
      else i :: newly_recorded (known ++ [i]) rest
  end.

(** How the logs of a cycle that began in [w] relate: [P] the candidates
    that entered the pipeline, [S] the posts accepted, [R] the records
    written, in order.  [done] are the candidates whose run of the
    pipeline returned: each has its post, and its record unless the store
    held one already.  Either these are all of [P], or one more candidate
    [t] entered the pipeline and its run raised [e], which ended the
    cycle: [t] has no record, and either its run posted nothing, or it
    posted the reply and a step called after the post raised [e]. *)
Definition cycle_shape (L : PyLib) (self : TwitterInteractionHandler)
    (additionalContext searchContext : string) (w : World)
    (res : result unit) (P : list Tweet.t) (S : list SentTweet)
    (R : list ChromaRow) : Prop :=
  exists done,
    Forall (fun t =>
              exists w1 w2,
                reply_pipeline L self additionalContext searchContext t w1
                = (Ok tt, w2)) done
    /\ map row_id R
       = newly_recorded (map row_id (tweet_responses w)) (map Tweet.id done)
    /\ ((P = done /\ map reply_to S = map Tweet.id done)
        \/ (exists t e w1 w2,
               P = done ++ [t]
               /\ res = Raise e
               /\ reply_pipeline L self additionalContext searchContext t w1
                  = (Raise e, w2)
               /\ ((map reply_to S = map Tweet.id done
                    /\ sent w2 = sent w1)
                   \/ (map reply_to S = map Tweet.id P
                       /\ step_after_post_raises self t e)))).

(** Ascending identifiers, as [int] reads them. *)
Definition id_le (L : PyLib) (a b : Tweet.t) : Prop :=
  match py_int L (Tweet.id a), py_int L (Tweet.id b) with
  | Ok x, Ok y => x <= y
  | _, _ => False
  end.

(** The store's lookups answer (its writes may still fail). *)
Definition lookups_answer (self : TwitterInteractionHandler) : Prop :=
  forall c, chroma_client self = Some c ->
    (forall n w, Chroma.get_or_create_collection_fault c n w = None)
    /\ (forall i w, Chroma.get_fault c i w = None).

(** ** A well-formed search response *)

(** What a timeline holds: a tweet under an [entryId] starting with
    [tweet-], or some other entry, here one starting with [cursor-]. *)
Inductive TimelineEntry : Type :=
| TweetEntry (suffix : string) (tweet : Tweet.t)
| CursorEntry (suffix : string) (content : json).

(** The JSON of an entry, with the keys [search_tweets] reads. *)
Definition entry_json (e : TimelineEntry) : json :=
  match e with
  | TweetEntry suffix t =>
      JDict
        [ ("entryId"%string, JStr ("tweet-" ++ suffix));
          ("content"%string,
           JDict
             [ ("itemContent"%string,
                JDict
                  [ ("tweet_results"%string,
                     JDict
                       [ ("result"%string,
                          JDict
                            [ ("legacy"%string,
                               JDict
                                 [ ("id_str"%string, Tweet.id t);
                                   ("full_text"%string, Tweet.text t);
                                   ("created_at"%string, Tweet.created_at t);
                                   ("conversation_id_str"%string,
                                    Tweet.conversation_id t);
                                   ("in_reply_to_status_id_str"%string,
                                    Tweet.in_reply_to_status_id t);
                                   ("in_reply_to_user_id_str"%string,
                                    Tweet.in_reply_to_user_id t) ]);
                              ("core"%string,
                               JDict
                                 [ ("user_results"%string,
                                    JDict
                                      [ ("result"%string,
                                         JDict
                                           [ ("legacy"%string,
                                              JDict
                                                [ ("screen_name"%string,
                                                   Tweet.username t);
                                                  ("name"%string, Tweet.name t);
                                                  ("id_str"%string,
                                                   Tweet.user_id t) ]) ]) ]) ]) ]) ]) ]) ]) ]
  | CursorEntry suffix content =>
      JDict
        [ ("entryId"%string, JStr ("cursor-" ++ suffix));
          ("content"%string, content) ]
  end.

Definition entry_tweet (e : TimelineEntry) : list Tweet.t :=
  match e with
  | TweetEntry _ t => [t]
  | CursorEntry _ _ => []
  end.

(** The body of a SearchTimeline answer holding [entries] in one
    [TimelineAddEntries] instruction, after instructions of another type. *)
Definition timeline_json (other_instructions : list string)
    (entries : list TimelineEntry) : json :=
  JDict
    [ ("data"%string,
       JDict
         [ ("search_by_raw_query"%string,
            JDict
              [ ("search_timeline"%string,
                 JDict
                   [ ("timeline"%string,
                      JDict
                        [ ("instructions"%string,
                           JList
                             (map (fun ty => JDict [("type"%string, JStr ty)])
                                (filter
                                   (fun ty =>
                                      negb (String.eqb ty "TimelineAddEntries"))
                                   other_instructions)
                              ++ [ JDict
                                     [ ("type"%string,
                                        JStr "TimelineAddEntries");
                                       ("entries"%string,
                                        JList (map entry_json entries)) ] ])) ]) ]) ]) ]) ].

(** ** The cookies of a session *)

(** The cookie [_setup_cookies] sets for one dict of the cookie list. *)
Definition cookie_of (cd : TwitterClient.CookieDict) : TwitterClient.Cookie :=
  TwitterClient.mkCookie (TwitterClient.cd_name cd) (TwitterClient.cd_value cd)
    (match TwitterClient.cd_domain cd with
     | Some d => d
     | None => ".twitter.com"%string
     end)
    (match TwitterClient.cd_path cd with
     | Some p => p
     | None => "/"%string
     end).

(** The cookies [get_csrf_token] looks among. *)
Definition is_csrf_cookie (k : TwitterClient.Cookie) : bool :=
  String.eqb (TwitterClient.cookie_name k) "ct0"
  && String.eqb (TwitterClient.cookie_domain k) ".twitter.com".

(** ** Concrete instances, for running the model *)

Module Sample.
(** A stand-in for [int] on the decimal strings the platform issues. *)
Fixpoint digits (s : string) (acc : Z) : option Z :=
  match s with
  | EmptyString => Some acc
  | String c r =>
      let n := Z.of_nat (nat_of_ascii c) in
      if (48 <=? n) && (n <=? 57) then digits r (10 * acc + (n - 48))
      else None
  end.

Definition int_ (v : json) : result Z :=
  match v with
  | JStr EmptyString => Raise ValueError
  | JStr s => match digits s 0 with Some n => Ok n | None => Raise ValueError end
  | JNum (PInt z) => Ok z
  | JBool b => Ok (if b then 1 else 0)
  | _ => Raise TypeError
  end.

(** A stand-in for [strptime] on four dates. *)
Definition strptime_ (v : json) : result Z :=
  match v with
  | JStr s =>
      if String.eqb s "Wed Nov 04 11:00:00 +0000 2026" then Ok 1793790000000000
      else if String.eqb s "Tue Nov 03 13:00:00 +0000 2026" then Ok 1793710800000000
      else if String.eqb s "Tue Nov 03 11:00:00 +0000 2026" then Ok 1793703600000000
      else if String.eqb s "Mon Nov 02 09:00:00 +0000 2026" then Ok 1793610000000000
      else Raise ValueError
  | _ => Raise TypeError
  end.

Definition str_ (v : json) : string :=
  match v with
  | JStr s => s
  | JNull => "None"
  | _ => "?"
  end.

(** Both stand-ins raise [ValueError] and [TypeError] only. *)
Definition int_benign : forall v, benign_result (int_ v) = true.
Proof.
  intros [ | b | [z|m e|n| ] | s | l | d]; try reflexivity.
  destruct s as [|c r]; [reflexivity|].
  unfold int_. destruct (digits (String c r) 0); reflexivity.
Defined.

Definition strptime_benign_ : forall v, benign_result (strptime_ v) = true.
Proof.
  intros [ | b | n | s | l | d]; try reflexivity.
  unfold strptime_.
  repeat match goal with
         | |- context [if ?b then _ else _] => destruct b; try reflexivity
         end.
Defined.

Definition lib : PyLib :=
  mkPyLib int_ strptime_ str_ (fun _ => "{}"%string)
    (fun _ => "2026-11-04T12:00:01"%string)
    (fun w _ => calls w)
    (fun text username _ _ => Ok ("Reply to: " ++ str_ text)%string)
    int_benign strptime_benign_.

(** Wed Nov 04 12:00:00 +0000 2026. *)
Definition now : Z := 1793793600000000.

Definition tweet (id username created_at : string) : Tweet.t :=
  Tweet.mk (JStr id) (JStr "gm") (JStr username) (JStr username) (JStr "1")
    (JStr created_at) (JStr id) JNull JNull.

Definition t3 : Tweet.t := tweet "3" "alice" "Wed Nov 04 11:00:00 +0000 2026".
Definition t5 : Tweet.t := tweet "5" "bob" "Wed Nov 04 11:00:00 +0000 2026".
Definition t7 : Tweet.t := tweet "7" "carol" "Tue Nov 03 13:00:00 +0000 2026".
Definition t9_old : Tweet.t := tweet "9" "dave" "Mon Nov 02 09:00:00 +0000 2026".
Definition t11_own : Tweet.t := tweet "11" "rice" "Wed Nov 04 11:00:00 +0000 2026".

(** A generator taking the keyword the handler passes. *)
Definition generator : PyFunction :=
  mkPyFunction
    [("tweet_text"%string, None); ("additionalContext"%string, Some ""%string)]
    false
    (fun _ _ => Ok "gm to you"%string).

Definition chroma : Chroma.Client :=
  Chroma.mk (fun _ _ => None) (fun _ _ => None) (fun _ _ => None).

(** A store whose lookups fail with [e]. *)
Definition chroma_get_raising (e : exn) : Chroma.Client :=
  Chroma.mk (fun _ _ => None) (fun _ _ => Some e) (fun _ _ => None).

(** A store whose writes fail with [e]. *)
Definition chroma_add_raising (e : exn) : Chroma.Client :=
  Chroma.mk (fun _ _ => None) (fun _ _ => None) (fun _ _ => Some e).

(** A client answering every search with [found] and accepting posts. *)
Definition platform (found : list Tweet.t) : Client.t :=
  Client.mk (Some "rice"%string)
    (Some (fun _ _ _ => Ok found))
    (Some (fun _ _ _ => Ok (JDict [])))
    (Some (fun _ _ => Ok [Follower.mk (JStr "alice") (JStr "builder")])).

(** A client whose posts the platform refuses. *)
Definition platform_refusing (found : list Tweet.t) : Client.t :=
  Client.mk (Some "rice"%string)
    (Some (fun _ _ _ => Ok found))
    (Some (fun _ _ _ => Raise (PyException "Failed to send tweet: Status 403 - ")))
    None.

Definition handler (found : list Tweet.t) (cursor : option Z)
    (store : option Chroma.Client) : TwitterInteractionHandler :=
  __init__ now (Saved cursor) (platform found) (Some generator) store
    [] [] None None None.

Definition world0 : World := mkWorld 0 [] [] [].

(** A world whose store already holds a record for tweet 5. *)
Definition world_answered_5 : World :=
  mkWorld 0
    [mkRow (JStr "5") (JStr "gm")
       (mkLogEntry "2026-11-04T11:30:00" (JStr "5") "PLACEHOLDER" (JStr "gm")
          "gm to you")]
    [] [].

(** Two [ct0] cookies for [.twitter.com] on different paths, set as
    [_setup_cookies] sets them. *)
Definition two_csrf_cookies : list TwitterClient.CookieDict :=
  [ TwitterClient.mkCookieDict "ct0" "aaa" (Some ".twitter.com"%string)
      (Some "/"%string);
    TwitterClient.mkCookieDict "ct0" "bbb" (Some ".twitter.com"%string)
      (Some "/i"%string) ].

Definition twitter_client (cookie_list : list TwitterClient.CookieDict)
  : TwitterClient.t :=
  TwitterClient.mk (Some "rice"%string) None None 120
    (TwitterClient._setup_cookies cookie_list [])
    [("Content-Type"%string, "application/json"%string)]
    "AAAA" None.

(** A network that answers every request with [outcome] and sets no
    cookie. *)
Definition net_of (outcome : TwitterClient.HttpOutcome)
    (H : TwitterClient.benign_outcome outcome = true)
  : TwitterClient.Transport :=
  TwitterClient.mkTransport (fun _ _ _ => outcome) (fun _ _ _ => outcome)
    (fun _ _ _ jar => jar) (fun _ _ _ jar => jar)
    (fun _ _ _ => H) (fun _ _ _ => H).

Definition ok_response (body : json) : TwitterClient.HttpOutcome :=
  TwitterClient.HttpResponse (TwitterClient.mkResponse 200 "" (Ok body)).
End Sample.

(** * Properties *)

Section Proofs.
Context (L : PyLib).

(** ** The drivers' boundary *)

Lemma py_int_raises_benign :
  forall v e, py_int L v = Raise e -> benign e = true.
Proof.
  intros v e H. pose proof (py_int_benign L v) as Hb. now rewrite H in Hb.
Qed.

Lemma strptime_raises_benign :
  forall v e, strptime L v = Raise e -> benign e = true.
Proof.
  intros v e H. pose proof (strptime_benign L v) as Hb. now rewrite H in Hb.
Qed.

Lemma boundary_keeps_world :
  forall (body : M unit) w,
    snd (try_except body is_Exception print_error w) = snd (body w).
Proof.
  intros body w. unfold try_except.
  destruct (body w) as [[[]|e] w']; [reflexivity|].
  destruct (is_Exception e); reflexivity.
Qed.

Lemma boundary_returns :
  forall (body : M unit) w,
    fst (body w) = Ok tt -> fst (try_except body is_Exception print_error w) = Ok tt.
Proof.
  intros body w H. unfold try_except.
  destruct (body w) as [[[]|e] w']; [reflexivity|discriminate].
Qed.

Lemma boundary_catches :
  forall (body : M unit) w e,
    fst (body w) = Raise e ->
    benign e = true ->
    fst (try_except body is_Exception print_error w) = Ok tt.
Proof.
  intros body w e H Hb. unfold try_except.
  destruct (body w) as [[[]|e0] w']; cbn in H; [discriminate|].
  assert (e0 = e) by congruence. subst e0.
  unfold benign in Hb. apply andb_true_iff in Hb. destruct Hb as [Hi Hs].
  rewrite Hi. unfold print_error, lift. cbn.
  destruct (py_str_exn e) as [[]|]; [reflexivity|discriminate].
Qed.

Lemma boundary_benign :
  forall (body : M unit) w,
    (forall e, fst (body w) = Raise e -> benign e = true) ->
    fst (try_except body is_Exception print_error w) = Ok tt.
Proof.
  intros body w H.
  destruct (fst (body w)) as [[]|e] eqn:E.
  - now apply boundary_returns.
  - eapply boundary_catches; [exact E|]. now apply H.
Qed.

(** What escapes the boundary: an exception of the body that is not an
    instance of [Exception], or what the [__str__] of one that is raised
    while the handler printed it. *)
Lemma boundary_raises :
  forall (body : M unit) w e,
    fst (try_except body is_Exception print_error w) = Raise e ->
    exists e0,
      fst (body w) = Raise e0
      /\ ((is_Exception e0 = false /\ e = e0)
          \/ (is_Exception e0 = true /\ py_str_exn e0 = Raise e)).
Proof.
  intros body w e. unfold try_except.
  destruct (body w) as [[[]|e0] w']; cbn; [discriminate|].
  destruct (is_Exception e0) eqn:Hi; cbn; intros H.
  - exists e0. split; [reflexivity|]. right. split; [exact Hi|exact H].
  - exists e0. split; [reflexivity|]. left. split; [exact Hi|congruence].
Qed.

Lemma boundary_lets_through :
  forall (body : M unit) w e0 e,
    fst (body w) = Raise e0 ->
    (is_Exception e0 = false /\ e = e0)
    \/ (is_Exception e0 = true /\ py_str_exn e0 = Raise e) ->
    fst (try_except body is_Exception print_error w) = Raise e.
Proof.
  intros body w e0 e H Hcase. unfold try_except.
  destruct (body w) as [[[]|e1] w']; cbn in H; [discriminate|].
  assert (e1 = e0) by congruence. subst e1.
  destruct Hcase as [[Hi ->]|[Hi Hs]]; rewrite Hi; cbn.
  - reflexivity.
  - unfold print_error, lift. now rewrite Hs.
Qed.

(** ** The response generator *)

(** C9: a handler built without a response generator cannot generate a
    response: [default_response] has the single parameter [tweet_text], so
    binding the keyword [additionalContext] is a [TypeError]; the only other
    outcome is the exception of a [fetchContext] that raises first. *)
Theorem C9_no_generator_generate_response_raises :
  forall now cursor_file twitter_client chroma terms targets getUC fetch
         updateUC tweet_text additionalContext w,
    fst (generate_response
           (__init__ now cursor_file twitter_client None chroma terms targets
              getUC fetch updateUC)
           tweet_text additionalContext w)
    = Raise (match fetch with
             | None => TypeError
             | Some f =>
                 match f chroma tweet_text w with
                 | Ok _ => TypeError
                 | Raise e => e
                 end
             end).
Proof.
  intros. unfold generate_response, __init__; cbn.
  destruct fetch as [f|]; cbn; unfold bind, call, ret; cbn.
  - destruct (f chroma tweet_text w); reflexivity.
  - reflexivity.
Qed.

(** ** The dedup predicate *)

(** C5, as the code has it: when the lookup raises, the predicate answers
    [False] for [FileNotFoundError] and [json.JSONDecodeError] only; any
    other exception reaches the caller. *)
Theorem C5_dedup_fails_open_on_file_and_json_errors_only :
  forall self tweet_id w e w',
    has_responded_lookup self tweet_id w = (Raise e, w') ->
    has_responded_to_tweet self tweet_id w
    = (if file_or_json_error e then Ok false else Raise e, w').
Proof.
  intros self tweet_id w e w' H.
  unfold has_responded_to_tweet, try_except. rewrite H.
  destruct (file_or_json_error e); reflexivity.
Qed.

Lemma has_responded_without_store :
  forall self tweet_id w,
    chroma_client self = None ->
    has_responded_to_tweet self tweet_id w = (Raise AttributeError, w).
Proof.
  intros self tweet_id w H.
  unfold has_responded_to_tweet, try_except, has_responded_lookup.
  rewrite H. reflexivity.
Qed.

(** ** The platform client *)

(** C8: [TwitterClient] has no attribute [get_followers], so on a handler
    holding one [tweet_to_followers] raises [AttributeError] at its first
    statement and posts nothing. *)
Theorem C8_tweet_to_followers_raises_on_TwitterClient :
  forall net tc now cursor_file generator chroma terms targets getUC fetch
         updateUC check_interval additionalContext w,
    TwitterClient.hasattr "get_followers" = false
    /\ tweet_to_followers L
         (__init__ now cursor_file (TwitterClient.as_client L net tc)
            generator chroma terms targets getUC fetch updateUC)
         check_interval additionalContext w
       = (Raise AttributeError, w).
Proof.
  intros. split; reflexivity.
Qed.

(** The traversal of the response raises [AttributeError] and
    [TypeError] only. *)
Lemma rbind_raises :
  forall A B (r : result A) (k : A -> result B) e,
    rbind r k = Raise e ->
    r = Raise e \/ exists a, r = Ok a /\ k a = Raise e.
Proof.
  intros A B [a|e0] k e H; cbn in H.
  - right. eauto.
  - left. congruence.
Qed.

Lemma dict_get_benign :
  forall d key default, benign_result (dict_get d key default) = true.
Proof. intros []; reflexivity. Qed.

Lemma iterate_benign : forall v, benign_result (iterate v) = true.
Proof. intros []; reflexivity. Qed.

Lemma startswith_benign :
  forall v prefix, benign_result (startswith v prefix) = true.
Proof. intros []; reflexivity. Qed.

Lemma rbind_benign :
  forall A B (r : result A) (k : A -> result B),
    benign_result r = true ->
    (forall a, benign_result (k a) = true) ->
    benign_result (rbind r k) = true.
Proof. intros A B [a|e] k Hr Hk; cbn; auto. Qed.

Lemma tweet_of_entry_benign :
  forall entry, benign_result (TwitterClient.tweet_of_entry entry) = true.
Proof.
  intros entry. unfold TwitterClient.tweet_of_entry.
  repeat first
    [ apply rbind_benign; [first [apply dict_get_benign|apply startswith_benign]|intros ?]
    | match goal with
      | |- benign_result (if ?b then _ else _) = true => destruct b
      end
    | reflexivity ].
Qed.

Lemma tweets_of_entries_benign :
  forall entries tweets,
    benign_result (TwitterClient.tweets_of_entries entries tweets) = true.
Proof.
  induction entries as [|entry rest IH]; intros tweets; [reflexivity|].
  cbn [TwitterClient.tweets_of_entries].
  apply rbind_benign; [apply tweet_of_entry_benign|].
  intros [tw|]; apply IH.
Qed.

Lemma tweets_of_instructions_benign :
  forall instructions tweets,
    benign_result (TwitterClient.tweets_of_instructions instructions tweets)
    = true.
Proof.
  induction instructions as [|i rest IH]; intros tweets; [reflexivity|].
  cbn [TwitterClient.tweets_of_instructions].
  apply rbind_benign; [apply dict_get_benign|]. intros ty.
  destruct (eq_optional_str ty (Some "TimelineAddEntries"%string)); [|apply IH].
  apply rbind_benign; [apply dict_get_benign|]. intros entries.
  apply rbind_benign; [apply iterate_benign|]. intros entries'.
  apply rbind_benign; [apply tweets_of_entries_benign|]. intros tweets'.
  apply IH.
Qed.

Lemma search_tweets_try_benign :
  forall outcome e,
    TwitterClient.benign_outcome outcome = true ->
    TwitterClient.search_tweets_try outcome = Raise e ->
    benign e = true.
Proof.
  intros outcome e Ho He.
  assert (H : benign_result (TwitterClient.search_tweets_try outcome) = true).
  { destruct outcome as [e0|r]; cbn in Ho |- *; [exact Ho|].
    destruct (negb (TwitterClient.status_code r =? 200)); [reflexivity|].
    apply rbind_benign; [exact Ho|]. intros data.
    repeat (apply rbind_benign; [first [apply dict_get_benign|apply iterate_benign]|intros ?]).
    apply tweets_of_instructions_benign. }
  rewrite He in H. exact H.
Qed.

(** C7, as the code has it: once the CSRF cookie lookup made before the
    [try] block has returned, [search_tweets] returns a list whatever the
    HTTP exchange does, and the empty list when the exchange raises, answers
    a status other than 200, carries a body [response.json()] rejects, or
    one whose structure the traversal chokes on. *)
Theorem C7_search_tweets_returns_after_csrf_lookup :
  forall net self query max_tweets csrf_token,
    TwitterClient.get_csrf_token self = Ok csrf_token ->
    (exists tweets self',
        TwitterClient.search_tweets L net self query max_tweets
        = (Ok tweets, self'))
    /\ (forall outcome,
           (forall url params headers,
               TwitterClient.http_get net url params headers = outcome) ->
           (match outcome with
            | TwitterClient.HttpRaises _ => True
            | TwitterClient.HttpResponse r =>
                TwitterClient.status_code r <> 200
                \/ (exists e, TwitterClient.json_ r = Raise e)
                \/ (exists e, TwitterClient.search_tweets_try outcome = Raise e)
            end) ->
           fst (TwitterClient.search_tweets L net self query max_tweets)
           = Ok []).
Proof.
  intros net self query max_tweets tok Hcsrf.
  assert (Hbenign : forall outcome e,
             TwitterClient.benign_outcome outcome = true ->
             TwitterClient.search_tweets_try outcome = Raise e ->
             is_Exception e = true /\ py_str_exn e = Ok tt).
  { intros outcome e Ho He.
    apply search_tweets_try_benign in He; [|exact Ho].
    unfold benign in He. apply andb_true_iff in He. destruct He as [Hi Hs].
    split; [exact Hi|]. destruct (py_str_exn e) as [[]|]; [reflexivity|discriminate]. }
  split.
  - unfold TwitterClient.search_tweets, TwitterClient._update_headers_with_csrf.
    rewrite Hcsrf; cbn.
    destruct tok as [tok|]; [destruct (String.eqb tok EmptyString)|];
      match goal with
      | |- context [TwitterClient.search_tweets_try ?o] =>
          let E := fresh "E" in
          destruct (TwitterClient.search_tweets_try o) as [a|e] eqn:E;
            [eauto|];
            destruct (Hbenign _ _ (TwitterClient.http_get_benign net _ _ _) E)
              as [Hi Hs];
            rewrite Hi, Hs; eauto
      end.
  - intros outcome Hnet Hfail.
    unfold TwitterClient.search_tweets, TwitterClient._update_headers_with_csrf.
    rewrite Hcsrf; cbn.
    assert (Ho : TwitterClient.benign_outcome outcome = true).
    { rewrite <- (Hnet EmptyString [] []).
      apply TwitterClient.http_get_benign. }
    assert (Htry : forall tweets,
               TwitterClient.search_tweets_try outcome = Ok tweets ->
               tweets = []).
    { intros tweets Htry. destruct outcome as [e|r]; cbn in Htry.
      - discriminate.
      - destruct (TwitterClient.status_code r =? 200) eqn:Hs; cbn in Htry.
        + destruct Hfail as [Hne|[[e He]|[e He]]].
          * apply Z.eqb_eq in Hs. contradiction.
          * rewrite He in Htry. discriminate.
          * cbn in He. rewrite Hs in He. cbn in He. congruence.
        + congruence. }
    destruct tok as [tok|]; [destruct (String.eqb tok EmptyString)|];
      rewrite Hnet;
      (destruct (TwitterClient.search_tweets_try outcome) as [a|e] eqn:E;
       [rewrite (Htry a eq_refl); reflexivity|];
       destruct (Hbenign _ _ Ho E) as [Hi Hs]; rewrite Hi, Hs; reflexivity).
Qed.

(** ** Equality of identifiers *)

Lemma pynum_eqb_eq : forall a b, pynum_eqb a b = true -> a = b.
Proof.
  intros [x|m e|s|] [y|m' e'|s'|]; cbn; try discriminate; intros H.
  - apply Z.eqb_eq in H. congruence.
  - apply andb_prop in H as [H1 H2].
    apply Z.eqb_eq in H1. apply Z.eqb_eq in H2. congruence.
  - apply Bool.eqb_prop in H. congruence.
  - reflexivity.
Qed.

Lemma json_eqb_eq : forall a b, json_eqb a b = true -> a = b.
Proof.
  fix IH 1. intros a b.
  destruct a as [|x|x|x|l|d], b as [|y|y|y|l'|d']; cbn;
    try discriminate; intros H.
  - reflexivity.
  - apply Bool.eqb_prop in H. congruence.
  - apply pynum_eqb_eq in H. congruence.
  - apply String.eqb_eq in H. congruence.
  - f_equal. revert l' H.
    induction l as [|x r IHr]; intros [|y r'] H; try discriminate.
    + reflexivity.
    + apply andb_prop in H as [H1 H2].
      f_equal; [apply IH; exact H1 | apply IHr; exact H2].
  - f_equal. revert d' H.
    induction d as [|[k x] r IHr]; intros [|[k' y] r'] H; try discriminate.
    + reflexivity.
    + apply andb_prop in H as [H12 H3]. apply andb_prop in H12 as [H1 H2].
      apply String.eqb_eq in H1. subst k'.
      f_equal; [f_equal; apply IH; exact H2 | apply IHr; exact H3].
Qed.

Lemma existsb_json_eqb_other :
  forall i j known,
    i <> j ->
    existsb (json_eqb i) (known ++ [j]) = existsb (json_eqb i) known.
Proof.
  intros i j known Hne. rewrite existsb_app. cbn.
  destruct (json_eqb i j) eqn:E.
  - apply json_eqb_eq in E. contradiction.
  - now rewrite !orb_false_r.
Qed.

(** Identifiers that are pairwise distinct and unknown to the store all
    get their record. *)
Lemma newly_recorded_all :
  forall ids known,
    (forall i, In i ids -> existsb (json_eqb i) known = false) ->
    NoDup ids ->
    newly_recorded known ids = ids.
Proof.
  induction ids as [|i rest IH]; intros known Hnew Hnd; [reflexivity|].
  inversion Hnd as [|? ? Hi Hrest]; subst. cbn [newly_recorded].
  rewrite (Hnew i (or_introl eq_refl)). f_equal.
  apply IH; [|exact Hrest].
  intros j Hj. rewrite existsb_json_eqb_other.
  - apply Hnew. now right.
  - intros ->. contradiction.
Qed.

Lemma newly_recorded_length :
  forall ids known,
    (List.length (newly_recorded known ids) <= List.length ids)%nat.
Proof.
  induction ids as [|i rest IH]; intros known; cbn [newly_recorded];
    [reflexivity|].
  destruct (existsb (json_eqb i) known); cbn [List.length].
  - specialize (IH known). lia.
  - specialize (IH (known ++ [i])). lia.
Qed.

Lemma has_record_add_other :
  forall w i row,
    row_id row <> i ->
    existsb (json_eqb i) (map row_id (tweet_responses w ++ [row]))
    = has_record w i.
Proof.
  intros w i row Hne. unfold has_record.
  rewrite map_app, existsb_app. cbn.
  destruct (json_eqb i (row_id row)) eqn:E.
  - apply json_eqb_eq in E. congruence.
  - now rewrite !orb_false_r.
Qed.

(** ** What each step does to the logs *)

Lemma same_logs_refl : forall w, same_logs w w.
Proof. intros w. repeat split. Qed.

Lemma same_logs_trans :
  forall w1 w2 w3, same_logs w1 w2 -> same_logs w2 w3 -> same_logs w1 w3.
Proof.
  intros w1 w2 w3 (A & B & C) (A' & B' & C').
  repeat split; congruence.
Qed.

Lemma same_logs_tick : forall w, same_logs w (tick w).
Proof. intros w. repeat split. Qed.

Lemma call_logs :
  forall A (o : oracle A) w r w', call o w = (r, w') -> same_logs w w'.
Proof.
  intros A o w r w' H. unfold call in H. inversion H; subst.
  apply same_logs_tick.
Qed.

Lemma py_call_logs :
  forall f args kwargs w r w',
    py_call f args kwargs w = (r, w') -> same_logs w w'.
Proof.
  intros f args kwargs w r w' H. unfold py_call in H.
  destruct (bind_positional (fn_params f) args) as [[env rest]|e].
  - destruct (bind_keywords f env kwargs) as [env'|e].
    + destruct (bind_defaults env' rest) as [env''|e].
      * eapply call_logs; eassumption.
      * inversion H; subst. apply same_logs_refl.
    + inversion H; subst. apply same_logs_refl.
  - inversion H; subst. apply same_logs_refl.
Qed.

Lemma generate_response_logs :
  forall self text ctx w r w',
    generate_response self text ctx w = (r, w') -> same_logs w w'.
Proof.
  intros self text ctx w r w' H. unfold generate_response, bind in H.
  destruct (fetchContext self) as [fetch|].
  - unfold call at 1 in H. unfold ret in H.
    destruct (fetch (chroma_client self) text w) as [c|e].
    + apply py_call_logs in H.
      eapply same_logs_trans; [apply same_logs_tick | exact H].
    + inversion H; subst. apply same_logs_tick.
  - unfold ret in H. eapply py_call_logs; eassumption.
Qed.

Lemma has_responded_logs :
  forall self i w r w',
    has_responded_to_tweet self i w = (r, w') -> same_logs w w'.
Proof.
  intros self i w r w' H.
  unfold has_responded_to_tweet, try_except, has_responded_lookup,
    get_or_create_collection, bind, raise, ret in H.
  destruct (chroma_client self) as [c|]; cbn in H.
  - unfold Chroma.get_or_create_collection, Chroma.get in H.
    destruct (Chroma.get_or_create_collection_fault c _ w) as [e|].
    + destruct (file_or_json_error e); inversion H; subst;
        apply same_logs_tick.
    + destruct (Chroma.get_fault c i (tick w)) as [e|].
      * destruct (file_or_json_error e); inversion H; subst;
          repeat split.
      * cbn in H.
        destruct (0 <? _); inversion H; subst; repeat split.
  - inversion H; subst. apply same_logs_refl.
Qed.

Lemma has_responded_needs_store :
  forall self i w b w',
    has_responded_to_tweet self i w = (Ok b, w') ->
    exists c, chroma_client self = Some c.
Proof.
  intros self i w b w' H.
  destruct (chroma_client self) as [c|] eqn:E; [eauto|].
  rewrite has_responded_without_store in H by exact E. discriminate.
Qed.

(** With lookups that answer, the predicate reads the store. *)
Lemma has_responded_reads_store :
  forall self c i w,
    chroma_client self = Some c ->
    (forall n w, Chroma.get_or_create_collection_fault c n w = None) ->
    (forall i w, Chroma.get_fault c i w = None) ->
    has_responded_to_tweet self i w = (Ok (has_record w i), tick (tick w)).
Proof.
  intros self c i w Hc Hg Hf.
  unfold has_responded_to_tweet, try_except, has_responded_lookup,
    get_or_create_collection, bind, raise, ret.
  rewrite Hc. cbn.
  unfold Chroma.get_or_create_collection, Chroma.get.
  rewrite Hg, Hf. cbn. unfold has_record.
  induction (map row_id (tweet_responses w)) as [|x l IH]; cbn.
  - reflexivity.
  - destruct (json_eqb i x); cbn.
    + destruct (filter (json_eqb i) l); reflexivity.
    + exact IH.
Qed.

Lemma send_tweet_accepted :
  forall c text i w j w',
    Client.call_send_tweet c text i w = (Ok j, w') ->
    w' = add_sent (mkSent text i) (tick w).
Proof.
  intros c text i w j w' H. unfold Client.call_send_tweet in H.
  destruct (Client.send_tweet c) as [f|]; [|discriminate].
  destruct (f text i w); inversion H; reflexivity.
Qed.

Lemma send_tweet_refused :
  forall c text i w e w',
    Client.call_send_tweet c text i w = (Raise e, w') -> same_logs w w'.
Proof.
  intros c text i w e w' H. unfold Client.call_send_tweet in H.
  destruct (Client.send_tweet c) as [f|].
  - destruct (f text i w); inversion H; subst. apply same_logs_tick.
  - inversion H; subst. apply same_logs_refl.
Qed.

Lemma has_record_same_rows :
  forall w w1 i,
    tweet_responses w1 = tweet_responses w -> has_record w1 i = has_record w i.
Proof. intros w w1 i H. unfold has_record. now rewrite H. Qed.

Lemma log_response_spec :
  forall self i rid content txt w r w',
    log_response L self i rid content txt w = (r, w') ->
    sent w' = sent w /\ processing_log w' = processing_log w
    /\ ((exists e c w0,
            r = Raise e
            /\ chroma_client self = Some c
            /\ sent w0 = sent w
            /\ (Chroma.get_or_create_collection_fault c "tweet_responses" w0
                = Some e
                \/ Chroma.add_fault c i w0 = Some e)
            /\ tweet_responses w' = tweet_responses w)
        \/ (exists row, r = Ok tt /\ has_record w i = false
                        /\ row_id row = i
                        /\ tweet_responses w' = tweet_responses w ++ [row])
        \/ (r = Ok tt
            /\ (chroma_client self = None \/ has_record w i = true)
            /\ tweet_responses w' = tweet_responses w)).
Proof.
  intros self i rid content txt w r w' H. unfold log_response in H.
  destruct (chroma_client self) as [c|] eqn:Hc.
  - unfold get_or_create_collection, Chroma.get_or_create_collection,
      Chroma.add, bind, ret in H. cbn in H.
    destruct (Chroma.get_or_create_collection_fault c "tweet_responses" w)
      as [e|] eqn:Eg.
    + inversion H; subst. split; [reflexivity|]. split; [reflexivity|].
      left. exists e, c, w. repeat split; auto.
    + destruct (Chroma.add_fault c i (tick w)) as [e|] eqn:Ea.
      * inversion H; subst. split; [reflexivity|]. split; [reflexivity|].
        left. exists e, c, (tick w). repeat split; auto.
      * change (has_record (tick w) i) with (has_record w i) in H.
        destruct (has_record w i) eqn:Er; inversion H; subst;
          (split; [reflexivity|]); (split; [reflexivity|]).
        -- right. right. auto.
        -- right. left. eexists.
           split; [reflexivity|]. split; [reflexivity|].
           split; [|cbn; reflexivity]. reflexivity.
  - inversion H; subst. split; [reflexivity|]. split; [reflexivity|].
    right. right. auto.
Qed.

Ltac open_logs :=
  repeat match goal with
         | H : same_logs _ _ |- _ => destruct H as (? & ? & ?)
         end;
  cbn [tweet_responses sent processing_log tick add_sent add_row
       add_processing] in *.

Lemma optional_call_logs :
  forall A B (f : option A) (run : A -> oracle B) (k : B -> B) (d : B)
         w r w',
    match f with
    | Some g => x <- call (run g) ;; ret (k x)
    | None => ret d
    end w = (r, w') ->
    same_logs w w'.
Proof.
  intros A B f run k d w r w' H.
  destruct f as [g|]; unfold bind, call, ret in H.
  - destruct (run g w); inversion H; subst; apply same_logs_tick.
  - inversion H; subst. apply same_logs_refl.
Qed.

Lemma reply_pipeline_spec :
  forall self actx sctx t w res w',
    reply_pipeline L self actx sctx t w = (res, w') ->
    pipeline_outcome self t w res w'.
Proof.
  intros self actx sctx t w res w' H.
  unfold reply_pipeline in H.
  unfold bind at 1 2 in H. unfold call at 1 in H.
  destruct (getTweetResponsePrompt L (Tweet.text t) (Tweet.username t) sctx
              (add_processing t w)) as [prompt|e].
  2:{ inversion H; subst. split; [reflexivity|]. left. eauto. }
  unfold bind at 1 in H.
  match type of H with
  | context [match ?m ?w0 with _ => _ end] =>
      destruct (m w0) as [[ctx|e] w1] eqn:E1
  end.
  2:{ apply optional_call_logs with (k := fun x => (actx ++ x)%string)
        in E1.
      inversion H; subst. open_logs.
      split; [congruence|]. left. eexists. repeat split; congruence. }
  apply optional_call_logs with (k := fun x => (actx ++ x)%string) in E1.
  unfold bind at 1 in H.
  destruct (generate_response self prompt ctx w1) as [[txt|e] w2] eqn:E2;
    apply generate_response_logs in E2.
  2:{ inversion H; subst. open_logs.
      split; [congruence|]. left. eexists. repeat split; congruence. }
  unfold bind at 1 in H.
  destruct (Client.call_send_tweet (client self) txt (Tweet.id t) w2)
    as [[j|e] w3] eqn:E3.
  2:{ apply send_tweet_refused in E3. inversion H; subst. open_logs.
      split; [congruence|]. left. eexists. repeat split; congruence. }
  apply send_tweet_accepted in E3. subst w3.
  unfold bind at 1 in H.
  match type of H with
  | context [match ?m ?w0 with _ => _ end] =>
      destruct (m w0) as [[u|e] w4] eqn:E4
  end.
  2:{ assert (same_logs (add_sent (mkSent txt (Tweet.id t)) (tick w2)) w4).
      { destruct (updateUserContext self); unfold call, ret in E4;
          inversion E4; subst; repeat split. }
      assert (Hstep : step_after_post_raises self t e).
      { left. destruct (updateUserContext self) as [update|] eqn:Eu;
          unfold call, ret in E4; [|discriminate].
        exists update, (interaction_text L t txt), actx,
          (add_sent (mkSent txt (Tweet.id t)) (tick w2)).
        split; [reflexivity|].
        split; [|now inversion E4].
        exists (mkSent txt (Tweet.id t)). split; [|reflexivity].
        cbn. apply in_or_app. right. now left. }
      inversion H; subst. open_logs.
      split; [congruence|]. right. left. exists e, txt.
      split; [reflexivity|]. split; [exact Hstep|]. split; congruence. }
  assert (same_logs (add_sent (mkSent txt (Tweet.id t)) (tick w2)) w4).
  { destruct (updateUserContext self); unfold call, ret in E4;
      inversion E4; subst; repeat split. }
  assert (Hrec : has_record w4 (Tweet.id t) = has_record w (Tweet.id t)).
  { apply has_record_same_rows. open_logs. congruence. }
  apply log_response_spec in H. rewrite Hrec in H.
  destruct H as (Hs & Hp & [(e & c & w0 & -> & Hc & Hs0 & Hf & Hr)
                           |[(row & -> & Hfresh & Hid & Hr)
                            |(-> & Hc & Hr)]]);
    open_logs; (split; [congruence|]).
  - right. left. exists e, txt. split; [reflexivity|].
    split; [|split; congruence].
    right. exists c, w0. split; [exact Hc|]. split; [|exact Hf].
    exists (mkSent txt (Tweet.id t)). split; [|reflexivity].
    replace (sent w0) with (sent w2 ++ [mkSent txt (Tweet.id t)])
      by congruence.
    apply in_or_app. right. now left.
  - right. right. left. exists txt, row.
    split; [reflexivity|]. split; [exact Hfresh|]. split; [exact Hid|].
    split; congruence.
  - right. right. right. exists txt.
    split; [reflexivity|]. split; [exact Hc|]. split; congruence.
Qed.

(** A run on a candidate the configured store has no record for. *)
Lemma reply_pipeline_fresh :
  forall self actx sctx t w res w' c,
    chroma_client self = Some c ->
    has_record w (Tweet.id t) = false ->
    reply_pipeline L self actx sctx t w = (res, w') ->
    processing_log w' = processing_log w ++ [t]
    /\ ((exists e, res = Raise e
                  /\ tweet_responses w' = tweet_responses w
                  /\ sent w' = sent w)
        \/ (exists e txt, res = Raise e
                  /\ tweet_responses w' = tweet_responses w
                  /\ sent w' = sent w ++ [mkSent txt (Tweet.id t)])
        \/ (exists txt row, res = Ok tt
                  /\ row_id row = Tweet.id t
                  /\ tweet_responses w' = tweet_responses w ++ [row]
                  /\ sent w' = sent w ++ [mkSent txt (Tweet.id t)])).
Proof.
  intros self actx sctx t w res w' c Hc Hfresh H.
  apply reply_pipeline_spec in H. destruct H as [Hlog Hout].
  split; [exact Hlog|].
  destruct Hout as [(e & ? & ? & ?)
                   |[(e & txt & ? & _ & ? & ?)
                    |[(txt & row & ? & _ & ? & ? & ?)
                     |(txt & _ & [Hnone|Hknown] & _)]]]; try congruence.
  - left. eauto.
  - right. left. eauto.
  - right. right. eauto 6.
Qed.

(** ** The loop, whatever the collaborators do *)

Section Loop.
Context (self : TwitterInteractionHandler) (actx sctx : string) (m : Z).

Local Abbreviation loop := (check_mentions_loop L self actx sctx m).

(** One turn of the loop: the timestamp does not parse; a static filter
    drops the candidate; the dedup lookup raises or reports a record; or
    the candidate enters the pipeline, after which the loop raises, breaks
    or goes on. *)
Lemma loop_step :
  forall t rest n w res w',
    loop (t :: rest) n w = (res, w') ->
    (exists e, strptime L (Tweet.created_at t) = Raise e
               /\ res = Raise e /\ w' = w)
    \/ ((exists created, strptime L (Tweet.created_at t) = Ok created)
        /\ in_session_window L self t && by_other_author self t = false
        /\ loop rest n w = (res, w'))
    \/ (in_session_window L self t = true
        /\ by_other_author self t = true
        /\ ((exists e, has_responded_to_tweet self (Tweet.id t) w
                       = (Raise e, w')
                       /\ res = Raise e)
            \/ (exists w1, has_responded_to_tweet self (Tweet.id t) w
                           = (Ok true, w1)
                           /\ loop rest n w1 = (res, w'))
            \/ (exists w1 r2 w2,
                   has_responded_to_tweet self (Tweet.id t) w = (Ok false, w1)
                   /\ reply_pipeline L self actx sctx t w1 = (r2, w2)
                   /\ ((exists e, r2 = Raise e /\ res = Raise e /\ w' = w2)
                       \/ (r2 = Ok tt /\ m <= n + 1
                           /\ res = Ok tt /\ w' = w2)
                       \/ (r2 = Ok tt /\ n + 1 < m
                           /\ loop rest (n + 1) w2 = (res, w')))))).
Proof.
  intros t rest n w res w' H.
  cbn [check_mentions_loop] in H. unfold bind at 1, lift in H.
  unfold in_session_window, by_other_author.
  destruct (strptime L (Tweet.created_at t)) as [created|e].
  2:{ left. inversion H; subst. eauto. }
  right.
  destruct (created <? start_time self).
  { left. repeat split; eauto. }
  destruct (eq_optional_str (Tweet.username t) (Client.username (client self))).
  { left. repeat split; eauto. }
  right. split; [reflexivity|]. split; [reflexivity|].
  unfold bind at 1 in H.
  destruct (has_responded_to_tweet self (Tweet.id t) w)
    as [[[|]|e] w1] eqn:E.
  - right. left. eauto.
  - right. right. exists w1.
    unfold bind at 1 in H.
    destruct (reply_pipeline L self actx sctx t w1) as [[[]|e] w2] eqn:E2.
    + exists (Ok tt), w2. split; [reflexivity|]. split; [reflexivity|].
      destruct (n + 1 >=? m) eqn:Hge.
      * right. left. unfold ret in H. inversion H; subst.
        repeat split. apply Z.geb_le in Hge. lia.
      * right. right. repeat split; [|exact H].
        rewrite Z.geb_leb in Hge. apply Z.leb_gt in Hge. lia.
    + exists (Raise e), w2. split; [reflexivity|]. split; [reflexivity|].
      left. inversion H; subst. eauto.
  - left. inversion H; subst. eauto.
Qed.

Local Abbreviation shape := (cycle_shape L self actx sctx).

Lemma cycle_shape_nil : forall w res, shape w res [] [] [].
Proof.
  intros w res. exists []. split; [constructor|]. split; [reflexivity|].
  left. split; reflexivity.
Qed.

Lemma cycle_shape_same_rows :
  forall w w1 res P S R,
    tweet_responses w1 = tweet_responses w ->
    shape w1 res P S R -> shape w res P S R.
Proof.
  intros w w1 res P S R Hrows (done & Hdone & HR & H).
  exists done. rewrite <- Hrows. auto.
Qed.

Lemma cycle_shape_cons :
  forall w w1 w2 w3 res t s P S R,
    reply_pipeline L self actx sctx t w1 = (Ok tt, w2) ->
    reply_to s = Tweet.id t ->
    has_record w (Tweet.id t) = true ->
    tweet_responses w3 = tweet_responses w ->
    shape w3 res P S R ->
    shape w res (t :: P) (s :: S) R.
Proof.
  intros w w1 w2 w3 res t s P S R Hrun Hs Hknown Hrows
    (done & Hdone & HR & H).
  exists (t :: done). split; [constructor; eauto|].
  split.
  - cbn [map newly_recorded]. unfold has_record in Hknown.
    rewrite Hknown, <- Hrows. exact HR.
  - destruct H as [[-> HS]|(t' & e & w1' & w2' & -> & -> & Hrun' & HS)].
    + left. cbn. split; congruence.
    + right. exists t', e, w1', w2'.
      split; [reflexivity|]. split; [reflexivity|]. split; [exact Hrun'|].
      destruct HS as [[HS Hsame]|[HS Hstep]]; [left|right];
        (split; [cbn; congruence|assumption]).
Qed.

Lemma cycle_shape_cons_row :
  forall w w1 w2 w3 res t s row P S R,
    reply_pipeline L self actx sctx t w1 = (Ok tt, w2) ->
    reply_to s = Tweet.id t ->
    row_id row = Tweet.id t ->
    has_record w (Tweet.id t) = false ->
    tweet_responses w3 = tweet_responses w ++ [row] ->
    shape w3 res P S R ->
    shape w res (t :: P) (s :: S) (row :: R).
Proof.
  intros w w1 w2 w3 res t s row P S R Hrun Hs Hr Hfresh Hrows
    (done & Hdone & HR & H).
  exists (t :: done). split; [constructor; eauto|].
  split.
  - cbn [map newly_recorded]. unfold has_record in Hfresh.
    rewrite Hfresh. rewrite Hrows, map_app in HR. cbn in HR.
    rewrite Hr in HR. now rewrite Hr, HR.
  - destruct H as [[-> HS]|(t' & e & w1' & w2' & -> & -> & Hrun' & HS)].
    + left. cbn. split; congruence.
    + right. exists t', e, w1', w2'.
      split; [reflexivity|]. split; [reflexivity|]. split; [exact Hrun'|].
      destruct HS as [[HS Hsame]|[HS Hstep]]; [left|right];
        (split; [cbn; congruence|assumption]).
Qed.

Lemma cycle_shape_raised :
  forall w w1 w2 e t S,
    reply_pipeline L self actx sctx t w1 = (Raise e, w2) ->
    (S = [] /\ sent w2 = sent w1)
    \/ (map reply_to S = [Tweet.id t] /\ step_after_post_raises self t e) ->
    shape w (Raise e) [t] S [].
Proof.
  intros w w1 w2 e t S Hrun HS.
  exists []. split; [constructor|]. split; [reflexivity|].
  right. exists t, e, w1, w2.
  split; [reflexivity|]. split; [reflexivity|]. split; [exact Hrun|].
  destruct HS as [[-> Hsame]|[HS Hstep]]; [left|right]; auto.
Qed.

Lemma loop_trace :
  forall tweets n w res w',
    loop tweets n w = (res, w') ->
    exists P S R,
      processing_log w' = processing_log w ++ P
      /\ sent w' = sent w ++ S
      /\ tweet_responses w' = tweet_responses w ++ R
      /\ incl P tweets
      /\ Forall (fun t => in_session_window L self t = true
                          /\ by_other_author self t = true) P
      /\ shape w res P S R.
Proof.
  induction tweets as [|t rest IH]; intros n w res w' H.
  - cbn in H. inversion H; subst.
    exists [], [], []. rewrite !app_nil_r.
    repeat split; auto using incl_nil_l, cycle_shape_nil.
  - apply loop_step in H.
    destruct H as [(e & _ & -> & ->)
                  |[(_ & _ & H)
                   |(Hw & Ha & [(e & Hd & ->)
                               |[(w1 & Hd & H)
                                |(w1 & r2 & w2 & Hd & Hp & H)]])]].
    + exists [], [], []. rewrite !app_nil_r.
      repeat split; auto using incl_nil_l, cycle_shape_nil.
    + apply IH in H. destruct H as (P & S & R & ? & ? & ? & ? & ? & ?).
      exists P, S, R. repeat split; auto using incl_tl.
    + apply has_responded_logs in Hd. open_logs.
      exists [], [], []. rewrite !app_nil_r.
      repeat split; auto using incl_nil_l, cycle_shape_nil.
    + apply has_responded_logs in Hd. open_logs.
      apply IH in H. destruct H as (P & S & R & ? & ? & ? & ? & ? & Hsh).
      exists P, S, R. repeat split; auto using incl_tl; try congruence.
      eapply cycle_shape_same_rows; [|exact Hsh]. assumption.
    + pose proof (has_responded_needs_store _ _ _ _ _ Hd) as [c Hc].
      apply has_responded_logs in Hd. destruct Hd as (Hd1 & Hd2 & Hd3).
      pose proof (reply_pipeline_spec _ _ _ _ _ _ _ Hp) as [Hlog Hout].
      rewrite (has_record_same_rows _ _ _ Hd1) in Hout.
      assert (Hin : incl [t] (t :: rest))
        by (intros x [<-|[]]; left; reflexivity).
      assert (Hfa : Forall (fun t => in_session_window L self t = true
                                     /\ by_other_author self t = true) [t])
        by (constructor; auto).
      destruct H as [(e & -> & -> & ->)
                    |[(-> & Hm & -> & ->)|(-> & Hm & H)]].
      * destruct Hout as [(e' & _ & Hr & Hs)
                         |[(e' & txt & He & Hstep & Hr & Hs)
                          |[(txt & row & ? & _)|(txt & ? & _)]]];
          try discriminate.
        -- exists [t], [], []. rewrite !app_nil_r.
           repeat split; auto; try congruence.
           eapply cycle_shape_raised; [exact Hp|]. left. auto.
        -- assert (e' = e) by congruence. subst e'.
           exists [t], [mkSent txt (Tweet.id t)], []. rewrite !app_nil_r.
           repeat split; auto; try congruence.
           eapply cycle_shape_raised; [exact Hp|]. right.
           split; [reflexivity|exact Hstep].
      * destruct Hout as [(e' & ? & _)
                         |[(e' & txt & ? & _)
                          |[(txt & row & _ & Hfresh & Hid & Hr & Hs)
                           |(txt & _ & [Hnone|Hknown] & Hr & Hs)]]];
          try discriminate; try congruence.
        -- exists [t], [mkSent txt (Tweet.id t)], [row].
           repeat split; auto; try congruence.
           eapply cycle_shape_cons_row;
             [exact Hp|reflexivity|exact Hid|exact Hfresh| |apply cycle_shape_nil].
           instantiate (1 := w2). congruence.
        -- exists [t], [mkSent txt (Tweet.id t)], []. rewrite !app_nil_r.
           repeat split; auto; try congruence.
           eapply cycle_shape_cons;
             [exact Hp|reflexivity|exact Hknown| |apply cycle_shape_nil].
           instantiate (1 := w2). congruence.
      * destruct Hout as [(e' & ? & _)
                         |[(e' & txt & ? & _)
                          |[(txt & row & _ & Hfresh & Hid & Hr & Hs)
                           |(txt & _ & [Hnone|Hknown] & Hr & Hs)]]];
          try discriminate; try congruence.
        -- apply IH in H.
           destruct H as (P & S & R & HP & HS & HR & ? & ? & Hsh).
           exists (t :: P), (mkSent txt (Tweet.id t) :: S), (row :: R).
           repeat split.
           ++ change (t :: P) with ([t] ++ P). rewrite app_assoc. congruence.
           ++ change (mkSent txt (Tweet.id t) :: S)
                with ([mkSent txt (Tweet.id t)] ++ S).
              rewrite app_assoc. congruence.
           ++ change (row :: R) with ([row] ++ R). rewrite app_assoc.
              congruence.
           ++ intros x [<-|Hx]; [left; reflexivity | right; auto].
           ++ constructor; auto.
           ++ eapply cycle_shape_cons_row;
                [exact Hp|reflexivity|exact Hid|exact Hfresh| |exact Hsh].
              congruence.
        -- apply IH in H.
           destruct H as (P & S & R & HP & HS & HR & ? & ? & Hsh).
           exists (t :: P), (mkSent txt (Tweet.id t) :: S), R.
           repeat split.
           ++ change (t :: P) with ([t] ++ P). rewrite app_assoc. congruence.
           ++ change (mkSent txt (Tweet.id t) :: S)
                with ([mkSent txt (Tweet.id t)] ++ S).
              rewrite app_assoc. congruence.
           ++ congruence.
           ++ intros x [<-|Hx]; [left; reflexivity | right; auto].
           ++ constructor; auto.
           ++ eapply cycle_shape_cons;
                [exact Hp|reflexivity|exact Hknown| |exact Hsh].
              congruence.
Qed.

(** ** The loop when the store's lookups answer *)

Lemma passes_same_rows :
  forall w w1 t,
    tweet_responses w1 = tweet_responses w ->
    passes_loop_filters L self w1 t = passes_loop_filters L self w t.
Proof.
  intros w w1 t H. unfold passes_loop_filters, has_record. now rewrite H.
Qed.

Lemma filter_passes_same_rows :
  forall w w1 l,
    tweet_responses w1 = tweet_responses w ->
    filter (passes_loop_filters L self w1) l
    = filter (passes_loop_filters L self w) l.
Proof.
  intros w w1 l H. apply filter_ext. intros t. now apply passes_same_rows.
Qed.

Lemma filter_passes_add_row :
  forall w w2 row l,
    tweet_responses w2 = tweet_responses w ++ [row] ->
    ~ In (row_id row) (map Tweet.id l) ->
    filter (passes_loop_filters L self w2) l
    = filter (passes_loop_filters L self w) l.
Proof.
  intros w w2 row l H Hnew. apply filter_ext_in. intros t Ht.
  unfold passes_loop_filters. f_equal. f_equal.
  unfold has_record at 1. rewrite H. apply has_record_add_other.
  intros Heq. apply Hnew. rewrite Heq. now apply in_map.
Qed.

Lemma passes_dropped :
  forall w t,
    in_session_window L self t && by_other_author self t = false ->
    passes_loop_filters L self w t = false.
Proof.
  intros w t H. unfold passes_loop_filters. now rewrite H.
Qed.

Lemma loop_prefix :
  forall tweets n w res w',
    lookups_answer self ->
    NoDup (map Tweet.id tweets) ->
    loop tweets n w = (res, w') ->
    exists P rest,
      processing_log w' = processing_log w ++ P
      /\ filter (passes_loop_filters L self w) tweets = P ++ rest.
Proof.
  induction tweets as [|t rest IH]; intros n w res w' Hl Hnd H.
  - cbn in H. inversion H; subst. exists [], []. now rewrite app_nil_r.
  - inversion Hnd as [|? ? Hnew Hnd']; subst.
    apply loop_step in H. cbn [filter].
    destruct H as [(e & _ & -> & ->)
                  |[(_ & Hdrop & H)
                   |(Hw & Ha & [(e & Hd & ->)
                               |[(w1 & Hd & H)
                                |(w1 & r2 & w2 & Hd & Hp & H)]])]].
    + exists []. eexists. rewrite app_nil_r. split; reflexivity.
    + rewrite (passes_dropped _ _ Hdrop). eauto.
    + apply has_responded_logs in Hd. open_logs.
      exists []. eexists. rewrite app_nil_r. split; [congruence|reflexivity].
    + destruct (has_responded_needs_store _ _ _ _ _ Hd) as [c Hc].
      destruct (Hl c Hc) as [Hg Hf].
      rewrite (has_responded_reads_store _ _ _ _ Hc Hg Hf) in Hd.
      inversion Hd as [[Hrec Hw1]].
      unfold passes_loop_filters at 1. rewrite Hrec, andb_false_r.
      destruct (IH _ _ _ _ Hl Hnd' H) as (P & rest' & HP & HF).
      rewrite <- Hw1 in HP, HF.
      exists P, rest'. split; [exact HP|].
      rewrite <- HF. symmetry. now apply filter_passes_same_rows.
    + destruct (has_responded_needs_store _ _ _ _ _ Hd) as [c Hc].
      destruct (Hl c Hc) as [Hg Hf].
      rewrite (has_responded_reads_store _ _ _ _ Hc Hg Hf) in Hd.
      inversion Hd as [[Hrec Hw1]].
      unfold passes_loop_filters at 1. rewrite Hw, Ha, Hrec. cbn [andb negb].
      apply (reply_pipeline_fresh _ _ _ _ _ _ _ c Hc) in Hp;
        [|rewrite <- Hw1; exact Hrec].
      destruct Hp as [Hlog Hout].
      rewrite <- Hw1 in Hlog, Hout.
      cbn [tweet_responses sent processing_log tick] in Hlog, Hout.
      destruct H as [(e & -> & -> & ->)
                    |[(-> & Hm & -> & ->)|(-> & Hm & H)]].
      * exists [t]. eexists. split; [exact Hlog|reflexivity].
      * exists [t]. eexists. split; [exact Hlog|reflexivity].
      * destruct Hout as [(e' & ? & _)
                         |[(e' & txt & ? & _)
                          |(txt & row & _ & Hid & Hr & Hs)]];
          try discriminate; try congruence.
        destruct (IH _ _ _ _ Hl Hnd' H) as (P & rest' & HP & HF).
        exists (t :: P), rest'. split.
        -- change (t :: P) with ([t] ++ P). rewrite app_assoc. congruence.
        -- cbn. f_equal. rewrite <- HF. symmetry.
           apply filter_passes_add_row with (row := row); [exact Hr|].
           now rewrite Hid.
Qed.

(** ** The loop when every step answers *)

Lemma generate_response_reliable :
  forall text ctx w,
    Reliable L self ->
    exists r w', generate_response self text ctx w = (Ok r, w').
Proof.
  intros text ctx w HR. unfold generate_response, bind.
  destruct (fetchContext self) as [fetch|] eqn:Hf.
  - unfold call at 1, ret.
    destruct (fetch_context_ok L self HR fetch Hf (chroma_client self) text w)
      as [s ->].
    match goal with
    | |- context [py_call ?g ?a ?k ?w0] =>
        destruct (generator_ok L self HR text
                    (ctx ++ fetched_context_block s)%string w0) as [r Hr];
        destruct (py_call g a k w0) as [r' w'] eqn:E
    end.
    cbn in Hr. subst r'. eauto.
  - unfold ret.
    destruct (generator_ok L self HR text ctx w) as [r Hr].
    destruct (py_call _ _ _ w) as [r' w'] eqn:E.
    cbn in Hr. subst r'. eauto.
Qed.

Lemma reply_pipeline_reliable :
  forall t w,
    Reliable L self ->
    exists w', reply_pipeline L self actx sctx t w = (Ok tt, w').
Proof.
  intros t w HR. unfold reply_pipeline.
  unfold bind at 1 2. unfold call at 1.
  destruct (prompt_ok L self HR (Tweet.text t) (Tweet.username t) sctx
              (add_processing t w)) as [p ->].
  unfold bind at 1.
  match goal with
  | |- context [match ?m ?w0 with _ => _ end] =>
      assert (Hctx : exists c w1, m w0 = (Ok c, w1))
  end.
  { destruct (getUserContext self) as [get|] eqn:Hg.
    - unfold bind, call, ret.
      destruct (user_context_ok L self HR get Hg (chroma_client self)
                  (Tweet.username t) (tick (add_processing t w))) as [s ->].
      eauto.
    - unfold ret. eauto. }
  destruct Hctx as (c & w1 & ->).
  unfold bind at 1.
  destruct (generate_response_reliable p c w1 HR) as (txt & w2 & ->).
  unfold bind at 1.
  destruct (send_ok L self HR) as (send & Hsend & Hj).
  unfold Client.call_send_tweet at 1. rewrite Hsend.
  destruct (Hj txt (Tweet.id t) w2) as [j ->].
  unfold bind at 1.
  match goal with
  | |- context [match ?m ?w0 with _ => _ end] =>
      assert (Hup : exists w3, m w0 = (Ok tt, w3))
  end.
  { destruct (updateUserContext self) as [update|] eqn:Hu.
    - unfold call.
      rewrite (update_context_ok L self HR update Hu). eauto.
    - unfold ret. eauto. }
  destruct Hup as (w3 & ->).
  destruct (store_ok L self HR) as (c0 & Hc & Hg & _ & Ha).
  unfold log_response. rewrite Hc.
  unfold get_or_create_collection, Chroma.get_or_create_collection,
    Chroma.add, bind, ret.
  rewrite Hg, Ha. eauto.
Qed.

Lemma reliable_lookups : Reliable L self -> lookups_answer self.
Proof.
  intros HR c Hc. destruct (store_ok L self HR) as (c0 & Hc0 & Hg & Hf & _).
  assert (c = c0) by congruence. subst. auto.
Qed.

Lemma loop_reliable :
  forall tweets n w,
    Reliable L self ->
    NoDup (map Tweet.id tweets) ->
    (forall t, In t tweets ->
               exists created, strptime L (Tweet.created_at t) = Ok created) ->
    exists w',
      loop tweets n w = (Ok tt, w')
      /\ processing_log w'
         = processing_log w
           ++ firstn (Z.to_nat (Z.max 1 (m - n)))
                (filter (passes_loop_filters L self w) tweets).
Proof.
  induction tweets as [|t rest IH]; intros n w HR Hnd Hparse.
  - exists w. cbn. rewrite firstn_nil, app_nil_r. auto.
  - inversion Hnd as [|? ? Hnew Hnd']; subst.
    assert (Hparse' : forall t', In t' rest ->
              exists created, strptime L (Tweet.created_at t') = Ok created)
      by (intros; apply Hparse; now right).
    destruct (store_ok L self HR) as (c & Hc & Hg & Hf & _).
    destruct (loop (t :: rest) n w) as [res w'] eqn:H.
    apply loop_step in H. cbn [filter].
    destruct H as [(e & He & _)
                  |[(_ & Hdrop & H)
                   |(Hw & Ha & [(e & Hd & ->)
                               |[(w1 & Hd & H)
                                |(w1 & r2 & w2 & Hd & Hp & H)]])]].
    + destruct (Hparse t (or_introl eq_refl)) as [created Hcr]. congruence.
    + rewrite (passes_dropped _ _ Hdrop).
      destruct (IH n w HR Hnd' Hparse') as (w'' & Hrun & Hlog).
      rewrite Hrun in H. inversion H; subst. eauto.
    + rewrite (has_responded_reads_store _ _ _ _ Hc Hg Hf) in Hd.
      discriminate.
    + rewrite (has_responded_reads_store _ _ _ _ Hc Hg Hf) in Hd.
      inversion Hd as [[Hrec Hw1]].
      unfold passes_loop_filters at 1. rewrite Hrec, andb_false_r.
      destruct (IH n w1 HR Hnd' Hparse') as (w'' & Hrun & Hlog).
      rewrite Hrun in H. inversion H; subst. eexists. split; [reflexivity|].
      rewrite Hlog. reflexivity.
    + rewrite (has_responded_reads_store _ _ _ _ Hc Hg Hf) in Hd.
      inversion Hd as [[Hrec Hw1]].
      unfold passes_loop_filters at 1. rewrite Hw, Ha, Hrec. cbn [andb negb].
      destruct (reply_pipeline_reliable t w1 HR) as [w2' Hok].
      rewrite Hok in Hp. inversion Hp; subst r2 w2'. clear Hp.
      apply (reply_pipeline_fresh _ _ _ _ _ _ _ c Hc) in Hok;
        [|rewrite <- Hw1; exact Hrec].
      destruct Hok as [Hlog Hout].
      rewrite <- Hw1 in Hlog, Hout.
      cbn [tweet_responses sent processing_log tick] in Hlog, Hout.
      destruct H as [(e & ? & _)|[(_ & Hm & -> & ->)|(_ & Hm & H)]];
        [discriminate| |].
      * eexists. split; [reflexivity|].
        replace (Z.max 1 (m - n)) with 1 by lia. exact Hlog.
      * destruct Hout as [(e' & ? & _)
                         |[(e' & txt & ? & _)
                          |(txt & row & _ & Hid & Hr & Hs)]];
          try discriminate; try congruence.
        destruct (IH (n + 1) w2 HR Hnd' Hparse') as (w'' & Hrun & Hlog').
        rewrite Hrun in H. inversion H; subst. eexists.
        split; [reflexivity|].
        replace (Z.max 1 (m - n)) with (Z.succ (Z.max 1 (m - (n + 1))))
          by lia.
        rewrite Z2Nat.inj_succ by lia. cbn [firstn].
        rewrite Hlog', Hlog, <- app_assoc. cbn [app]. f_equal. f_equal. f_equal.
        apply filter_passes_add_row with (row := row); [exact Hr|].
        now rewrite Hid.
Qed.

(** ** The loop without a store *)

Lemma loop_without_store :
  forall tweets n w res w',
    chroma_client self = None ->
    loop tweets n w = (res, w') ->
    same_logs w w'
    /\ ((exists t, In t tweets /\ in_session_window L self t = true
                   /\ by_other_author self t = true) ->
        exists e, res = Raise e
                  /\ (e = AttributeError
                      \/ exists t', In t' tweets
                           /\ strptime L (Tweet.created_at t') = Raise e)).
Proof.
  induction tweets as [|t rest IH]; intros n w res w' Hnone H.
  - cbn in H. inversion H; subst. split; [apply same_logs_refl|].
    intros (t & [] & _).
  - apply loop_step in H.
    destruct H as [(e & He & -> & ->)
                  |[(_ & Hdrop & H)
                   |(Hw & Ha & [(e & Hd & ->)
                               |[(w1 & Hd & H)
                                |(w1 & r2 & w2 & Hd & Hp & H)]])]].
    + split; [apply same_logs_refl|]. intros _. exists e. split; [reflexivity|].
      right. exists t. split; [now left|exact He].
    + destruct (IH _ _ _ _ Hnone H) as [Hlogs Hraise].
      split; [exact Hlogs|]. intros (t' & [<-|Hin] & Hw & Ha).
      * rewrite Hw, Ha in Hdrop. discriminate.
      * destruct Hraise as (e & -> & [->|(t'' & Hin' & He)]); eauto.
        exists e. split; [reflexivity|]. right. exists t''.
        split; [now right|exact He].
    + rewrite (has_responded_without_store _ _ _ Hnone) in Hd.
      inversion Hd; subst. split; [apply same_logs_refl|].
      intros _. eauto.
    + rewrite (has_responded_without_store _ _ _ Hnone) in Hd. discriminate.
    + rewrite (has_responded_without_store _ _ _ Hnone) in Hd. discriminate.
Qed.
End Loop.

(** ** The list the loop runs over *)

Section Survivors.
Context (self : TwitterInteractionHandler).

Local Abbreviation cursor := (cursor_or_0 (last_checked_tweet_id self)).

Lemma newer_than_spec :
  forall found kept,
    newer_than L cursor found = Ok kept ->
    kept = filter (after_cursor L self) found
    /\ forall t, In t found -> exists n, py_int L (Tweet.id t) = Ok n.
Proof.
  induction found as [|t rest IH]; intros kept H; cbn in H.
  - inversion H; subst. split; [reflexivity|]. intros t [].
  - unfold after_cursor at 1. cbn [filter].
    destruct (py_int L (Tweet.id t)) as [n|e] eqn:En; [|discriminate].
    destruct (newer_than L cursor rest) as [kept'|e]; [|discriminate].
    destruct (IH kept' eq_refl) as [-> Hall].
    inversion H; subst.
    split; [destruct (n >? cursor); reflexivity|].
    intros t' [<-|Hin]; eauto.
Qed.

Lemma newer_than_raises :
  forall found e,
    newer_than L cursor found = Raise e ->
    exists t, In t found /\ py_int L (Tweet.id t) = Raise e.
Proof.
  induction found as [|t rest IH]; intros e H; cbn in H; [discriminate|].
  destruct (py_int L (Tweet.id t)) as [n|e'] eqn:En.
  - destruct (newer_than L cursor rest) as [kept'|e'']; [discriminate|].
    inversion H; subst. destruct (IH e eq_refl) as (t' & Hin & He).
    exists t'. split; [now right|exact He].
  - inversion H; subst. exists t. split; [now left|exact En].
Qed.

Lemma newer_than_answers :
  forall found,
    (forall t, In t found -> exists n, py_int L (Tweet.id t) = Ok n) ->
    exists kept, newer_than L cursor found = Ok kept.
Proof.
  induction found as [|t rest IH]; intros Hall; cbn; [eauto|].
  destruct (Hall t (or_introl eq_refl)) as [n ->].
  destruct IH as [kept ->]; [intros; apply Hall; now right|]. eauto.
Qed.

Lemma sort_keys_spec :
  forall l keyed,
    sort_keys L l = Ok keyed ->
    map snd keyed = l
    /\ Forall (fun p => py_int L (Tweet.id (snd p)) = Ok (fst p)) keyed.
Proof.
  induction l as [|t rest IH]; intros keyed H; cbn in H.
  - inversion H; subst. split; [reflexivity|constructor].
  - destruct (py_int L (Tweet.id t)) as [n|e] eqn:En; [|discriminate].
    destruct (sort_keys L rest) as [keyed'|e]; [|discriminate].
    destruct (IH keyed' eq_refl) as [Hm Hk].
    inversion H; subst. cbn. split; [reflexivity|]. constructor; auto.
Qed.

Lemma sort_keys_raises :
  forall l e,
    sort_keys L l = Raise e ->
    exists t, In t l /\ py_int L (Tweet.id t) = Raise e.
Proof.
  induction l as [|t rest IH]; intros e H; cbn in H; [discriminate|].
  destruct (py_int L (Tweet.id t)) as [n|e'] eqn:En.
  - destruct (sort_keys L rest) as [keyed'|e'']; [discriminate|].
    inversion H; subst. destruct (IH e eq_refl) as (t' & Hin & He).
    exists t'. split; [now right|exact He].
  - inversion H; subst. exists t. split; [now left|exact En].
Qed.

Lemma insert_keyed_perm :
  forall x l, Permutation (insert_keyed x l) (x :: l).
Proof.
  intros x l. induction l as [|y r IH]; cbn.
  - reflexivity.
  - destruct (fst x <=? fst y).
    + reflexivity.
    + rewrite IH. apply perm_swap.
Qed.

Lemma sort_keyed_perm : forall l, Permutation (sort_keyed l) l.
Proof.
  induction l as [|x r IH]; cbn.
  - reflexivity.
  - rewrite insert_keyed_perm. now constructor.
Qed.

Lemma insert_keyed_sorted :
  forall x l,
    StronglySorted (fun a b : Z * Tweet.t => fst a <= fst b) l ->
    StronglySorted (fun a b : Z * Tweet.t => fst a <= fst b)
      (insert_keyed x l).
Proof.
  intros x l Hs. induction Hs as [|y r Hs IH Hy]; cbn.
  - constructor; constructor.
  - destruct (fst x <=? fst y) eqn:E.
    + apply Z.leb_le in E. constructor.
      * constructor; assumption.
      * constructor; [exact E|].
        eapply Forall_impl; [|exact Hy]. cbn. intros. lia.
    + apply Z.leb_gt in E. constructor; [exact IH|].
      eapply Permutation_Forall.
      * symmetry. apply insert_keyed_perm.
      * constructor; [lia|exact Hy].
Qed.

Lemma sort_keyed_sorted :
  forall l,
    StronglySorted (fun a b : Z * Tweet.t => fst a <= fst b) (sort_keyed l).
Proof.
  induction l as [|x r IH]; cbn.
  - constructor.
  - now apply insert_keyed_sorted.
Qed.

Lemma keyed_sorted_by_id :
  forall keyed,
    Forall (fun p => py_int L (Tweet.id (snd p)) = Ok (fst p)) keyed ->
    StronglySorted (fun a b : Z * Tweet.t => fst a <= fst b) keyed ->
    StronglySorted (id_le L) (map snd keyed).
Proof.
  intros keyed Hk Hs. induction Hs as [|y r Hs IH Hy]; cbn.
  - constructor.
  - inversion Hk as [|? ? Hy' Hk']; subst. constructor; [now apply IH|].
    apply Forall_map. rewrite Forall_forall in *.
    intros p Hp. unfold id_le. rewrite Hy', (Hk' p Hp). now apply Hy.
Qed.

(** [sorted] answers with a rearrangement of its argument in ascending
    order of identifier. *)
Lemma sorted_by_id_spec :
  forall l tweets,
    sorted_by_id L l = Ok tweets ->
    Permutation tweets l /\ StronglySorted (id_le L) tweets.
Proof.
  intros l tweets H. unfold sorted_by_id in H.
  destruct (sort_keys L l) as [keyed|e] eqn:Ek; [|discriminate].
  inversion H; subst. destruct (sort_keys_spec _ _ Ek) as [Hm Hk]. split.
  - rewrite <- Hm. apply Permutation_map. apply sort_keyed_perm.
  - apply keyed_sorted_by_id; [|apply sort_keyed_sorted].
    eapply Permutation_Forall; [|exact Hk].
    symmetry. apply sort_keyed_perm.
Qed.

Lemma sorted_by_id_raises :
  forall l e,
    sorted_by_id L l = Raise e ->
    exists t, In t l /\ py_int L (Tweet.id t) = Raise e.
Proof.
  intros l e H. unfold sorted_by_id in H.
  destruct (sort_keys L l) as [keyed|e'] eqn:Ek; [discriminate|].
  inversion H; subst. now apply sort_keys_raises.
Qed.

Lemma sorted_by_id_answers :
  forall l,
    (forall t, In t l -> exists n, py_int L (Tweet.id t) = Ok n) ->
    exists tweets, sorted_by_id L l = Ok tweets.
Proof.
  intros l Hall. unfold sorted_by_id.
  destruct (sort_keys L l) as [keyed|e] eqn:Ek; [eauto|].
  destruct (sort_keys_raises _ _ Ek) as (t & Hin & He).
  destruct (Hall t Hin) as [n Hn]. congruence.
Qed.

Lemma survivors_perm :
  forall found,
    survivors L self found = []
    \/ Permutation (survivors L self found)
         (filter (after_cursor L self) found).
Proof.
  intros found. unfold survivors.
  destruct (newer_than L cursor found) as [kept|e] eqn:En; [|now left].
  destruct (sorted_by_id L kept) as [tweets|e] eqn:Es; [|now left].
  right. destruct (newer_than_spec _ _ En) as [-> _].
  now apply sorted_by_id_spec.
Qed.

Lemma survivors_in :
  forall found t,
    In t (survivors L self found) ->
    In t found /\ after_cursor L self t = true.
Proof.
  intros found t Hin.
  destruct (survivors_perm found) as [Hnil|Hp].
  - rewrite Hnil in Hin. destruct Hin.
  - apply (Permutation_in _ Hp) in Hin. now apply filter_In in Hin.
Qed.

Lemma survivors_complete :
  forall found t,
    (forall t, In t found -> exists n, py_int L (Tweet.id t) = Ok n) ->
    In t found ->
    after_cursor L self t = true ->
    In t (survivors L self found).
Proof.
  intros found t Hall Hin Hafter. unfold survivors.
  destruct (newer_than_answers found Hall) as [kept Hk]. rewrite Hk.
  destruct (newer_than_spec _ _ Hk) as [-> _].
  destruct (sorted_by_id_answers (filter (after_cursor L self) found))
    as [tweets Hs].
  { intros t' Ht'. apply filter_In in Ht'. now apply Hall. }
  rewrite Hs. destruct (sorted_by_id_spec _ _ Hs) as [Hp _].
  apply Permutation_sym in Hp. apply (Permutation_in _ Hp).
  apply filter_In. auto.
Qed.

Lemma survivors_sorted :
  forall found, StronglySorted (id_le L) (survivors L self found).
Proof.
  intros found. unfold survivors.
  destruct (newer_than L cursor found) as [kept|e]; [|constructor].
  destruct (sorted_by_id L kept) as [tweets|e] eqn:Es; [|constructor].
  now apply sorted_by_id_spec in Es.
Qed.

Lemma NoDup_map_filter :
  forall A B (f : A -> B) (p : A -> bool) l,
    NoDup (map f l) -> NoDup (map f (filter p l)).
Proof.
  intros A B f p l. induction l as [|x r IH]; cbn; intros H.
  - constructor.
  - inversion H as [|? ? Hnew Hr]; subst.
    destruct (p x); cbn; [constructor|]; auto.
    intros Hin. apply Hnew. apply in_map_iff in Hin.
    destruct Hin as (y & <- & Hy). apply in_map.
    now apply filter_In in Hy.
Qed.

Lemma survivors_NoDup :
  forall found,
    NoDup (map Tweet.id found) ->
    NoDup (map Tweet.id (survivors L self found)).
Proof.
  intros found Hnd.
  destruct (survivors_perm found) as [->|Hp]; [constructor|].
  eapply Permutation_NoDup.
  - apply Permutation_map. symmetry. exact Hp.
  - now apply NoDup_map_filter.
Qed.

Lemma StronglySorted_filter :
  forall A (R : A -> A -> Prop) (p : A -> bool) l,
    StronglySorted R l -> StronglySorted R (filter p l).
Proof.
  intros A R p l Hs. induction Hs as [|x r Hs IH Hx]; cbn.
  - constructor.
  - destruct (p x); [constructor|]; auto.
    rewrite Forall_forall in *. intros y Hy.
    apply filter_In in Hy. now apply Hx.
Qed.
End Survivors.

(** ** One cycle of [check_mentions] *)

Section Cycle.
Context (self : TwitterInteractionHandler) (searchTerm actx sctx : string)
        (m : Z).

Local Abbreviation body :=
  (check_mentions_body L self searchTerm actx sctx m).
Local Abbreviation cycle := (check_mentions L self searchTerm actx sctx m).

Lemma check_mentions_runs_body :
  forall w, snd (cycle w) = snd (body w).
Proof. intros w. apply boundary_keeps_world. Qed.

Lemma body_unfold :
  forall w search found,
    Client.search_tweets (client self) = Some search ->
    search searchTerm 20 w = Ok found ->
    body w
    = match found with
      | [] => (Ok tt, tick w)
      | _ :: _ =>
          match newer_than L (cursor_or_0 (last_checked_tweet_id self)) found
          with
          | Raise e => (Raise e, tick w)
          | Ok kept =>
              match sorted_by_id L kept with
              | Raise e => (Raise e, tick w)
              | Ok tweets =>
                  check_mentions_loop L self actx sctx m tweets 0 (tick w)
              end
          end
      end.
Proof.
  intros w search found Hs Hf.
  unfold check_mentions_body, Client.call_search_tweets, call_method.
  rewrite Hs. cbn [option_map]. unfold bind at 1, call at 1. rewrite Hf.
  destruct found as [|t0 rest0]; [reflexivity|].
  unfold bind at 1, lift at 1.
  destruct (newer_than L _ (t0 :: rest0)) as [kept|e]; [|reflexivity].
  unfold bind at 1, lift at 1.
  destruct (sorted_by_id L kept); reflexivity.
Qed.

(** After a search that answered, the body is the loop over the survivors,
    unless an [int] raised before the loop. *)
Lemma body_runs_loop :
  forall w search found,
    Client.search_tweets (client self) = Some search ->
    search searchTerm 20 w = Ok found ->
    body w = check_mentions_loop L self actx sctx m
               (survivors L self found) 0 (tick w)
    \/ (survivors L self found = []
        /\ exists e, body w = (Raise e, tick w)
                     /\ exists t, In t found
                                  /\ py_int L (Tweet.id t) = Raise e).
Proof.
  intros w search found Hs Hf.
  rewrite (body_unfold w search found Hs Hf). unfold survivors.
  destruct found as [|t0 rest0] eqn:Efound; [left; reflexivity|].
  rewrite <- Efound in *.
  destruct (newer_than L (cursor_or_0 (last_checked_tweet_id self)) found)
    as [kept|e] eqn:En.
  - destruct (sorted_by_id L kept) as [tweets|e] eqn:Es.
    + left. reflexivity.
    + right. split; [reflexivity|]. exists e. split; [reflexivity|].
      destruct (sorted_by_id_raises _ _ Es) as (t & Hin & He).
      exists t. split; [|exact He].
      destruct (newer_than_spec self _ _ En) as [-> _].
      now apply filter_In in Hin.
  - right. split; [reflexivity|]. exists e. split; [reflexivity|].
    now apply (newer_than_raises self).
Qed.

Lemma body_without_search :
  forall w,
    (forall search found,
        Client.search_tweets (client self) = Some search ->
        search searchTerm 20 w = Ok found -> False) ->
    exists e w', body w = (Raise e, w') /\ same_logs w w'.
Proof.
  intros w Hno.
  unfold check_mentions_body, Client.call_search_tweets, call_method.
  destruct (Client.search_tweets (client self)) as [search|] eqn:Hs;
    cbn [option_map].
  - unfold bind at 1, call at 1.
    destruct (search searchTerm 20 w) as [found|e] eqn:Hf.
    + exfalso. eapply Hno; eauto.
    + exists e, (tick w). split; [reflexivity|apply same_logs_tick].
  - exists AttributeError, w. split; [reflexivity|apply same_logs_refl].
Qed.

(** What a cycle adds to the logs, whatever the collaborators do. *)
Lemma body_trace :
  forall w,
    exists P S R,
      processing_log (snd (body w)) = processing_log w ++ P
      /\ sent (snd (body w)) = sent w ++ S
      /\ tweet_responses (snd (body w)) = tweet_responses w ++ R
      /\ cycle_shape L self actx sctx w (fst (body w)) P S R
      /\ forall t, In t P ->
           in_session_window L self t = true
           /\ by_other_author self t = true
           /\ after_cursor L self t = true
           /\ exists search found,
                Client.search_tweets (client self) = Some search
                /\ search searchTerm 20 w = Ok found
                /\ In t found.
Proof.
  intros w.
  assert (Hnil : forall res w', body w = (res, w') -> same_logs w w' ->
            exists P S R,
              processing_log (snd (body w)) = processing_log w ++ P
              /\ sent (snd (body w)) = sent w ++ S
              /\ tweet_responses (snd (body w)) = tweet_responses w ++ R
              /\ cycle_shape L self actx sctx w (fst (body w)) P S R
              /\ forall t, In t P ->
                   in_session_window L self t = true
                   /\ by_other_author self t = true
                   /\ after_cursor L self t = true
                   /\ exists search found,
                        Client.search_tweets (client self) = Some search
                        /\ search searchTerm 20 w = Ok found
                        /\ In t found).
  { intros res w' Hb (Hr & Hs & Hp). rewrite Hb. cbn [fst snd].
    exists [], [], []. rewrite !app_nil_r.
    split; [exact Hp|]. split; [exact Hs|]. split; [exact Hr|].
    split; [apply cycle_shape_nil|]. intros t []. }
  destruct (Client.search_tweets (client self)) as [search|] eqn:Hs.
  2:{ destruct (body_without_search w) as (e & w' & Hb & Hl);
        [intros; congruence|eauto]. }
  destruct (search searchTerm 20 w) as [found|e] eqn:Hf.
  2:{ destruct (body_without_search w) as (e' & w' & Hb & Hl);
        [intros; congruence|eauto]. }
  destruct (body_runs_loop w search found Hs Hf)
    as [Hb|(_ & e & Hb & _)].
  2:{ eapply Hnil; [exact Hb|apply same_logs_tick]. }
  rewrite Hb.
  destruct (check_mentions_loop L self actx sctx m (survivors L self found)
              0 (tick w)) as [res w'] eqn:Hloop.
  apply loop_trace in Hloop.
  destruct Hloop as (P & S & R & HP & HS & HR & Hin & Hfa & Hshape).
  exists P, S, R. cbn [fst snd].
  split; [exact HP|]. split; [exact HS|]. split; [exact HR|].
  split; [eapply cycle_shape_same_rows; [|exact Hshape]; reflexivity|].
  intros t Ht.
  rewrite Forall_forall in Hfa. destruct (Hfa t Ht) as [Hw Ha].
  apply Hin in Ht. apply survivors_in in Ht. destruct Ht as [Hfound Hafter].
  repeat split; auto. exists search, found. auto.
Qed.

(** C4, as the code has it.  In one cycle the candidates that entered
    the pipeline are those whose run returned, followed at most by one
    whose run raised.  A run that returned posted its reply and wrote its
    record, unless the store already held a record under that identifier.
    A run that raised is the last of the cycle, its exception is the
    cycle's, and it wrote no record: either it posted nothing, or it
    posted its reply and the exception came from a step called after the
    post, [updateUserContext] or the store's [get_or_create_collection] or
    [add].  So the records written
    answer, in order, posts of the same cycle, and a post is without a
    record written only for a failed later step or a record already there.
    The boundary handler changes nothing of this. *)
Theorem C4_records_follow_posts :
  forall w,
    snd (cycle w) = snd (body w)
    /\ exists P S R,
         processing_log (snd (cycle w)) = processing_log w ++ P
         /\ sent (snd (cycle w)) = sent w ++ S
         /\ tweet_responses (snd (cycle w)) = tweet_responses w ++ R
         /\ cycle_shape L self actx sctx w (fst (body w)) P S R.
Proof.
  intros w. rewrite check_mentions_runs_body.
  split; [reflexivity|].
  destruct (body_trace w) as (P & S & R & HP & HS & HR & Hshape & _).
  exists P, S, R. auto.
Qed.

Lemma cycle_shape_replies :
  forall w0 res P S R s,
    cycle_shape L self actx sctx w0 res P S R ->
    In s S ->
    exists t, In t P /\ reply_to s = Tweet.id t.
Proof.
  intros w0 res P S R s Hshape Hin.
  apply (in_map reply_to) in Hin.
  assert (Hids : In (reply_to s) (map Tweet.id P)).
  { destruct Hshape
      as (done & _ & _
          & [[-> HS]|(t & e & w1 & w2 & -> & _ & _ & [[HS _]|[HS _]])]).
    - now rewrite <- HS.
    - rewrite map_app. apply in_or_app. left. now rewrite <- HS.
    - now rewrite <- HS. }
  apply in_map_iff in Hids. destruct Hids as (t & Ht & Hin').
  exists t. auto.
Qed.

(** Every reply a cycle posts answers a candidate of the search result
    whose [created_at] is not before [start_time], whatever the store
    holds. *)
Lemma replies_within_session_window :
  forall w,
    exists S,
      sent (snd (cycle w)) = sent w ++ S
      /\ forall s, In s S ->
           exists t created,
             reply_to s = Tweet.id t
             /\ strptime L (Tweet.created_at t) = Ok created
             /\ start_time self <= created
             /\ exists search found,
                  Client.search_tweets (client self) = Some search
                  /\ search searchTerm 20 w = Ok found
                  /\ In t found.
Proof.
  intros w. rewrite check_mentions_runs_body. cbn [snd].
  destruct (body_trace w) as (P & S & R & HP & HS & HR & Hshape & Hall).
  exists S. split; [exact HS|]. intros s Hs.
  destruct (cycle_shape_replies _ _ _ _ _ _ Hshape Hs) as (t & Ht & Hid).
  destruct (Hall t Ht) as (Hw & _ & _ & Hfrom).
  unfold in_session_window in Hw.
  destruct (strptime L (Tweet.created_at t)) as [created|e] eqn:E;
    [|discriminate].
  exists t, created. split; [exact Hid|]. split; [exact E|].
  split; [|exact Hfrom].
  apply negb_true_iff, Z.ltb_ge in Hw. exact Hw.
Qed.

(** C10: without a Chroma client the dedup lookup raises [AttributeError],
    which the handler of [has_responded_to_tweet] does not catch; so a
    cycle whose search result holds a candidate past the cursor, the
    timestamp and the self-author filters ends on an exception caught at
    the boundary of [check_mentions], with no reply posted and no record
    written.  The exception is that [AttributeError], unless an identifier
    or a timestamp failed to parse first. *)
Theorem C10_without_store_no_reply_and_no_record :
  forall w search found,
    chroma_client self = None ->
    Client.search_tweets (client self) = Some search ->
    search searchTerm 20 w = Ok found ->
    (exists t, In t found
               /\ after_cursor L self t = true
               /\ in_session_window L self t = true
               /\ by_other_author self t = true) ->
    fst (cycle w) = Ok tt
    /\ sent (snd (cycle w)) = sent w
    /\ tweet_responses (snd (cycle w)) = tweet_responses w
    /\ (forall i w0,
           has_responded_to_tweet self i w0 = (Raise AttributeError, w0))
    /\ exists e,
         fst (body w) = Raise e
         /\ (e = AttributeError
             \/ exists t', In t' found
                   /\ (py_int L (Tweet.id t') = Raise e
                       \/ strptime L (Tweet.created_at t') = Raise e)).
Proof.
  intros w search found Hnone Hs Hf (t & Hin & Hafter & Hw & Ha).
  rewrite check_mentions_runs_body.
  cut (sent (snd (body w)) = sent w
       /\ tweet_responses (snd (body w)) = tweet_responses w
       /\ (forall i w0,
              has_responded_to_tweet self i w0 = (Raise AttributeError, w0))
       /\ exists e,
            fst (body w) = Raise e
            /\ (e = AttributeError
                \/ exists t', In t' found
                      /\ (py_int L (Tweet.id t') = Raise e
                          \/ strptime L (Tweet.created_at t') = Raise e))).
  { intros (HS & HR & Hd & e & He & Hsrc).
    split; [|eauto 6].
    unfold check_mentions. eapply boundary_catches; [exact He|].
    destruct Hsrc as [->|(t' & _ & [Hi|Hst])].
    - reflexivity.
    - eapply py_int_raises_benign; exact Hi.
    - eapply strptime_raises_benign; exact Hst. }
  assert (Hdedup : forall i w0,
             has_responded_to_tweet self i w0 = (Raise AttributeError, w0))
    by (intros; now apply has_responded_without_store).
  rewrite (body_unfold w search found Hs Hf).
  destruct found as [|t0 rest0] eqn:Efound; [destruct Hin|].
  rewrite <- Efound in *. clear Efound t0 rest0.
  destruct (newer_than L (cursor_or_0 (last_checked_tweet_id self)) found)
    as [kept|e] eqn:En.
  2:{ cbn [fst snd tweet_responses sent tick].
      split; [reflexivity|]. split; [reflexivity|]. split; [exact Hdedup|].
      exists e. split; [reflexivity|]. right.
      destruct (newer_than_raises self _ _ En) as (t' & Hin' & He). eauto. }
  destruct (newer_than_spec self _ _ En) as [-> _].
  destruct (sorted_by_id L (filter (after_cursor L self) found))
    as [tweets|e] eqn:Es.
  2:{ cbn [fst snd tweet_responses sent tick].
      split; [reflexivity|]. split; [reflexivity|]. split; [exact Hdedup|].
      exists e. split; [reflexivity|]. right.
      destruct (sorted_by_id_raises _ _ Es) as (t' & Hin' & He).
      apply filter_In in Hin'. exists t'. tauto. }
  destruct (sorted_by_id_spec _ _ Es) as [Hperm _].
  destruct (check_mentions_loop L self actx sctx m tweets 0 (tick w))
    as [res w'] eqn:Hloop.
  destruct (loop_without_store self actx sctx m _ _ _ _ _ Hnone Hloop)
    as [Hlogs Hraise].
  cbn [fst snd]. open_logs.
  split; [assumption|]. split; [assumption|]. split; [exact Hdedup|].
  destruct Hraise as (e & -> & [->|(t' & Hin' & He)]).
  - exists t. split; [|auto].
    apply (Permutation_in _ (Permutation_sym Hperm)).
    apply filter_In. auto.
  - eauto.
  - exists e. split; [reflexivity|]. right. exists t'.
    apply (Permutation_in _ Hperm) in Hin'. apply filter_In in Hin'.
    tauto.
Qed.

Lemma NoDup_app_disjoint :
  forall A (l1 l2 : list A) a,
    NoDup (l1 ++ l2) -> In a l1 -> ~ In a l2.
Proof.
  intros A l1 l2 a. induction l1 as [|x r IH]; cbn; intros Hnd Hin.
  - destruct Hin.
  - inversion Hnd as [|? ? Hnew Hr]; subst. destruct Hin as [->|Hin].
    + intros Ha. apply Hnew. apply in_or_app. now right.
    + now apply IH.
Qed.

(** When every step answers and every timestamp parses, a cycle takes the
    first [max 1 m] eligible candidates into the pipeline and returns. *)
Lemma cycle_reliable :
  forall w search found,
    Client.search_tweets (client self) = Some search ->
    search searchTerm 20 w = Ok found ->
    NoDup (map Tweet.id found) ->
    Reliable L self ->
    (forall t, In t found ->
               exists created, strptime L (Tweet.created_at t) = Ok created) ->
    processing_log (snd (body w))
    = processing_log w
      ++ firstn (Z.to_nat (Z.max 1 m)) (eligible_in_order L self w found)
    /\ (survivors L self found = [] \/ fst (body w) = Ok tt).
Proof.
  intros w search found Hs Hf Hnd HR Hparse.
  destruct (body_runs_loop w search found Hs Hf)
    as [Hb|(Hnil & e & Hb & _)].
  - destruct (loop_reliable self actx sctx m (survivors L self found) 0
                (tick w) HR) as (w' & Hrun & Hlog).
    + now apply survivors_NoDup.
    + intros t Ht. apply survivors_in in Ht. now apply Hparse.
    + rewrite Hb, Hrun. cbn [fst snd]. split; [|now right].
      rewrite Hlog. rewrite Z.sub_0_r. reflexivity.
  - rewrite Hb. unfold eligible_in_order. rewrite Hnil. cbn [fst snd filter].
    rewrite firstn_nil, app_nil_r. split; [reflexivity|now left].
Qed.

(** C1, as the code has it.  The candidates a cycle takes into the reply
    pipeline are an initial segment of the eligible candidates in ascending
    order of identifier, eligible meaning: identifier strictly greater than
    the cursor (a missing cursor counting as 0), timestamp not before
    [start_time], author other than the handler's account, no record in
    the store.  The segment is the first [maxReplies] of them when every
    step answers and [maxReplies] is at least 1; an exception ends it
    earlier. *)
Theorem C1_pipeline_is_initial_segment_of_eligible :
  forall w search found,
    Client.search_tweets (client self) = Some search ->
    search searchTerm 20 w = Ok found ->
    NoDup (map Tweet.id found) ->
    lookups_answer self ->
    (exists P rest,
        processing_log (snd (cycle w)) = processing_log w ++ P
        /\ eligible_in_order L self w found = P ++ rest)
    /\ StronglySorted (id_le L) (eligible_in_order L self w found)
    /\ (forall t, In t (eligible_in_order L self w found) ->
                  In t found /\ eligible L self w t = true)
    /\ ((forall t, In t found -> exists n, py_int L (Tweet.id t) = Ok n) ->
        forall t, In t found -> eligible L self w t = true ->
                  In t (eligible_in_order L self w found))
    /\ (Reliable L self ->
        (forall t, In t found ->
                   exists created,
                     strptime L (Tweet.created_at t) = Ok created) ->
        1 <= m ->
        processing_log (snd (cycle w))
        = processing_log w
          ++ firstn (Z.to_nat m) (eligible_in_order L self w found)).
Proof.
  intros w search found Hs Hf Hnd Hl.
  rewrite check_mentions_runs_body. cbn [snd].
  split; [|split; [|split; [|split]]].
  - destruct (body_runs_loop w search found Hs Hf)
      as [Hb|(Hnil & e & Hb & _)].
    + rewrite Hb.
      destruct (check_mentions_loop L self actx sctx m
                  (survivors L self found) 0 (tick w)) as [res w'] eqn:Hloop.
      apply (loop_prefix self actx sctx m) in Hloop;
        [|exact Hl|now apply survivors_NoDup].
      exact Hloop.
    + rewrite Hb. exists [], []. unfold eligible_in_order. rewrite Hnil.
      cbn. now rewrite app_nil_r.
  - apply StronglySorted_filter. apply survivors_sorted.
  - intros t Ht. apply filter_In in Ht. destruct Ht as [Ht Hp].
    apply survivors_in in Ht. destruct Ht as [Hin Hafter].
    split; [exact Hin|]. unfold eligible. now rewrite Hafter, Hp.
  - intros Hall t Hin He. unfold eligible in He.
    apply andb_prop in He. destruct He as [Hafter Hp].
    apply filter_In. split; [|exact Hp].
    now apply survivors_complete.
  - intros HR Hparse Hm.
    destruct (cycle_reliable w search found Hs Hf Hnd HR Hparse) as [Hlog _].
    rewrite Hlog. now replace (Z.max 1 m) with m by lia.
Qed.

(** The cap from 1 on: with at least [m >= 1] eligible candidates and
    every step answering, a cycle posts exactly [m] replies, to the first
    [m] eligible candidates, writes their [m] records, and neither answers
    nor records any other eligible candidate. *)
Lemma cap_respected_from_one :
  forall w search found,
    Client.search_tweets (client self) = Some search ->
    search searchTerm 20 w = Ok found ->
    NoDup (map Tweet.id found) ->
    Reliable L self ->
    (forall t, In t found ->
               exists created, strptime L (Tweet.created_at t) = Ok created) ->
    1 <= m ->
    m <= Z.of_nat (List.length (eligible_in_order L self w found)) ->
    exists S R,
      sent (snd (cycle w)) = sent w ++ S
      /\ tweet_responses (snd (cycle w)) = tweet_responses w ++ R
      /\ Z.of_nat (List.length S) = m
      /\ Z.of_nat (List.length R) = m
      /\ map reply_to S
         = map Tweet.id
             (firstn (Z.to_nat m) (eligible_in_order L self w found))
      /\ map row_id R = map reply_to S
      /\ forall t,
           In t (skipn (Z.to_nat m) (eligible_in_order L self w found)) ->
           ~ In (Tweet.id t) (map reply_to S)
           /\ ~ In (Tweet.id t) (map row_id R).
Proof.
  intros w search found Hs Hf Hnd HR Hparse Hm Hn.
  rewrite check_mentions_runs_body. cbn [snd].
  destruct (cycle_reliable w search found Hs Hf Hnd HR Hparse)
    as [Hlog Hres].
  replace (Z.max 1 m) with m in Hlog by lia.
  destruct (body_trace w) as (P & S & R & HP & HS & HR' & Hshape & _).
  rewrite HP in Hlog. apply app_inv_head in Hlog. subst P.
  set (E := eligible_in_order L self w found) in *.
  assert (Hlen : List.length (firstn (Z.to_nat m) E) = Z.to_nat m).
  { rewrite length_firstn. lia. }
  assert (HndE : NoDup (map Tweet.id E)).
  { unfold E, eligible_in_order. apply NoDup_map_filter.
    now apply survivors_NoDup. }
  rewrite <- (firstn_skipn (Z.to_nat m) E), map_app in HndE.
  assert (Hids : map reply_to S = map Tweet.id (firstn (Z.to_nat m) E)
                 /\ map row_id R = map Tweet.id (firstn (Z.to_nat m) E)).
  { destruct Hshape
      as (done & _ & HRd
          & [[Hd HSd]|(t & e & w1 & w2 & _ & Hraise & _)]).
    - subst done. split; [exact HSd|]. rewrite HRd.
      apply newly_recorded_all.
      + intros i Hi. apply in_map_iff in Hi. destruct Hi as (t & <- & Ht).
        assert (HtE : In t E).
        { rewrite <- (firstn_skipn (Z.to_nat m) E). apply in_or_app.
          now left. }
        unfold E, eligible_in_order in HtE. apply filter_In in HtE.
        destruct HtE as [_ Hpass]. unfold passes_loop_filters in Hpass.
        apply andb_prop in Hpass. destruct Hpass as [_ Hrec].
        now apply negb_true_iff in Hrec.
      + now apply NoDup_app_remove_r in HndE.
    - destruct Hres as [Hnil|Hok]; [|congruence].
      unfold E, eligible_in_order in Hlen. rewrite Hnil in Hlen.
      cbn in Hlen. rewrite firstn_nil in Hlen. cbn in Hlen. lia. }
  destruct Hids as [HidS HidR].
  exists S, R. split; [exact HS|]. split; [exact HR'|].
  split.
  { rewrite <- (length_map reply_to), HidS, length_map, Hlen. lia. }
  split.
  { rewrite <- (length_map row_id), HidR, length_map, Hlen. lia. }
  split; [exact HidS|]. split; [congruence|].
  intros t Ht.
  assert (Hnot : ~ In (Tweet.id t)
                     (map Tweet.id (firstn (Z.to_nat m) E))).
  { intros Hin.
    apply (NoDup_app_disjoint _ _ _ _ HndE Hin). now apply in_map. }
  rewrite HidR, HidS. auto.
Qed.
End Cycle.

(** ** The drivers when every exception is an ordinary one *)

Lemma ret_benign : forall A (a : A), raises_only_benign (ret a).
Proof. intros A a w e w' H. discriminate. Qed.

Lemma raise_benign :
  forall A e, benign e = true -> raises_only_benign (@raise A e).
Proof. intros A e He w e' w' H. inversion H; subst. exact He. Qed.

Lemma lift_benign :
  forall A (r : result A),
    benign_result r = true -> raises_only_benign (lift r).
Proof.
  intros A r Hr w e w' H. unfold lift in H. inversion H; subst.
  exact Hr.
Qed.

Lemma call_benign :
  forall A (o : oracle A),
    (forall w, benign_result (o w) = true) -> raises_only_benign (call o).
Proof.
  intros A o Ho w e w' H. unfold call in H.
  specialize (Ho w). destruct (o w); inversion H; subst. exact Ho.
Qed.

Lemma bind_benign :
  forall A B (m : M A) (k : A -> M B),
    raises_only_benign m ->
    (forall a, raises_only_benign (k a)) ->
    raises_only_benign (bind m k).
Proof.
  intros A B m k Hm Hk w e w' H. unfold bind in H.
  destruct (m w) as [[a|e0] w1] eqn:E.
  - exact (Hk a _ _ _ H).
  - inversion H; subst. exact (Hm _ _ _ E).
Qed.

Lemma try_except_benign :
  forall A (body : M A) catches handler,
    raises_only_benign body ->
    (forall e, raises_only_benign (handler e)) ->
    raises_only_benign (try_except body catches handler).
Proof.
  intros A body catches handler Hb Hh w e w' H. unfold try_except in H.
  destruct (body w) as [[a|e0] w1] eqn:E; [discriminate|].
  destruct (catches e0).
  - exact (Hh _ _ _ _ H).
  - inversion H; subst. exact (Hb _ _ _ E).
Qed.

Lemma bind_positional_benign :
  forall params args, benign_result (bind_positional params args) = true.
Proof.
  intros params args. revert params.
  induction args as [|a args IH]; intros params;
    [destruct params; reflexivity|].
  destruct params as [|[p d] params]; [reflexivity|]. cbn.
  specialize (IH params).
  destruct (bind_positional params args) as [[env rest]|e]; auto.
Qed.

Lemma bind_keywords_benign :
  forall f kwargs env, benign_result (bind_keywords f env kwargs) = true.
Proof.
  intros f kwargs. induction kwargs as [|[k v] kwargs IH]; intros env;
    [reflexivity|].
  cbn. destruct (lookup k env); [reflexivity|].
  destruct (lookup k (fn_params f)); [apply IH|].
  destruct (fn_var_keyword f); [apply IH|reflexivity].
Qed.

Lemma bind_defaults_benign :
  forall rest env, benign_result (bind_defaults env rest) = true.
Proof.
  induction rest as [|[p d] rest IH]; intros env; [reflexivity|].
  cbn. destruct (lookup p env); [apply IH|].
  destruct d; [apply IH|reflexivity].
Qed.

Lemma py_call_benign :
  forall f args kwargs,
    (forall env w, benign_result (fn_body f env w) = true) ->
    raises_only_benign (py_call f args kwargs).
Proof.
  intros f args kwargs Hf. unfold py_call.
  pose proof (bind_positional_benign (fn_params f) args) as H1.
  destruct (bind_positional (fn_params f) args) as [[env rest]|e];
    [|now apply raise_benign].
  pose proof (bind_keywords_benign f kwargs env) as H2.
  destruct (bind_keywords f env kwargs) as [env'|e];
    [|now apply raise_benign].
  pose proof (bind_defaults_benign rest env') as H3.
  destruct (bind_defaults env' rest) as [env''|e];
    [|now apply raise_benign].
  apply call_benign. intros w. apply Hf.
Qed.

Section Ordinary.
Context (self : TwitterInteractionHandler) (HB : Benign L self).

Lemma generate_response_benign :
  forall text ctx, raises_only_benign (generate_response self text ctx).
Proof.
  intros text ctx. unfold generate_response. apply bind_benign.
  - destruct (fetchContext self) as [fetch|] eqn:Ef; [|apply ret_benign].
    apply bind_benign; [|intros; apply ret_benign].
    apply call_benign. intros w.
    exact (fetch_context_benign L self HB fetch Ef _ _ w).
  - intros ctx'. apply py_call_benign. exact (generator_benign L self HB).
Qed.

Lemma get_or_create_collection_benign :
  forall name,
    raises_only_benign (get_or_create_collection (chroma_client self) name).
Proof.
  intros name. unfold get_or_create_collection.
  destruct (chroma_client self) as [c|] eqn:Ec;
    [|now apply raise_benign].
  apply bind_benign; [|intros; apply ret_benign].
  intros w e w' H. unfold Chroma.get_or_create_collection in H.
  destruct (store_benign L self HB c Ec) as (Hg & _ & _).
  specialize (Hg name w).
  destruct (Chroma.get_or_create_collection_fault c name w);
    inversion H; subst. exact Hg.
Qed.

Lemma has_responded_benign :
  forall i, raises_only_benign (has_responded_to_tweet self i).
Proof.
  intros i. unfold has_responded_to_tweet.
  apply try_except_benign; [|intros; apply ret_benign].
  unfold has_responded_lookup.
  intros w e w' H. unfold bind at 1 in H.
  destruct (get_or_create_collection (chroma_client self)
              "tweet_responses" w) as [[c|e0] w1] eqn:E.
  - assert (Hc : chroma_client self = Some c).
    { unfold get_or_create_collection in E.
      destruct (chroma_client self) as [c'|]; [|discriminate].
      unfold bind, ret in E.
      destruct (Chroma.get_or_create_collection c' "tweet_responses" w)
        as [[[]|] ?]; inversion E; reflexivity. }
    destruct (store_benign L self HB c Hc) as (_ & Hf & _).
    unfold bind, Chroma.get in H. specialize (Hf i w1).
    destruct (Chroma.get_fault c i w1).
    + inversion H; subst. exact Hf.
    + cbn in H. destruct (0 <? _); discriminate.
  - inversion H; subst.
    exact (get_or_create_collection_benign _ _ _ _ E).
Qed.

Lemma log_response_benign :
  forall i rid content txt,
    raises_only_benign (log_response L self i rid content txt).
Proof.
  intros i rid content txt w e w' H.
  apply log_response_spec in H.
  destruct H as (_ & _ & [(e0 & c & w0 & He & Hc & _ & Hf & _)
                         |[(row & ? & _)|(? & _)]]); try discriminate.
  assert (e0 = e) by congruence. subst e0.
  destruct (store_benign L self HB c Hc) as (Hg & _ & Ha).
  destruct Hf as [Hf|Hf].
  - specialize (Hg "tweet_responses"%string w0). now rewrite Hf in Hg.
  - specialize (Ha i w0). now rewrite Hf in Ha.
Qed.

Lemma send_tweet_benign :
  forall text i,
    raises_only_benign (Client.call_send_tweet (client self) text i).
Proof.
  intros text i. unfold Client.call_send_tweet.
  destruct (Client.send_tweet (client self)) as [send|] eqn:Es;
    [|now apply raise_benign].
  intros w e w' H.
  pose proof (send_benign L self HB send Es text i w) as Hs.
  destruct (send text i w); inversion H; subst. exact Hs.
Qed.

Lemma reply_pipeline_benign :
  forall actx sctx t, raises_only_benign (reply_pipeline L self actx sctx t).
Proof.
  intros actx sctx t. unfold reply_pipeline.
  apply bind_benign; [intros w e w' H; discriminate|]. intros _.
  apply bind_benign.
  { apply call_benign. intros w. apply (prompt_benign L self HB). }
  intros prompt. apply bind_benign.
  { destruct (getUserContext self) as [get|] eqn:Eg; [|apply ret_benign].
    apply bind_benign; [|intros; apply ret_benign].
    apply call_benign. intros w.
    exact (user_context_benign L self HB get Eg _ _ w). }
  intros ctx. apply bind_benign; [apply generate_response_benign|].
  intros txt. apply bind_benign; [apply send_tweet_benign|].
  intros response. apply bind_benign; [|intros; apply log_response_benign].
  destruct (updateUserContext self) as [update|] eqn:Eu; [|apply ret_benign].
  apply call_benign. intros w.
  exact (update_context_benign L self HB update Eu _ _ _ _ _ w).
Qed.

Lemma loop_benign :
  forall actx sctx m tweets n,
    raises_only_benign (check_mentions_loop L self actx sctx m tweets n).
Proof.
  intros actx sctx m tweets.
  induction tweets as [|t rest IH]; intros n; [apply ret_benign|].
  cbn [check_mentions_loop]. apply bind_benign.
  { apply lift_benign. apply strptime_benign. }
  intros created.
  destruct (created <? start_time self); [apply IH|].
  destruct (eq_optional_str _ _); [apply IH|].
  apply bind_benign; [apply has_responded_benign|].
  intros [|]; [apply IH|].
  apply bind_benign; [apply reply_pipeline_benign|]. intros _.
  destruct (n + 1 >=? m); [apply ret_benign|apply IH].
Qed.

Lemma sorted_by_id_benign :
  forall l, benign_result (sorted_by_id L l) = true.
Proof.
  intros l. destruct (sorted_by_id L l) as [tweets|e] eqn:E; [reflexivity|].
  destruct (sorted_by_id_raises _ _ E) as (t & _ & He).
  exact (py_int_raises_benign _ _ He).
Qed.

Lemma newer_than_benign :
  forall cursor l, benign_result (newer_than L cursor l) = true.
Proof.
  intros cursor l. induction l as [|t rest IH]; [reflexivity|].
  cbn [newer_than].
  pose proof (py_int_benign L (Tweet.id t)) as Hi.
  destruct (py_int L (Tweet.id t)) as [n|e]; [|exact Hi].
  destruct (newer_than L cursor rest); [reflexivity|exact IH].
Qed.

Lemma body_benign :
  forall searchTerm actx sctx m,
    raises_only_benign (check_mentions_body L self searchTerm actx sctx m).
Proof.
  intros searchTerm actx sctx m. unfold check_mentions_body.
  apply bind_benign.
  { unfold Client.call_search_tweets, call_method.
    destruct (Client.search_tweets (client self)) as [search|] eqn:Es;
      cbn [option_map]; [|now apply raise_benign].
    apply call_benign. intros w.
    exact (search_benign L self HB search Es _ _ w). }
  intros [|t0 rest0]; [apply ret_benign|].
  apply bind_benign; [apply lift_benign, newer_than_benign|].
  intros newer. apply bind_benign; [apply lift_benign, sorted_by_id_benign|].
  intros tweets. apply loop_benign.
Qed.

Lemma check_mentions_returns :
  forall searchTerm actx sctx m w,
    fst (check_mentions L self searchTerm actx sctx m w) = Ok tt.
Proof.
  intros searchTerm actx sctx m w. unfold check_mentions.
  apply boundary_benign. intros e He.
  destruct (check_mentions_body L self searchTerm actx sctx m w)
    as [r w'] eqn:E.
  cbn in He. subst r. exact (body_benign _ _ _ _ _ _ _ E).
Qed.

Lemma monitor_mentions_loop_returns :
  forall terms actx w,
    monitor_mentions_loop L self terms actx w
    = (Ok tt,
       fold_left
         (fun w term => snd (check_mentions L self term actx "" 3 w))
         terms w).
Proof.
  intros terms actx. induction terms as [|term rest IH]; intros w;
    [reflexivity|].
  cbn [monitor_mentions_loop fold_left]. unfold bind at 1.
  pose proof (check_mentions_returns term actx "" 3 w) as Hr.
  destruct (check_mentions L self term actx "" 3 w) as [r w1].
  cbn in Hr. subst r. cbn [snd]. apply IH.
Qed.

Lemma monitor_mentions_returns :
  forall check_interval actx w,
    monitor_mentions L self check_interval actx w
    = (Ok tt,
       fold_left
         (fun w term => snd (check_mentions L self term actx "" 3 w))
         (search_terms self) w).
Proof.
  intros k actx w. unfold monitor_mentions, try_except.
  now rewrite monitor_mentions_loop_returns.
Qed.

Lemma reply_guy_returns :
  forall check_interval actx w,
    fst (reply_guy L self check_interval actx w) = Ok tt.
Proof.
  intros k actx w. unfold reply_guy. apply boundary_benign.
  intros e He.
  match type of He with
  | fst (?body w) = _ => destruct (body w) as [r w'] eqn:E
  end.
  cbn in He. subst r. revert E.
  destruct (reply_targets self) as [|t0 rest0] eqn:Et; [discriminate|].
  rewrite <- Et.
  assert (Hb : raises_only_benign
                 (reply_target <- random_choice L (reply_targets self) ;;
                  term <- getitem (ReplyTarget.searchTerm reply_target) ;;
                  searchContext <-
                    getitem (ReplyTarget.searchContext reply_target) ;;
                  check_mentions L self ("from:" ++ term)%string actx
                    searchContext 3)).
  { apply bind_benign.
    - intros w0 e0 w0' H. unfold random_choice in H.
      destruct (nth_error _ _); inversion H; subst. reflexivity.
    - intros target. apply bind_benign.
      + destruct (ReplyTarget.searchTerm target);
          [apply ret_benign|now apply raise_benign].
      + intros term. apply bind_benign.
        * destruct (ReplyTarget.searchContext target);
            [apply ret_benign|now apply raise_benign].
        * intros ctx w0 e0 w0' H.
          pose proof (check_mentions_returns ("from:" ++ term)%string actx
                        ctx 3 w0) as Hr.
          rewrite H in Hr. discriminate. }
  intros E. exact (Hb _ _ _ E).
Qed.
End Ordinary.


(** ** The session window *)

(** C2, as the code has it: [start_time] is the instant of construction
    minus 24 hours, and every reply a cycle posts answers a candidate of
    the search result created at or after that instant, whatever the store
    holds. *)
Theorem C2_session_window_opens_24_hours_before_construction :
  forall now cursor_file twitter_client generator chroma terms targets getUC
         fetch updateUC searchTerm additionalContext searchContext maxReplies
         w,
    let self :=
      __init__ now cursor_file twitter_client generator chroma terms targets
        getUC fetch updateUC in
    start_time self = now - hours_24
    /\ exists S,
         sent (snd (check_mentions L self searchTerm additionalContext
                      searchContext maxReplies w))
         = sent w ++ S
         /\ forall s, In s S ->
              exists t created,
                reply_to s = Tweet.id t
                /\ strptime L (Tweet.created_at t) = Ok created
                /\ now - hours_24 <= created
                /\ exists search found,
                     Client.search_tweets twitter_client = Some search
                     /\ search searchTerm 20 w = Ok found
                     /\ In t found.
Proof.
  intros. split; [reflexivity|].
  exact (replies_within_session_window self searchTerm additionalContext
           searchContext maxReplies w).
Qed.
End Proofs.

(** * The properties on concrete runs *)

Lemma sample_reliable :
  forall found cursor,
    Reliable Sample.lib
      (Sample.handler found cursor (Some Sample.chroma)).
Proof.
  intros found cursor. constructor; cbn.
  - eauto.
  - intros get H. discriminate.
  - intros fetch H. discriminate.
  - eauto.
  - eexists. split; [reflexivity|]. eauto.
  - intros update H. discriminate.
  - eexists. split; [reflexivity|]. auto.
Qed.

Lemma sample_lookups_answer :
  forall found cursor store,
    store = Some Sample.chroma \/ store = None ->
    lookups_answer (Sample.handler found cursor store).
Proof.
  intros found cursor store [->| ->] c Hc; cbn in Hc.
  - inversion Hc; subst. split; reflexivity.
  - discriminate.
Qed.

Lemma sample_benign :
  forall found cursor store,
    store = Some Sample.chroma \/ store = None ->
    Benign Sample.lib (Sample.handler found cursor store).
Proof.
  intros found cursor store Hstore. constructor; cbn.
  - intros search H. inversion H; subst. reflexivity.
  - intros send H. inversion H; subst. reflexivity.
  - reflexivity.
  - intros get H. discriminate.
  - intros fetch H. discriminate.
  - reflexivity.
  - intros update H. discriminate.
  - intros c Hc. destruct Hstore as [->| ->]; [|discriminate].
    inversion Hc; subst. repeat split.
Qed.

Lemma sample_ids_distinct :
  NoDup (map Tweet.id [Sample.t5; Sample.t3; Sample.t7]).
Proof.
  cbn. repeat constructor; cbn; intuition discriminate.
Qed.

(** The scenario of the specification: candidates 5, 3 and 7, cursor 3,
    at most 2 replies; the handler answers 5, then 7. *)
Example scenario_5_3_7 :
  map reply_to
    (sent (snd (check_mentions Sample.lib
                  (Sample.handler [Sample.t5; Sample.t3; Sample.t7] (Some 3)
                     (Some Sample.chroma))
                  "q" "" "" 2 Sample.world0)))
  = [JStr "5"; JStr "7"].
Proof. vm_compute. reflexivity. Qed.

(** A candidate the store has a record for is skipped. *)
Example scenario_answered_candidate_is_skipped :
  processing_log
    (snd (check_mentions Sample.lib
            (Sample.handler [Sample.t5; Sample.t7] None
               (Some Sample.chroma))
            "q" "" "" 3 Sample.world_answered_5))
  = [Sample.t7].
Proof. vm_compute. reflexivity. Qed.

(** Candidates 3, 5 and 7 are all eligible, and with [maxReplies = 1] only
    candidate 3 enters the pipeline: an eligible candidate, 5, does not. *)
Lemma C1_counterexample :
  let self :=
    Sample.handler [Sample.t5; Sample.t3; Sample.t7] None
      (Some Sample.chroma) in
  In Sample.t5 [Sample.t5; Sample.t3; Sample.t7]
  /\ eligible Sample.lib self Sample.world0 Sample.t5 = true
  /\ processing_log
       (snd (check_mentions Sample.lib self "q" "" "" 1 Sample.world0))
     = [Sample.t3]
  /\ ~ In Sample.t5
         (processing_log
            (snd (check_mentions Sample.lib self "q" "" "" 1 Sample.world0))).
Proof.
  cbv zeta. split; [now left|]. split; [vm_compute; reflexivity|].
  split; [vm_compute; reflexivity|].
  vm_compute. intros [H|[]]. discriminate.
Qed.

Lemma C1_witness :
  let self :=
    Sample.handler [Sample.t5; Sample.t3; Sample.t7] (Some 3)
      (Some Sample.chroma) in
  NoDup (map Tweet.id [Sample.t5; Sample.t3; Sample.t7])
  /\ lookups_answer self
  /\ exists P rest,
       processing_log
         (snd (check_mentions Sample.lib self "q" "" "" 2 Sample.world0))
       = processing_log Sample.world0 ++ P
       /\ eligible_in_order Sample.lib self Sample.world0
            [Sample.t5; Sample.t3; Sample.t7]
          = P ++ rest.
Proof.
  cbv zeta. split; [exact sample_ids_distinct|].
  split; [apply sample_lookups_answer; now left|].
  exact (proj1
           (C1_pipeline_is_initial_segment_of_eligible Sample.lib
              (Sample.handler [Sample.t5; Sample.t3; Sample.t7] (Some 3)
                 (Some Sample.chroma))
              "q" "" "" 2 Sample.world0
              (fun _ _ _ => Ok [Sample.t5; Sample.t3; Sample.t7])
              [Sample.t5; Sample.t3; Sample.t7]
              eq_refl eq_refl sample_ids_distinct
              (sample_lookups_answer _ _ _ (or_introl eq_refl)))).
Defined.

(** A handler built at [Sample.now] answers candidate 5, created one hour
    before its construction: [start_time] is not the construction
    instant. *)
Lemma C2_counterexample :
  let self := Sample.handler [Sample.t5] None (Some Sample.chroma) in
  start_time self <> Sample.now
  /\ strptime Sample.lib (Tweet.created_at Sample.t5) = Ok 1793790000000000
  /\ 1793790000000000 < Sample.now
  /\ sent (snd (check_mentions Sample.lib self "q" "" "" 3 Sample.world0))
     = [mkSent "gm to you" (JStr "5")].
Proof.
  cbv zeta. split; [vm_compute; discriminate|].
  split; [reflexivity|]. split; [reflexivity|]. vm_compute. reflexivity.
Qed.

(** C3, where the code departs from it: with [maxReplies = 0] and one
    eligible candidate, so at least [maxReplies] of them, the cycle posts
    one reply and writes one record, not zero: the cap is tested after the
    post (165). *)
Theorem C3_zero_cap_still_posts_one_reply :
  let self := Sample.handler [Sample.t5] None (Some Sample.chroma) in
  eligible_in_order Sample.lib self Sample.world0 [Sample.t5] = [Sample.t5]
  /\ sent (snd (check_mentions Sample.lib self "q" "" "" 0 Sample.world0))
     = [mkSent "gm to you" (JStr "5")]
  /\ map row_id
       (tweet_responses
          (snd (check_mentions Sample.lib self "q" "" "" 0 Sample.world0)))
     = [JStr "5"].
Proof. cbv zeta. repeat split; vm_compute; reflexivity. Qed.

(** From [maxReplies = 1] on the cap holds; here 3 eligible candidates and
    [maxReplies = 2]. *)
Example cap_respected_on_three_candidates :
  exists S R,
    sent (snd (check_mentions Sample.lib
                 (Sample.handler [Sample.t5; Sample.t3; Sample.t7] None
                    (Some Sample.chroma))
                 "q" "" "" 2 Sample.world0))
    = sent Sample.world0 ++ S
    /\ tweet_responses
         (snd (check_mentions Sample.lib
                 (Sample.handler [Sample.t5; Sample.t3; Sample.t7] None
                    (Some Sample.chroma))
                 "q" "" "" 2 Sample.world0))
       = tweet_responses Sample.world0 ++ R
    /\ Z.of_nat (List.length S) = 2
    /\ Z.of_nat (List.length R) = 2.
Proof.
  destruct (cap_respected_from_one Sample.lib
              (Sample.handler [Sample.t5; Sample.t3; Sample.t7] None
                 (Some Sample.chroma))
              "q" "" "" 2 Sample.world0
              (fun _ _ _ => Ok [Sample.t5; Sample.t3; Sample.t7])
              [Sample.t5; Sample.t3; Sample.t7]
              eq_refl eq_refl sample_ids_distinct (sample_reliable _ _))
    as (S & R & HS & HR & HlS & HlR & _).
  - intros t [<-|[<-|[<-|[]]]]; eexists; reflexivity.
  - lia.
  - vm_compute. discriminate.
  - exists S, R. auto.
Qed.

(** The store refuses the write after the post was accepted: candidate 5
    has its reply and no record. *)
Lemma C4_counterexample :
  let self :=
    Sample.handler [Sample.t5] None
      (Some (Sample.chroma_add_raising (OtherError "ChromaError" "down"))) in
  sent (snd (check_mentions Sample.lib self "q" "" "" 3 Sample.world0))
  = [mkSent "gm to you" (JStr "5")]
  /\ tweet_responses
       (snd (check_mentions Sample.lib self "q" "" "" 3 Sample.world0))
     = [].
Proof. cbv zeta. split; vm_compute; reflexivity. Qed.

(** The platform refuses the post for candidate 5: no record is written
    and candidate 7 is not processed. *)
Example posting_failure_aborts_the_batch :
  let self :=
    __init__ Sample.now (Saved None)
      (Sample.platform_refusing [Sample.t5; Sample.t7])
      (Some Sample.generator) (Some Sample.chroma) [] [] None None None in
  let w' := snd (check_mentions Sample.lib self "q" "" "" 3 Sample.world0) in
  processing_log w' = [Sample.t5]
  /\ sent w' = []
  /\ tweet_responses w' = [].
Proof. cbv zeta. repeat split; vm_compute; reflexivity. Qed.

(** The lookup raises [ValueError]: the predicate raises it too. *)
Lemma C5_counterexample :
  let self :=
    Sample.handler [] None (Some (Sample.chroma_get_raising ValueError)) in
  fst (has_responded_lookup self (JStr "42") Sample.world0) = Raise ValueError
  /\ fst (has_responded_to_tweet self (JStr "42") Sample.world0)
     = Raise ValueError.
Proof. cbv zeta. split; reflexivity. Qed.

Lemma C5_witness :
  let self :=
    Sample.handler [] None
      (Some (Sample.chroma_get_raising FileNotFoundError)) in
  has_responded_lookup self (JStr "42") Sample.world0
  = (Raise FileNotFoundError, tick (tick Sample.world0))
  /\ has_responded_to_tweet self (JStr "42") Sample.world0
     = (Ok false, tick (tick Sample.world0)).
Proof.
  cbv zeta. split; [reflexivity|].
  exact (C5_dedup_fails_open_on_file_and_json_errors_only
           (Sample.handler [] None
              (Some (Sample.chroma_get_raising FileNotFoundError)))
           (JStr "42") Sample.world0 FileNotFoundError
           (tick (tick Sample.world0)) eq_refl).
Defined.



(** Two [ct0] cookies for [.twitter.com]: the CSRF lookup raises before
    the [try] block, and so does [search_tweets]. *)
Lemma C7_counterexample :
  fst (TwitterClient.search_tweets Sample.lib
         (Sample.net_of (Sample.ok_response (JDict [])) eq_refl)
         (Sample.twitter_client Sample.two_csrf_cookies) "q" 20)
  = Raise CookieConflictError.
Proof. reflexivity. Qed.

Lemma C7_witness :
  TwitterClient.get_csrf_token (Sample.twitter_client []) = Ok None
  /\ fst (TwitterClient.search_tweets Sample.lib
            (Sample.net_of
               (TwitterClient.HttpRaises (OtherError "ConnectionError" ""))
               eq_refl)
            (Sample.twitter_client []) "q" 20)
     = Ok [].
Proof.
  split; [reflexivity|].
  exact (proj2
           (C7_search_tweets_returns_after_csrf_lookup Sample.lib
              (Sample.net_of
                 (TwitterClient.HttpRaises (OtherError "ConnectionError" ""))
                 eq_refl)
              (Sample.twitter_client []) "q" 20 None eq_refl)
           (TwitterClient.HttpRaises (OtherError "ConnectionError" ""))
           (fun _ _ _ => eq_refl) I).
Defined.

Lemma C10_witness :
  let self := Sample.handler [Sample.t5] None None in
  chroma_client self = None
  /\ (exists t, In t [Sample.t5]
                /\ after_cursor Sample.lib self t = true
                /\ in_session_window Sample.lib self t = true
                /\ by_other_author self t = true)
  /\ sent (snd (check_mentions Sample.lib self "q" "" "" 3 Sample.world0))
     = sent Sample.world0.
Proof.
  cbv zeta. split; [reflexivity|].
  assert (H : exists t, In t [Sample.t5]
                /\ after_cursor Sample.lib
                     (Sample.handler [Sample.t5] None None) t = true
                /\ in_session_window Sample.lib
                     (Sample.handler [Sample.t5] None None) t = true
                /\ by_other_author
                     (Sample.handler [Sample.t5] None None) t = true).
  { exists Sample.t5. split; [now left|]. repeat split; reflexivity. }
  split; [exact H|].
  exact (proj1 (proj2
           (C10_without_store_no_reply_and_no_record Sample.lib
              (Sample.handler [Sample.t5] None None) "q" "" "" 3
              Sample.world0 (fun _ _ _ => Ok [Sample.t5]) [Sample.t5]
              eq_refl eq_refl eq_refl H))).
Defined.

(** * Further properties of the handler and of the client *)

Section Further.
Context (L : PyLib).

(** ** The store: writing a record, then looking it up *)

Lemma pynum_eqb_refl : forall a, pynum_eqb a a = true.
Proof.
  intros [x|m e|s|]; cbn.
  - apply Z.eqb_refl.
  - now rewrite !Z.eqb_refl.
  - now destruct s.
  - reflexivity.
Qed.

Lemma json_eqb_refl : forall a, json_eqb a a = true.
Proof.
  fix IH 1. intros [|b|n|s|l|d]; cbn.
  - reflexivity.
  - now destruct b.
  - apply pynum_eqb_refl.
  - apply String.eqb_refl.
  - induction l as [|x r IHr]; [reflexivity|].
    now rewrite IH, IHr.
  - induction d as [|[k x] r IHr]; [reflexivity|].
    now rewrite String.eqb_refl, IH, IHr.
Qed.

Lemma has_record_In :
  forall w i,
    has_record w i = true <-> In i (map row_id (tweet_responses w)).
Proof.
  intros w i. unfold has_record. rewrite existsb_exists. split.
  - intros (x & Hx & He). apply json_eqb_eq in He. now subst.
  - intros Hin. exists i. split; [exact Hin|apply json_eqb_refl].
Qed.

Lemma has_record_grows :
  forall w w2 R i,
    tweet_responses w2 = tweet_responses w ++ R ->
    has_record w2 i = false ->
    has_record w i = false.
Proof.
  intros w w2 R i HR H. unfold has_record in *.
  rewrite HR, map_app, existsb_app in H.
  now apply orb_false_iff in H.
Qed.

(** A store that answers every call. *)
Lemma log_response_with_store :
  forall self c i rid content txt w,
    chroma_client self = Some c ->
    (forall n w, Chroma.get_or_create_collection_fault c n w = None) ->
    (forall i w, Chroma.add_fault c i w = None) ->
    exists row,
      row_id row = i
      /\ log_response L self i rid content txt w
         = (Ok tt,
            if has_record w i then tick (tick w)
            else add_row row (tick (tick w))).
Proof.
  intros self c i rid content txt w Hc Hg Ha.
  unfold log_response. rewrite Hc.
  unfold get_or_create_collection, Chroma.get_or_create_collection,
    Chroma.add, bind, ret.
  rewrite Hg, Ha. eexists. split; [|reflexivity]. reflexivity.
Qed.

(** X1: With a store whose lookups answer, [has_responded_to_tweet] returns
    [True] exactly when the collection holds a row under that identifier. *)
Theorem dedup_answers_from_the_store :
  forall self c i w,
    chroma_client self = Some c ->
    lookups_answer self ->
    exists b,
      fst (has_responded_to_tweet self i w) = Ok b
      /\ (b = true <-> In i (map row_id (tweet_responses w))).
Proof.
  intros self c i w Hc Hl. destruct (Hl c Hc) as [Hg Hf].
  rewrite (has_responded_reads_store self c i w Hc Hg Hf).
  exists (has_record w i). split; [reflexivity|apply has_record_In].
Qed.

(** X2: Once [log_response] has written the record of an identifier,
    [has_responded_to_tweet] answers [True] for it, and its answer for any
    other identifier is what it was before. *)
Theorem logged_response_is_found :
  forall self c i rid content txt w,
    chroma_client self = Some c ->
    (forall n w, Chroma.get_or_create_collection_fault c n w = None) ->
    (forall i w, Chroma.get_fault c i w = None) ->
    (forall i w, Chroma.add_fault c i w = None) ->
    let w' := snd (log_response L self i rid content txt w) in
    fst (log_response L self i rid content txt w) = Ok tt
    /\ fst (has_responded_to_tweet self i w') = Ok true
    /\ forall j, j <> i ->
         fst (has_responded_to_tweet self j w')
         = fst (has_responded_to_tweet self j w).
Proof.
  intros self c i rid content txt w Hc Hg Hf Ha. cbv zeta.
  destruct (log_response_with_store self c i rid content txt w Hc Hg Ha)
    as (row & Hid & ->).
  cbn [fst snd]. split; [reflexivity|].
  rewrite !(has_responded_reads_store self c _ _ Hc Hg Hf). cbn [fst].
  destruct (has_record w i) eqn:Hknown.
  - split; [f_equal; exact Hknown|].
    intros j Hj. rewrite !(has_responded_reads_store self c _ _ Hc Hg Hf).
    reflexivity.
  - split.
    + f_equal. apply has_record_In. cbn. rewrite map_app. apply in_or_app.
      right. cbn. now left.
    + intros j Hj.
      rewrite !(has_responded_reads_store self c _ _ Hc Hg Hf).
      cbn [fst]. f_equal. unfold has_record at 1. cbn.
      apply has_record_add_other. congruence.
Qed.

(** ** More on the loop *)

Ltac open_logs :=
  repeat match goal with
         | H : same_logs _ _ |- _ => destruct H as (? & ? & ?)
         end;
  cbn [tweet_responses sent processing_log tick add_sent add_row
       add_processing] in *.

Section FurtherLoop.
Context (self : TwitterInteractionHandler) (actx sctx : string) (m : Z).

Local Abbreviation loop := (check_mentions_loop L self actx sctx m).

(** However the collaborators behave, the loop takes at most
    [max 1 (m - n)] candidates into the pipeline. *)
Lemma loop_cap :
  forall tweets n w res w',
    loop tweets n w = (res, w') ->
    exists P,
      processing_log w' = processing_log w ++ P
      /\ Z.of_nat (List.length P) <= Z.max 1 (m - n).
Proof.
  induction tweets as [|t rest IH]; intros n w res w' H.
  - cbn in H. inversion H; subst. exists []. rewrite app_nil_r.
    split; [reflexivity|cbn; lia].
  - apply loop_step in H.
    destruct H as [(e & _ & -> & ->)
                  |[(_ & _ & H)
                   |(Hw & Ha & [(e & Hd & ->)
                               |[(w1 & Hd & H)
                                |(w1 & r2 & w2 & Hd & Hp & H)]])]].
    + exists []. rewrite app_nil_r. split; [reflexivity|cbn; lia].
    + eauto.
    + apply has_responded_logs in Hd. open_logs.
      exists []. rewrite app_nil_r. split; [congruence|cbn; lia].
    + apply has_responded_logs in Hd. open_logs.
      destruct (IH _ _ _ _ H) as (P & HP & Hlen).
      exists P. split; [congruence|exact Hlen].
    + apply has_responded_logs in Hd. open_logs.
      apply reply_pipeline_spec in Hp. destruct Hp as [Hlog _].
      destruct H as [(e & -> & -> & ->)
                    |[(-> & Hm & -> & ->)|(-> & Hm & H)]].
      * exists [t]. split; [congruence|cbn; lia].
      * exists [t]. split; [congruence|cbn; lia].
      * destruct (IH _ _ _ _ H) as (P & HP & Hlen).
        exists (t :: P). split.
        -- change (t :: P) with ([t] ++ P). rewrite app_assoc. congruence.
        -- cbn [List.length]. lia.
Qed.

(** With lookups that answer, the candidates taken into the pipeline have
    pairwise distinct identifiers, none of which had a record when the
    loop started. *)
Lemma loop_fresh :
  forall tweets n w res w',
    lookups_answer self ->
    loop tweets n w = (res, w') ->
    exists P,
      processing_log w' = processing_log w ++ P
      /\ NoDup (map Tweet.id P)
      /\ Forall (fun t => has_record w (Tweet.id t) = false) P.
Proof.
  induction tweets as [|t rest IH]; intros n w res w' Hl H.
  - cbn in H. inversion H; subst. exists []. rewrite app_nil_r.
    repeat split; constructor.
  - apply loop_step in H.
    destruct H as [(e & _ & -> & ->)
                  |[(_ & _ & H)
                   |(Hw & Ha & [(e & Hd & ->)
                               |[(w1 & Hd & H)
                                |(w1 & r2 & w2 & Hd & Hp & H)]])]].
    + exists []. rewrite app_nil_r. repeat split; constructor.
    + eauto.
    + apply has_responded_logs in Hd. open_logs.
      exists []. rewrite app_nil_r.
      split; [congruence|split; constructor].
    + destruct (has_responded_needs_store _ _ _ _ _ Hd) as [c Hc].
      destruct (Hl c Hc) as [Hg Hf].
      rewrite (has_responded_reads_store _ _ _ _ Hc Hg Hf) in Hd.
      assert (Hw1 : w1 = tick (tick w)) by (inversion Hd; reflexivity).
      subst w1.
      destruct (IH _ _ _ _ Hl H) as (P & HP & Hnd & Hfresh).
      exists P. auto.
    + destruct (has_responded_needs_store _ _ _ _ _ Hd) as [c Hc].
      destruct (Hl c Hc) as [Hg Hf].
      rewrite (has_responded_reads_store _ _ _ _ Hc Hg Hf) in Hd.
      assert (Hw1 : w1 = tick (tick w)) by (inversion Hd; reflexivity).
      assert (Hrec : has_record w (Tweet.id t) = false)
        by (inversion Hd; reflexivity).
      subst w1. clear Hd.
      apply (reply_pipeline_fresh L _ _ _ _ _ _ _ c Hc) in Hp;
        [|exact Hrec].
      destruct Hp as [Hlog Hout].
      cbn [tweet_responses sent processing_log tick] in Hlog, Hout.
      assert (Hone : NoDup (map Tweet.id [t])
                     /\ Forall (fun t => has_record w (Tweet.id t) = false)
                          [t]).
      { split; [repeat constructor; intros []|repeat constructor; auto]. }
      destruct H as [(e & -> & -> & ->)
                    |[(-> & Hm & -> & ->)|(-> & Hm & H)]].
      * exists [t]. split; [exact Hlog|exact Hone].
      * exists [t]. split; [exact Hlog|exact Hone].
      * destruct Hout as [(e' & ? & _)
                         |[(e' & txt & ? & _)
                          |(txt & row & _ & Hid & Hr & Hs)]];
          try discriminate; try congruence.
        destruct (IH _ _ _ _ Hl H) as (P & HP & Hnd & Hfresh).
        rewrite Forall_forall in Hfresh.
        exists (t :: P). split; [|split].
        -- change (t :: P) with ([t] ++ P). rewrite app_assoc. congruence.
        -- cbn. constructor; [|exact Hnd].
           intros Hin. apply in_map_iff in Hin.
           destruct Hin as (t' & Heq & Hin').
           specialize (Hfresh t' Hin').
           assert (Htrue : has_record w2 (Tweet.id t') = true).
           { apply has_record_In. rewrite Hr, map_app. apply in_or_app.
             right. cbn. left. congruence. }
           congruence.
        -- constructor; [exact Hrec|].
           rewrite Forall_forall. intros t' Hin'.
           eapply has_record_grows; [exact Hr|now apply Hfresh].
Qed.

(** When every step answers, each candidate taken into the pipeline is
    answered and recorded, whatever ends the loop. *)
Lemma loop_reliable_records :
  forall tweets n w res w',
    Reliable L self ->
    loop tweets n w = (res, w') ->
    exists P S R,
      processing_log w' = processing_log w ++ P
      /\ sent w' = sent w ++ S
      /\ tweet_responses w' = tweet_responses w ++ R
      /\ map reply_to S = map Tweet.id P
      /\ map row_id R = map Tweet.id P.
Proof.
  induction tweets as [|t rest IH]; intros n w res w' HR H.
  - cbn in H. inversion H; subst. exists [], [], [].
    rewrite !app_nil_r. repeat split.
  - apply loop_step in H.
    destruct H as [(e & _ & -> & ->)
                  |[(_ & _ & H)
                   |(Hw & Ha & [(e & Hd & ->)
                               |[(w1 & Hd & H)
                                |(w1 & r2 & w2 & Hd & Hp & H)]])]].
    + exists [], [], []. rewrite !app_nil_r. repeat split.
    + eauto.
    + apply has_responded_logs in Hd. open_logs.
      exists [], [], []. rewrite !app_nil_r. repeat split; congruence.
    + apply has_responded_logs in Hd. open_logs.
      destruct (IH _ _ _ _ HR H) as (P & S & R & ? & ? & ? & ? & ?).
      exists P, S, R. repeat split; congruence.
    + destruct (store_ok L self HR) as (c & Hc & Hg & Hf & _).
      rewrite (has_responded_reads_store _ _ _ _ Hc Hg Hf) in Hd.
      assert (Hw1 : w1 = tick (tick w)) by (inversion Hd; reflexivity).
      assert (Hrec : has_record w (Tweet.id t) = false)
        by (inversion Hd; reflexivity).
      subst w1. clear Hd.
      destruct (reply_pipeline_reliable L self actx sctx t (tick (tick w)) HR)
        as [w2' Hok].
      assert (Hr2 : r2 = Ok tt) by (rewrite Hok in Hp; now inversion Hp).
      subst r2. clear Hok.
      apply (reply_pipeline_fresh L _ _ _ _ _ _ _ c Hc) in Hp;
        [|exact Hrec].
      destruct Hp as [Hlog Hout].
      cbn [tweet_responses sent processing_log tick] in Hlog, Hout.
      destruct Hout as [(e' & ? & _)
                       |[(e' & txt & ? & _)
                        |(txt & row & _ & Hid & Hr & Hs)]];
        try discriminate; try congruence.
      destruct H as [(e & ? & _)|[(_ & Hm & -> & ->)|(_ & Hm & H)]];
        [discriminate| |].
      * exists [t], [mkSent txt (Tweet.id t)], [row].
        repeat split; cbn; congruence.
      * destruct (IH _ _ _ _ HR H) as (P & S & R & HP & HS & HR' & HidS & HidR).
        exists (t :: P), (mkSent txt (Tweet.id t) :: S), (row :: R).
        repeat split.
        -- change (t :: P) with ([t] ++ P). rewrite app_assoc. congruence.
        -- change (mkSent txt (Tweet.id t) :: S)
             with ([mkSent txt (Tweet.id t)] ++ S).
           rewrite app_assoc. congruence.
        -- change (row :: R) with ([row] ++ R). rewrite app_assoc. congruence.
        -- cbn. congruence.
        -- cbn. congruence.
Qed.
End FurtherLoop.

(** ** More on one cycle *)

Lemma cycle_shape_lengths :
  forall self actx sctx w res P S R,
    cycle_shape L self actx sctx w res P S R ->
    (List.length R <= List.length S <= List.length P)%nat.
Proof.
  intros self actx sctx w res P S R (done & _ & HR & H).
  pose proof (newly_recorded_length (map Tweet.id done)
                (map row_id (tweet_responses w))) as Hlen.
  rewrite <- HR, !length_map in Hlen.
  destruct H as [[-> HS]|(t & e & w1 & w2 & -> & _ & _ & [[HS _]|[HS _]])];
    apply (f_equal (@List.length json)) in HS;
    rewrite !length_map in HS; rewrite ?length_app in *; cbn in *; lia.
Qed.

Section FurtherCycle.
Context (self : TwitterInteractionHandler) (searchTerm actx sctx : string)
        (m : Z).

Local Abbreviation body :=
  (check_mentions_body L self searchTerm actx sctx m).
Local Abbreviation cycle := (check_mentions L self searchTerm actx sctx m).

(** A cycle is the loop over the survivors of a search that answered, or
    leaves the logs as they were. *)
Lemma body_cases :
  forall w,
    (exists search found,
        Client.search_tweets (client self) = Some search
        /\ search searchTerm 20 w = Ok found
        /\ body w = check_mentions_loop L self actx sctx m
                      (survivors L self found) 0 (tick w))
    \/ same_logs w (snd (body w)).
Proof.
  intros w.
  destruct (Client.search_tweets (client self)) as [search|] eqn:Hs.
  2:{ right. destruct (body_without_search L self searchTerm actx sctx m w)
        as (e & w' & Hb & Hl); [intros; congruence|].
      rewrite Hb. exact Hl. }
  destruct (search searchTerm 20 w) as [found|e] eqn:Hf.
  2:{ right. destruct (body_without_search L self searchTerm actx sctx m w)
        as (e' & w' & Hb & Hl); [intros; congruence|].
      rewrite Hb. exact Hl. }
  destruct (body_runs_loop L self searchTerm actx sctx m w search found Hs Hf)
    as [Hb|(_ & e & Hb & _)].
  - left. exists search, found. auto.
  - right. rewrite Hb. apply same_logs_tick.
Qed.

Lemma cycle_bounds :
  forall w,
    exists P S R,
      processing_log (snd (cycle w)) = processing_log w ++ P
      /\ sent (snd (cycle w)) = sent w ++ S
      /\ tweet_responses (snd (cycle w)) = tweet_responses w ++ R
      /\ (List.length R <= List.length S <= List.length P)%nat
      /\ Z.of_nat (List.length P) <= Z.max 1 m.
Proof.
  intros w. rewrite check_mentions_runs_body. cbn [snd].
  destruct (body_trace L self searchTerm actx sctx m w)
    as (P & S & R & HP & HS & HR & Hshape & _).
  exists P, S, R. split; [exact HP|]. split; [exact HS|]. split; [exact HR|].
  split; [eapply cycle_shape_lengths; exact Hshape|].
  destruct (body_cases w) as [(search & found & _ & _ & Hb)|Hsame].
  - rewrite Hb in HP.
    destruct (check_mentions_loop L self actx sctx m (survivors L self found)
                0 (tick w)) as [res w'] eqn:Hloop.
    destruct (loop_cap self actx sctx m _ _ _ _ _ Hloop) as (P' & HP' & Hlen).
    cbn [snd processing_log tick] in HP, HP'.
    rewrite HP in HP'. apply app_inv_head in HP'. subst P'.
    now rewrite Z.sub_0_r in Hlen.
  - destruct Hsame as (_ & _ & Hp). rewrite Hp in HP.
    rewrite <- (app_nil_r (processing_log w)) in HP at 1.
    apply app_inv_head in HP. subst P. cbn. lia.
Qed.

(** X3: Whatever the collaborators do, one cycle takes at most
    [max 1 maxReplies] candidates into the pipeline, posts no more replies
    than that, and writes no more records than it posts replies. *)
Theorem replies_per_cycle_are_capped :
  forall w,
    let w' := snd (check_mentions L self searchTerm actx sctx m w) in
    exists P S R,
      processing_log w' = processing_log w ++ P
      /\ sent w' = sent w ++ S
      /\ tweet_responses w' = tweet_responses w ++ R
      /\ (List.length R <= List.length S <= List.length P)%nat
      /\ Z.of_nat (List.length P) <= Z.max 1 m.
Proof. exact cycle_bounds. Qed.

(** X4: Every reply of a cycle answers a candidate of that cycle's search
    result whose identifier is strictly greater than the cursor (0 without
    one) and whose author is not the handler's own account. *)
Theorem replies_answer_newer_tweets_of_others :
  forall w,
    exists S,
      sent (snd (check_mentions L self searchTerm actx sctx m w))
      = sent w ++ S
      /\ forall s, In s S ->
           exists search found t n,
             Client.search_tweets (client self) = Some search
             /\ search searchTerm 20 w = Ok found
             /\ In t found
             /\ reply_to s = Tweet.id t
             /\ py_int L (Tweet.id t) = Ok n
             /\ cursor_or_0 (last_checked_tweet_id self) < n
             /\ eq_optional_str (Tweet.username t)
                  (Client.username (client self)) = false.
Proof.
  intros w. rewrite check_mentions_runs_body.
  destruct (body_trace L self searchTerm actx sctx m w)
    as (P & S & R & HP & HS & HR & Hshape & Hall).
  exists S. split; [exact HS|]. intros s Hs.
  destruct (cycle_shape_replies L _ _ _ _ _ _ _ _ _ Hshape Hs)
    as (t & Ht & Hid).
  destruct (Hall t Ht) as (_ & Hother & Hafter & search & found & H1 & H2 & H3).
  unfold after_cursor in Hafter.
  destruct (py_int L (Tweet.id t)) as [n|e] eqn:En; [|discriminate].
  exists search, found, t, n.
  split; [exact H1|]. split; [exact H2|]. split; [exact H3|].
  split; [exact Hid|]. split; [exact En|]. split.
  - apply Z.gtb_lt in Hafter. exact Hafter.
  - unfold by_other_author in Hother. now apply negb_true_iff in Hother.
Qed.

(** X5: One identifier that [int] rejects aborts the batch: no candidate of
    that search result is taken into the pipeline, answered or recorded. *)
Theorem unparsable_identifier_aborts_the_batch :
  forall w search found t e,
    Client.search_tweets (client self) = Some search ->
    search searchTerm 20 w = Ok found ->
    In t found ->
    py_int L (Tweet.id t) = Raise e ->
    same_logs w (snd (cycle w))
    /\ exists e' t',
         fst (body w) = Raise e'
         /\ In t' found /\ py_int L (Tweet.id t') = Raise e'.
Proof.
  intros w search found t e Hs Hf Hin He.
  rewrite check_mentions_runs_body. cbn [snd].
  rewrite (body_unfold L self searchTerm actx sctx m w search found Hs Hf).
  destruct found as [|t0 rest0] eqn:Efound; [destruct Hin|].
  rewrite <- Efound in *. clear Efound t0 rest0.
  destruct (newer_than L (cursor_or_0 (last_checked_tweet_id self)) found)
    as [kept|e'] eqn:En.
  - destruct (newer_than_spec L self _ _ En) as [_ Hparse].
    destruct (Hparse t Hin) as [n Hn]. congruence.
  - cbn [fst snd]. split; [apply same_logs_tick|].
    destruct (newer_than_raises L self _ _ En) as (t' & Hin' & He').
    exists e', t'. auto.
Qed.


Lemma cycle_fresh :
  forall w,
    lookups_answer self ->
    exists S,
      sent (snd (cycle w)) = sent w ++ S
      /\ NoDup (map reply_to S)
      /\ forall s, In s S ->
           ~ In (reply_to s) (map row_id (tweet_responses w)).
Proof.
  intros w Hl. rewrite check_mentions_runs_body. cbn [snd].
  destruct (body_trace L self searchTerm actx sctx m w)
    as (P & S & R & HP & HS & HR & Hshape & _).
  exists S. split; [exact HS|].
  assert (Hfresh : NoDup (map Tweet.id P)
                   /\ Forall (fun t => has_record w (Tweet.id t) = false) P).
  { destruct (body_cases w) as [(search & found & _ & _ & Hb)|Hsame].
    - rewrite Hb in HP.
      destruct (check_mentions_loop L self actx sctx m
                  (survivors L self found) 0 (tick w)) as [res w'] eqn:Hloop.
      destruct (loop_fresh self actx sctx m _ _ _ _ _ Hl Hloop)
        as (P' & HP' & Hnd & Hf).
      cbn [snd processing_log tick] in HP, HP'.
      rewrite HP in HP'. apply app_inv_head in HP'. subst P'. auto.
    - destruct Hsame as (_ & _ & Hp). rewrite Hp in HP.
      rewrite <- (app_nil_r (processing_log w)) in HP at 1.
      apply app_inv_head in HP. subst P. split; constructor. }
  destruct Hfresh as [Hnd Hf]. split.
  - destruct Hshape
      as (done & _ & _
          & [[-> HSd]|(t & e & w1 & w2 & -> & _ & _ & [[HSd _]|[HSd _]])]);
      rewrite HSd; try exact Hnd.
    rewrite map_app in Hnd. now apply NoDup_app_remove_r in Hnd.
  - intros s Hs.
    destruct (cycle_shape_replies L _ _ _ _ _ _ _ _ _ Hshape Hs)
      as (t & Ht & ->).
    rewrite Forall_forall in Hf. specialize (Hf t Ht).
    intros Hin. apply has_record_In in Hin. congruence.
Qed.

(** X7: With a store whose lookups answer, the replies of one cycle go to
    pairwise distinct identifiers, none of which had a record when the
    cycle began. *)
Theorem replies_go_to_unanswered_tweets :
  forall w,
    lookups_answer self ->
    exists S,
      sent (snd (cycle w)) = sent w ++ S
      /\ NoDup (map reply_to S)
      /\ forall s, In s S ->
           ~ In (reply_to s) (map row_id (tweet_responses w)).
Proof. exact cycle_fresh. Qed.

Lemma cycle_recorded :
  forall w,
    Reliable L self ->
    exists S R,
      sent (snd (cycle w)) = sent w ++ S
      /\ tweet_responses (snd (cycle w)) = tweet_responses w ++ R
      /\ map row_id R = map reply_to S.
Proof.
  intros w HRel. rewrite check_mentions_runs_body. cbn [snd].
  destruct (body_cases w) as [(search & found & _ & _ & Hb)|Hsame].
  - rewrite Hb.
    destruct (check_mentions_loop L self actx sctx m
                (survivors L self found) 0 (tick w)) as [res w'] eqn:Hloop.
    destruct (loop_reliable_records self actx sctx m _ _ _ _ _ HRel Hloop)
      as (P & S & R & _ & HS & HR & HidS & HidR).
    exists S, R. cbn [snd]. split; [exact HS|]. split; [exact HR|].
    congruence.
  - destruct Hsame as (Hr & Hs & _). exists [], [].
    rewrite !app_nil_r. auto.
Qed.

(** X8: When every step answers, each reply of a cycle has its record written
    in that cycle, in the same order, whatever ends the cycle. *)
Theorem every_reply_is_recorded_when_steps_answer :
  forall w,
    Reliable L self ->
    exists S R,
      sent (snd (cycle w)) = sent w ++ S
      /\ tweet_responses (snd (cycle w)) = tweet_responses w ++ R
      /\ map row_id R = map reply_to S.
Proof. exact cycle_recorded. Qed.
End FurtherCycle.

(** ** Cycle after cycle *)

(** X9: When every step answers, a cycle never answers an identifier that an
    earlier cycle of the same handler answered, whatever the two searches
    return. *)
Theorem no_second_reply_in_a_later_cycle :
  forall self term1 actx1 sctx1 m1 term2 actx2 sctx2 m2 w,
    Reliable L self ->
    let w1 := snd (check_mentions L self term1 actx1 sctx1 m1 w) in
    let w2 := snd (check_mentions L self term2 actx2 sctx2 m2 w1) in
    exists S1 S2,
      sent w1 = sent w ++ S1
      /\ sent w2 = sent w1 ++ S2
      /\ forall s1 s2, In s1 S1 -> In s2 S2 -> reply_to s1 <> reply_to s2.
Proof.
  intros self term1 actx1 sctx1 m1 term2 actx2 sctx2 m2 w HRel. cbv zeta.
  destruct (cycle_recorded self term1 actx1 sctx1 m1 w HRel)
    as (S1 & R1 & HS1 & HR1 & Hids).
  destruct (cycle_fresh self term2 actx2 sctx2 m2
              (snd (check_mentions L self term1 actx1 sctx1 m1 w))
              (reliable_lookups L self HRel))
    as (S2 & HS2 & _ & Hfresh).
  exists S1, S2. split; [exact HS1|]. split; [exact HS2|].
  intros s1 s2 H1 H2 Heq. apply (Hfresh s2 H2).
  rewrite HR1, map_app. apply in_or_app. right.
  rewrite Hids, <- Heq. now apply in_map.
Qed.

(** ** [monitor_mentions] *)

(** The loop of [monitor_mentions] runs the cycles of an initial segment
    of the terms, in order; it stops short only at a cycle that raised. *)
Lemma monitor_loop_cases :
  forall self terms actx w,
    exists checked rest,
      terms = checked ++ rest
      /\ snd (monitor_mentions_loop L self terms actx w)
         = fold_left
             (fun w term => snd (check_mentions L self term actx "" 3 w))
             checked w
      /\ ((rest = []
           /\ fst (monitor_mentions_loop L self terms actx w) = Ok tt)
          \/ exists checked0 term0 e,
               checked = checked0 ++ [term0]
               /\ fst (check_mentions L self term0 actx "" 3
                         (fold_left
                            (fun w term =>
                               snd (check_mentions L self term actx "" 3 w))
                            checked0 w))
                  = Raise e
               /\ fst (monitor_mentions_loop L self terms actx w) = Raise e).
Proof.
  intros self terms actx. induction terms as [|term rest IH]; intros w.
  - exists [], []. split; [reflexivity|]. split; [reflexivity|]. left. auto.
  - cbn [monitor_mentions_loop]. unfold bind at 1 2 3.
    destruct (check_mentions L self term actx "" 3 w) as [[[]|e] w1] eqn:E.
    + destruct (IH w1)
        as (checked & rest' & -> & Hsnd & Hend).
      exists (term :: checked), rest'. split; [reflexivity|].
      cbn [fold_left]. rewrite E. cbn [snd]. split; [exact Hsnd|].
      destruct Hend as [Hend|(checked0 & term0 & e & -> & He & Hl)];
        [left; exact Hend|].
      right. exists (term :: checked0), term0, e.
      split; [reflexivity|]. cbn [fold_left]. rewrite E. cbn [snd]. auto.
    + exists [term], rest. split; [reflexivity|].
      cbn [fold_left]. rewrite E. cbn [fst snd]. split; [reflexivity|].
      right. exists [], term, e. cbn [fold_left app]. rewrite E. auto.
Qed.


Lemma fold_cycles_bounded :
  forall self actx terms w,
    exists S,
      sent (fold_left
              (fun w term => snd (check_mentions L self term actx "" 3 w))
              terms w)
      = sent w ++ S
      /\ (List.length S <= 3 * List.length terms)%nat.
Proof.
  intros self actx terms. induction terms as [|term rest IH]; intros w.
  - exists []. cbn. now rewrite app_nil_r.
  - cbn [fold_left].
    destruct (cycle_bounds self term actx "" 3 w)
      as (P & S & R & _ & HS & _ & Hlen & Hcap).
    destruct (IH (snd (check_mentions L self term actx "" 3 w)))
      as (S' & HS' & Hlen').
    exists (S ++ S'). split.
    + rewrite HS', HS. now rewrite app_assoc.
    + rewrite length_app. cbn [List.length]. lia.
Qed.

(** X11: One call of [monitor_mentions] posts at most three replies per search
    term, whatever the collaborators do. *)
Theorem monitor_mentions_posts_at_most_three_per_term :
  forall self check_interval actx w,
    exists S,
      sent (snd (monitor_mentions L self check_interval actx w)) = sent w ++ S
      /\ (List.length S <= 3 * List.length (search_terms self))%nat.
Proof.
  intros self k actx w. unfold monitor_mentions.
  rewrite boundary_keeps_world.
  destruct (monitor_loop_cases self (search_terms self) actx w)
    as (checked & rest & Hterms & Hsnd & _).
  rewrite Hsnd, Hterms.
  destruct (fold_cycles_bounded self actx checked w) as (S & HS & Hlen).
  exists S. split; [exact HS|]. rewrite length_app. lia.
Qed.

(** ** [reply_guy] *)

(** X12: With an empty target list [reply_guy] returns at once and does
    nothing, not even a search.  Otherwise it draws a target of the list:
    when the target lacks one of its two keys, the [KeyError] is caught,
    nothing is done and [reply_guy] returns normally; when it has both,
    [reply_guy] does what one cycle of [check_mentions] on
    [from:<searchTerm>] with that target's context and the default cap of 3
    does, and returns normally when that cycle does. *)
Theorem reply_guy_is_one_cycle_on_a_target :
  forall self check_interval actx w,
    (reply_targets self = [] ->
     reply_guy L self check_interval actx w = (Ok tt, w))
    /\ (reply_targets self <> [] ->
        exists target,
          In target (reply_targets self)
          /\ match ReplyTarget.searchTerm target,
                   ReplyTarget.searchContext target with
             | Some term, Some ctx =>
                 snd (reply_guy L self check_interval actx w)
                 = snd (check_mentions L self ("from:" ++ term)%string actx
                          ctx 3 w)
                 /\ (fst (check_mentions L self ("from:" ++ term)%string
                            actx ctx 3 w) = Ok tt ->
                     fst (reply_guy L self check_interval actx w) = Ok tt)
             | _, _ => reply_guy L self check_interval actx w = (Ok tt, w)
             end).
Proof.
  intros self k actx w.
  destruct (reply_targets self) as [|t0 rest0] eqn:Et.
  { split; [|intros H; now elim H]. intros _.
    unfold reply_guy, try_except. rewrite Et. reflexivity. }
  split; [discriminate|]. intros _.
  destruct (nth_error (reply_targets self)
              (Nat.modulo
                 (random_index L w (List.length (reply_targets self)))
                 (List.length (reply_targets self))))
    as [target|] eqn:En.
  2:{ exfalso. apply nth_error_None in En.
      assert (Hlen : List.length (reply_targets self) <> 0%nat)
        by (rewrite Et; discriminate).
      pose proof (Nat.mod_upper_bound
                    (random_index L w (List.length (reply_targets self)))
                    _ Hlen) as Hlt.
      lia. }
  exists target. split.
  { apply nth_error_In in En. now rewrite Et in En. }
  assert (Hunfold :
    reply_guy L self k actx
    = try_except
        (reply_target <- random_choice L (reply_targets self) ;;
         term <- getitem (ReplyTarget.searchTerm reply_target) ;;
         searchContext <- getitem (ReplyTarget.searchContext reply_target) ;;
         check_mentions L self ("from:" ++ term)%string actx searchContext 3)
        is_Exception print_error).
  { unfold reply_guy. rewrite Et. reflexivity. }
  assert (Hrun :
    reply_guy L self k actx w
    = match ReplyTarget.searchTerm target,
            ReplyTarget.searchContext target with
      | Some term, Some ctx =>
          try_except
            (check_mentions L self ("from:" ++ term)%string actx ctx 3)
            is_Exception print_error w
      | _, _ => (Ok tt, w)
      end).
  { rewrite Hunfold. unfold try_except.
    unfold bind at 1, random_choice at 1. rewrite En.
    unfold bind at 1, getitem at 1.
    destruct (ReplyTarget.searchTerm target) as [term|]; [|reflexivity].
    unfold ret at 1. unfold bind at 1, getitem at 1.
    destruct (ReplyTarget.searchContext target) as [ctx|]; reflexivity. }
  rewrite Hrun. clear Hrun Hunfold.
  destruct (ReplyTarget.searchTerm target) as [term|]; [|reflexivity].
  destruct (ReplyTarget.searchContext target) as [ctx|]; [|reflexivity].
  split; [apply boundary_keeps_world|apply boundary_returns].
Qed.

(** ** [tweet_to_followers] *)

(** X13: [tweet_to_followers] writes no record and takes no candidate into the
    reply pipeline; it posts at most one tweet, a top-level one, and
    exactly one when it returns normally. *)
Theorem tweet_to_followers_posts_one_top_level_tweet :
  forall self check_interval actx w,
    let r := tweet_to_followers L self check_interval actx w in
    tweet_responses (snd r) = tweet_responses w
    /\ processing_log (snd r) = processing_log w
    /\ (sent (snd r) = sent w
        \/ exists txt, sent (snd r) = sent w ++ [mkSent txt JNull])
    /\ (fst r = Ok tt ->
        exists txt, sent (snd r) = sent w ++ [mkSent txt JNull]).
Proof.
  intros self k actx w. cbv zeta.
  destruct (tweet_to_followers L self k actx w) as [r w'] eqn:H.
  cbn [fst snd]. unfold tweet_to_followers in H.
  unfold bind at 1 in H.
  destruct (Client.call_get_followers (client self)
              (Client.username (client self)) w) as [[followers|e] w0] eqn:E0.
  2:{ assert (Hl : same_logs w w0).
      { unfold Client.call_get_followers, call_method in E0.
        destruct (Client.get_followers (client self)); cbn in E0.
        - eapply call_logs; exact E0.
        - inversion E0; subst. apply same_logs_refl. }
      inversion H; subst. open_logs.
      split; [congruence|]; split; [congruence|];
        split; [left; congruence|intros; discriminate]. }
  assert (Hl0 : same_logs w w0).
  { unfold Client.call_get_followers, call_method in E0.
    destruct (Client.get_followers (client self)); cbn in E0.
    - eapply call_logs; exact E0.
    - inversion E0. }
  unfold bind at 1, random_choice at 1 in H.
  destruct (nth_error followers _) as [follower|].
  2:{ inversion H; subst. open_logs.
      split; [congruence|]; split; [congruence|];
        split; [left; congruence|intros; discriminate]. }
  unfold bind at 1 in H.
  match type of H with
  | context [match ?m ?w1 with _ => _ end] =>
      destruct (m w1) as [[ctx|e] w1'] eqn:E1
  end.
  2:{ apply optional_call_logs with (k := fun x => (actx ++ x)%string)
        in E1.
      inversion H; subst. open_logs.
      split; [congruence|]; split; [congruence|];
        split; [left; congruence|intros; discriminate]. }
  apply optional_call_logs with (k := fun x => (actx ++ x)%string) in E1.
  unfold bind at 1 in H.
  destruct (generate_response self (follower_prompt L follower) ctx w1')
    as [[txt|e] w2] eqn:E2; apply generate_response_logs in E2.
  2:{ inversion H; subst. open_logs.
      split; [congruence|]; split; [congruence|];
        split; [left; congruence|intros; discriminate]. }
  unfold bind at 1 in H.
  destruct (Client.call_send_tweet (client self) txt JNull w2)
    as [[j|e] w3] eqn:E3.
  2:{ apply send_tweet_refused in E3. inversion H; subst. open_logs.
      split; [congruence|]; split; [congruence|];
        split; [left; congruence|intros; discriminate]. }
  apply send_tweet_accepted in E3. subst w3.
  assert (Hl4 : same_logs (add_sent (mkSent txt JNull) (tick w2)) w').
  { destruct (updateUserContext self); unfold call, ret in H;
      inversion H; subst; repeat split. }
  open_logs. split; [congruence|]. split; [congruence|].
  split; [right|intros _]; exists txt; congruence.
Qed.

(** X14: With no follower to draw from, [tweet_to_followers] raises
    [IndexError] and posts nothing. *)
Theorem tweet_to_followers_needs_a_follower :
  forall self check_interval actx w followers_of,
    Client.get_followers (client self) = Some followers_of ->
    followers_of (Client.username (client self)) w = Ok [] ->
    tweet_to_followers L self check_interval actx w
    = (Raise IndexError, tick w).
Proof.
  intros self k actx w f Hf Hnone. unfold tweet_to_followers.
  unfold bind at 1, Client.call_get_followers, call_method.
  rewrite Hf. cbn [option_map]. unfold call. rewrite Hnone.
  unfold bind at 1, random_choice. now rewrite nth_error_nil.
Qed.

(** ** More on the platform client *)

Lemma headers_get_update_same :
  forall key value h,
    TwitterClient.headers_get key (TwitterClient.headers_update key value h)
    = Some value.
Proof.
  intros key value h. induction h as [|[k v] r IH]; cbn.
  - now rewrite String.eqb_refl.
  - destruct (String.eqb (TwitterClient.lower key) (TwitterClient.lower k))
      eqn:E; cbn.
    + now rewrite String.eqb_refl.
    + now rewrite E.
Qed.

Lemma headers_get_update_other :
  forall key value h k',
    TwitterClient.lower k' <> TwitterClient.lower key ->
    TwitterClient.headers_get k' (TwitterClient.headers_update key value h)
    = TwitterClient.headers_get k' h.
Proof.
  intros key value h k' Hne.
  assert (Hk : String.eqb (TwitterClient.lower k') (TwitterClient.lower key)
               = false)
    by now apply String.eqb_neq.
  induction h as [|[k v] r IH]; cbn.
  - now rewrite Hk.
  - destruct (String.eqb (TwitterClient.lower key) (TwitterClient.lower k))
      eqn:E; cbn.
    + apply String.eqb_eq in E. rewrite <- E. now rewrite Hk.
    + now rewrite IH.
Qed.

Lemma cookies_get_value_not_empty :
  forall jar name domain value,
    TwitterClient.cookies_get jar name domain = Ok (Some value) ->
    value <> EmptyString.
Proof.
  intros jar name domain value H. unfold TwitterClient.cookies_get in H.
  destruct (filter _ jar) as [|c [|c' r]]; try discriminate.
  destruct (String.eqb (TwitterClient.cookie_value c) EmptyString) eqn:E;
    [discriminate|].
  apply String.eqb_neq in E. congruence.
Qed.

(** X15: A CSRF token read from the jar is never empty, and the session
    [search_tweets] leaves behind carries it as its [x-csrf-token] header,
    whatever the spelling of that key was before; a header under another
    key, compared without regard to case, is as it was.  This holds
    whatever the HTTP exchange did. *)
Theorem search_tweets_refreshes_the_csrf_header :
  forall net self query max_tweets token,
    TwitterClient.get_csrf_token self = Ok (Some token) ->
    let self' :=
      snd (TwitterClient.search_tweets L net self query max_tweets) in
    token <> EmptyString
    /\ TwitterClient.headers_get "x-csrf-token" (TwitterClient.headers self')
       = Some token
    /\ (forall k,
          TwitterClient.lower k <> "x-csrf-token"%string ->
          TwitterClient.headers_get k (TwitterClient.headers self')
          = TwitterClient.headers_get k (TwitterClient.headers self)).
Proof.
  intros net self query max_tweets token Hc. cbv zeta.
  assert (Hne : token <> EmptyString)
    by (eapply cookies_get_value_not_empty; exact Hc).
  split; [exact Hne|].
  unfold TwitterClient.search_tweets, TwitterClient._update_headers_with_csrf.
  rewrite Hc. cbn [rbind].
  destruct (String.eqb token EmptyString) eqn:E.
  { apply String.eqb_eq in E. contradiction. }
  match goal with
  | |- context [TwitterClient.search_tweets_try ?o] =>
      destruct (TwitterClient.search_tweets_try o) as [tweets|e]
  end.
  2: destruct (is_Exception e).
  all: cbn [snd TwitterClient.headers TwitterClient.cookies
            TwitterClient.with_headers TwitterClient.with_cookies];
    (split; [apply headers_get_update_same|]);
    intros k Hk; now apply headers_get_update_other.
Qed.

(** X16: [send_tweet] returns normally only when the platform answered the
    post with status 200, and then returns the decoded body. *)
Theorem send_tweet_returns_only_on_status_200 :
  forall net self text reply_to_tweet_id j self',
    TwitterClient.send_tweet L net self text reply_to_tweet_id
    = (Ok j, self') ->
    exists url payload response,
      TwitterClient.http_post net url payload (TwitterClient.headers self')
      = TwitterClient.HttpResponse response
      /\ TwitterClient.status_code response = 200
      /\ TwitterClient.json_ response = Ok j.
Proof.
  intros net self text reply j self' H.
  unfold TwitterClient.send_tweet in H.
  destruct (TwitterClient._update_headers_with_csrf self) as [s|e];
    [|discriminate].
  match type of H with
  | context [TwitterClient.http_post net ?u ?p ?h] =>
      destruct (TwitterClient.http_post net u p h) as [e|r] eqn:E;
        [discriminate|];
        exists u, p, r
  end.
  destruct (TwitterClient.status_code r =? 200) eqn:Hs; cbn [negb] in H;
    [|discriminate].
  apply Z.eqb_eq in Hs. inversion H; subst. auto.
Qed.

(** X17: [get_tweet] and [get_user_tweets] return normally only when the
    platform answered with status 200, and then return the decoded body. *)
Theorem fetches_return_only_on_status_200 :
  forall net self tweet_id user_id max_tweets j self',
    TwitterClient.get_tweet L net self tweet_id = (Ok j, self')
    \/ TwitterClient.get_user_tweets L net self user_id max_tweets
       = (Ok j, self') ->
    exists url params response,
      TwitterClient.http_get net url params (TwitterClient.headers self')
      = TwitterClient.HttpResponse response
      /\ TwitterClient.status_code response = 200
      /\ TwitterClient.json_ response = Ok j.
Proof.
  intros net self tweet_id user_id max_tweets j self' [H|H];
    [unfold TwitterClient.get_tweet in H
    |unfold TwitterClient.get_user_tweets in H];
    (destruct (TwitterClient._update_headers_with_csrf self) as [s|e];
     [|discriminate]);
    match type of H with
    | context [TwitterClient.http_get net ?u ?p ?h] =>
        destruct (TwitterClient.http_get net u p h) as [e|r] eqn:E;
          [discriminate|];
          exists u, p, r
    end;
    (destruct (TwitterClient.status_code r =? 200) eqn:Hs; cbn [negb] in H;
     [|discriminate]);
    apply Z.eqb_eq in Hs; inversion H; subst; auto.
Qed.

(** ** Reading a well-formed timeline *)

Lemma prefix_append :
  forall p s, String.prefix p (p ++ s)%string = true.
Proof.
  induction p as [|a p IH]; intros s; cbn.
  - now destruct s.
  - destruct (ascii_dec a a) as [_|Hne]; [apply IH|contradiction].
Qed.

Lemma tweet_of_entry_tweet :
  forall suffix t,
    TwitterClient.tweet_of_entry (entry_json (TweetEntry suffix t))
    = Ok (Some t).
Proof.
  intros suffix []. unfold TwitterClient.tweet_of_entry, entry_json.
  cbn -[String.prefix String.append]. rewrite prefix_append.
  reflexivity.
Qed.

Lemma tweet_of_entry_cursor :
  forall suffix content,
    TwitterClient.tweet_of_entry (entry_json (CursorEntry suffix content))
    = Ok None.
Proof. reflexivity. Qed.

Lemma tweets_of_entries_encoded :
  forall entries tweets,
    TwitterClient.tweets_of_entries (map entry_json entries) tweets
    = Ok (tweets ++ flat_map entry_tweet entries).
Proof.
  induction entries as [|[suffix t|suffix content] rest IH]; intros tweets.
  - cbn. now rewrite app_nil_r.
  - cbn [map TwitterClient.tweets_of_entries].
    rewrite tweet_of_entry_tweet. cbn [rbind]. rewrite IH.
    cbn [flat_map entry_tweet]. now rewrite <- app_assoc.
  - cbn [map TwitterClient.tweets_of_entries].
    rewrite tweet_of_entry_cursor. cbn [rbind]. rewrite IH. reflexivity.
Qed.

Lemma dict_get_head :
  forall key v items default,
    dict_get (JDict ((key, v) :: items)) key default = Ok v.
Proof.
  intros key v items default. cbn [dict_get lookup].
  now rewrite String.eqb_refl.
Qed.

Lemma tweets_of_instructions_skips_other_types :
  forall others rest tweets,
    TwitterClient.tweets_of_instructions
      (map (fun ty => JDict [("type"%string, JStr ty)])
         (filter (fun ty => negb (String.eqb ty "TimelineAddEntries")) others)
       ++ rest) tweets
    = TwitterClient.tweets_of_instructions rest tweets.
Proof.
  induction others as [|ty others IH]; intros rest tweets; [reflexivity|].
  cbn [filter].
  destruct (String.eqb ty "TimelineAddEntries") eqn:E; cbn [negb]; [apply IH|].
  cbn [map app TwitterClient.tweets_of_instructions].
  rewrite dict_get_head. cbn [rbind eq_optional_str].
  rewrite E. apply IH.
Qed.

(** X18: On a 200 answer whose body is a well-formed timeline, [search_tweets]
    returns the tweets of the entries whose [entryId] starts with
    [tweet-], in timeline order with every field as the platform gave it,
    and skips the cursor entries and the instructions of another type. *)
Theorem search_tweets_reads_a_well_formed_timeline :
  forall net self query max_tweets token others entries txt,
    TwitterClient.get_csrf_token self = Ok token ->
    (forall url params headers,
        TwitterClient.http_get net url params headers
        = TwitterClient.HttpResponse
            (TwitterClient.mkResponse 200 txt
               (Ok (timeline_json others entries)))) ->
    fst (TwitterClient.search_tweets L net self query max_tweets)
    = Ok (flat_map entry_tweet entries).
Proof.
  intros net self query max_tweets token others entries txt Hc Hnet.
  assert (Htry :
    TwitterClient.search_tweets_try
      (TwitterClient.HttpResponse
         (TwitterClient.mkResponse 200 txt
            (Ok (timeline_json others entries))))
    = Ok (flat_map entry_tweet entries)).
  { unfold TwitterClient.search_tweets_try, timeline_json.
    cbn [TwitterClient.status_code TwitterClient.json_ Z.eqb negb
         Pos.eqb rbind].
    repeat (rewrite dict_get_head; cbn [rbind]). cbn [iterate rbind].
    rewrite tweets_of_instructions_skips_other_types.
    cbn [TwitterClient.tweets_of_instructions].
    rewrite dict_get_head. cbn [rbind eq_optional_str].
    rewrite String.eqb_refl.
    replace (dict_get
               (JDict
                  [("type"%string, JStr "TimelineAddEntries");
                   ("entries"%string, JList (map entry_json entries))])
               "entries" (JList []))
      with (Ok (JList (map entry_json entries))) by reflexivity.
    cbn [rbind iterate].
    rewrite tweets_of_entries_encoded. reflexivity. }
  unfold TwitterClient.search_tweets, TwitterClient._update_headers_with_csrf.
  rewrite Hc. cbn [rbind].
  destruct token as [tok|]; [destruct (String.eqb tok EmptyString)|];
    rewrite Hnet, Htry; reflexivity.
Qed.
End Further.

(** ** From the cookie list to the CSRF token *)

Lemma setup_cookies_fold :
  forall cs jar,
    TwitterClient._setup_cookies cs jar
    = fold_left (fun jar cd => TwitterClient.cookies_set (cookie_of cd) jar)
        cs jar.
Proof. reflexivity. Qed.

Lemma same_slot_csrf :
  forall k k',
    TwitterClient.same_slot k k' = true ->
    is_csrf_cookie k' = is_csrf_cookie k.
Proof.
  intros k k' H. unfold TwitterClient.same_slot in H.
  apply andb_true_iff in H. destruct H as [H Hp].
  apply andb_true_iff in H. destruct H as [Hn Hd].
  apply String.eqb_eq in Hn, Hd. unfold is_csrf_cookie.
  now rewrite Hn, Hd.
Qed.

Lemma cookies_get_csrf :
  forall jar,
    TwitterClient.cookies_get jar "ct0" ".twitter.com"
    = match filter is_csrf_cookie jar with
      | [] => Ok None
      | [c] =>
          Ok (if String.eqb (TwitterClient.cookie_value c) EmptyString
              then None
              else Some (TwitterClient.cookie_value c))
      | _ :: _ :: _ => Raise CookieConflictError
      end.
Proof. reflexivity. Qed.

(** Setting a cookie that is not a CSRF cookie leaves the CSRF cookies of
    the jar as they were. *)
Lemma csrf_cookies_after_other :
  forall k jar,
    is_csrf_cookie k = false ->
    filter is_csrf_cookie (TwitterClient.cookies_set k jar)
    = filter is_csrf_cookie jar.
Proof.
  intros k jar Hk. unfold TwitterClient.cookies_set.
  rewrite filter_app. cbn [filter].
  change (is_csrf_cookie (TwitterClient.stored_cookie k))
    with (is_csrf_cookie k).
  rewrite Hk, app_nil_r.
  induction jar as [|k' jar IH]; [reflexivity|].
  cbn [filter].
  destruct (TwitterClient.same_slot k k') eqn:E; cbn [negb].
  - rewrite (same_slot_csrf _ _ E), Hk. exact IH.
  - cbn [filter]. destruct (is_csrf_cookie k'); [now rewrite IH|exact IH].
Qed.

(** Setting a CSRF cookie on the one path the CSRF cookies of the jar are
    on leaves it as the only one. *)
Lemma csrf_cookies_after_csrf :
  forall k jar,
    is_csrf_cookie k = true ->
    (forall k', In k' jar -> is_csrf_cookie k' = true ->
                TwitterClient.cookie_path k' = TwitterClient.cookie_path k) ->
    filter is_csrf_cookie (TwitterClient.cookies_set k jar)
    = [TwitterClient.stored_cookie k].
Proof.
  intros k jar Hk Hp. unfold TwitterClient.cookies_set.
  rewrite filter_app. cbn [filter].
  change (is_csrf_cookie (TwitterClient.stored_cookie k))
    with (is_csrf_cookie k).
  rewrite Hk.
  replace (filter is_csrf_cookie
             (filter (fun c' => negb (TwitterClient.same_slot k c')) jar))
    with (@nil TwitterClient.Cookie); [reflexivity|].
  symmetry. induction jar as [|k' jar IH]; [reflexivity|].
  cbn [filter].
  destruct (TwitterClient.same_slot k k') eqn:E; cbn [negb].
  - apply IH. intros k'' Hin. apply Hp. now right.
  - cbn [filter]. destruct (is_csrf_cookie k') eqn:E'.
    + exfalso.
      assert (Hpath : TwitterClient.cookie_path k'
                      = TwitterClient.cookie_path k)
        by (apply Hp; [now left|exact E']).
      unfold is_csrf_cookie in Hk, E'.
      apply andb_true_iff in Hk, E'.
      destruct Hk as [Hn Hd], E' as [Hn' Hd'].
      apply String.eqb_eq in Hn, Hd, Hn', Hd'.
      unfold TwitterClient.same_slot in E.
      rewrite Hn, Hd, Hn', Hd', Hpath, !String.eqb_refl in E.
      discriminate.
    + apply IH. intros k'' Hin. apply Hp. now right.
Qed.

Lemma cookies_set_In :
  forall k jar k',
    In k' (TwitterClient.cookies_set k jar) ->
    k' = TwitterClient.stored_cookie k \/ In k' jar.
Proof.
  intros k jar k' H. unfold TwitterClient.cookies_set in H.
  apply in_app_or in H. destruct H as [H|[H|[]]].
  - right. now apply filter_In in H.
  - now left.
Qed.

Lemma setup_cookies_In :
  forall cs jar k,
    In k (TwitterClient._setup_cookies cs jar) ->
    In k jar
    \/ exists cd, In cd cs /\ k = TwitterClient.stored_cookie (cookie_of cd).
Proof.
  induction cs as [|cd cs IH]; intros jar k H; [now left|].
  rewrite setup_cookies_fold in H. cbn [fold_left] in H.
  rewrite <- setup_cookies_fold in H.
  destruct (IH _ _ H) as [Hin|(cd' & Hin & ->)].
  - destruct (cookies_set_In _ _ _ Hin) as [->|Hjar].
    + right. exists cd. split; [now left|reflexivity].
    + now left.
  - right. exists cd'. split; [now right|reflexivity].
Qed.

Lemma setup_cookies_keeps_csrf :
  forall cs jar,
    (forall cd, In cd cs -> is_csrf_cookie (cookie_of cd) = false) ->
    filter is_csrf_cookie (TwitterClient._setup_cookies cs jar)
    = filter is_csrf_cookie jar.
Proof.
  induction cs as [|cd cs IH]; intros jar H; [reflexivity|].
  rewrite setup_cookies_fold. cbn [fold_left]. rewrite <- setup_cookies_fold.
  rewrite IH by (intros cd' Hin; apply H; now right).
  apply csrf_cookies_after_other. apply H. now left.
Qed.


(** ** The further properties on concrete runs *)

Lemma dedup_answers_from_the_store_witness :
  let self := Sample.handler [] None (Some Sample.chroma) in
  chroma_client self = Some Sample.chroma
  /\ lookups_answer self
  /\ exists b,
       fst (has_responded_to_tweet self (JStr "5") Sample.world_answered_5)
       = Ok b
       /\ (b = true
           <-> In (JStr "5")
                 (map row_id (tweet_responses Sample.world_answered_5))).
Proof.
  cbv zeta. split; [reflexivity|].
  split; [apply sample_lookups_answer; now left|].
  exact (dedup_answers_from_the_store
           (Sample.handler [] None (Some Sample.chroma)) Sample.chroma
           (JStr "5") Sample.world_answered_5 eq_refl
           (sample_lookups_answer _ _ _ (or_introl eq_refl))).
Defined.

Lemma logged_response_is_found_witness :
  let self := Sample.handler [] None (Some Sample.chroma) in
  let w' :=
    snd (log_response Sample.lib self (JStr "7") "PLACEHOLDER" (JStr "gm")
           "gm to you" Sample.world_answered_5) in
  chroma_client self = Some Sample.chroma
  /\ fst (log_response Sample.lib self (JStr "7") "PLACEHOLDER" (JStr "gm")
            "gm to you" Sample.world_answered_5) = Ok tt
  /\ fst (has_responded_to_tweet self (JStr "7") w') = Ok true
  /\ forall j, j <> JStr "7" ->
       fst (has_responded_to_tweet self j w')
       = fst (has_responded_to_tweet self j Sample.world_answered_5).
Proof.
  cbv zeta. split; [reflexivity|].
  exact (logged_response_is_found Sample.lib
           (Sample.handler [] None (Some Sample.chroma)) Sample.chroma
           (JStr "7") "PLACEHOLDER" (JStr "gm") "gm to you"
           Sample.world_answered_5 eq_refl
           (fun _ _ => eq_refl) (fun _ _ => eq_refl) (fun _ _ => eq_refl)).
Defined.

Lemma unparsable_identifier_aborts_the_batch_witness :
  let bad := Sample.tweet "7a" "carol" "Wed Nov 04 11:00:00 +0000 2026" in
  let self := Sample.handler [Sample.t5; bad] None (Some Sample.chroma) in
  In bad [Sample.t5; bad]
  /\ py_int Sample.lib (Tweet.id bad) = Raise ValueError
  /\ same_logs Sample.world0
       (snd (check_mentions Sample.lib self "q" "" "" 3 Sample.world0))
  /\ exists e' t',
       fst (check_mentions_body Sample.lib self "q" "" "" 3 Sample.world0)
       = Raise e'
       /\ In t' [Sample.t5; bad]
       /\ py_int Sample.lib (Tweet.id t') = Raise e'.
Proof.
  cbv zeta. split; [right; now left|]. split; [reflexivity|].
  exact (unparsable_identifier_aborts_the_batch Sample.lib
           (Sample.handler
              [Sample.t5;
               Sample.tweet "7a" "carol" "Wed Nov 04 11:00:00 +0000 2026"]
              None (Some Sample.chroma))
           "q" "" "" 3 Sample.world0
           (fun _ _ _ =>
              Ok [Sample.t5;
                  Sample.tweet "7a" "carol" "Wed Nov 04 11:00:00 +0000 2026"])
           [Sample.t5;
            Sample.tweet "7a" "carol" "Wed Nov 04 11:00:00 +0000 2026"]
           (Sample.tweet "7a" "carol" "Wed Nov 04 11:00:00 +0000 2026")
           ValueError eq_refl eq_refl (or_intror (or_introl eq_refl))
           eq_refl).
Defined.


Lemma replies_go_to_unanswered_tweets_witness :
  let self :=
    Sample.handler [Sample.t5; Sample.t3; Sample.t7] None
      (Some Sample.chroma) in
  lookups_answer self
  /\ exists S,
       sent (snd (check_mentions Sample.lib self "q" "" "" 3
                    Sample.world_answered_5))
       = sent Sample.world_answered_5 ++ S
       /\ NoDup (map reply_to S)
       /\ forall s, In s S ->
            ~ In (reply_to s)
                (map row_id (tweet_responses Sample.world_answered_5)).
Proof.
  cbv zeta. split; [apply sample_lookups_answer; now left|].
  exact (replies_go_to_unanswered_tweets Sample.lib
           (Sample.handler [Sample.t5; Sample.t3; Sample.t7] None
              (Some Sample.chroma))
           "q" "" "" 3 Sample.world_answered_5
           (sample_lookups_answer _ _ _ (or_introl eq_refl))).
Defined.

Lemma every_reply_is_recorded_when_steps_answer_witness :
  let self :=
    Sample.handler [Sample.t5; Sample.t3; Sample.t7] (Some 3)
      (Some Sample.chroma) in
  Reliable Sample.lib self
  /\ exists S R,
       sent (snd (check_mentions Sample.lib self "q" "" "" 2 Sample.world0))
       = sent Sample.world0 ++ S
       /\ tweet_responses
            (snd (check_mentions Sample.lib self "q" "" "" 2 Sample.world0))
          = tweet_responses Sample.world0 ++ R
       /\ map row_id R = map reply_to S.
Proof.
  cbv zeta. split; [apply sample_reliable|].
  exact (every_reply_is_recorded_when_steps_answer Sample.lib
           (Sample.handler [Sample.t5; Sample.t3; Sample.t7] (Some 3)
              (Some Sample.chroma))
           "q" "" "" 2 Sample.world0 (sample_reliable _ _)).
Defined.

Lemma no_second_reply_in_a_later_cycle_witness :
  let self :=
    Sample.handler [Sample.t5; Sample.t3; Sample.t7] None
      (Some Sample.chroma) in
  let w1 := snd (check_mentions Sample.lib self "q" "" "" 2 Sample.world0) in
  let w2 := snd (check_mentions Sample.lib self "q" "" "" 2 w1) in
  Reliable Sample.lib self
  /\ exists S1 S2,
       sent w1 = sent Sample.world0 ++ S1
       /\ sent w2 = sent w1 ++ S2
       /\ forall s1 s2, In s1 S1 -> In s2 S2 -> reply_to s1 <> reply_to s2.
Proof.
  cbv zeta. split; [apply sample_reliable|].
  exact (no_second_reply_in_a_later_cycle Sample.lib
           (Sample.handler [Sample.t5; Sample.t3; Sample.t7] None
              (Some Sample.chroma))
           "q" "" "" 2 "q" "" "" 2 Sample.world0 (sample_reliable _ _)).
Defined.

Lemma tweet_to_followers_needs_a_follower_witness :
  let self :=
    __init__ Sample.now NoFile
      (Client.mk (Some "rice"%string) None
         (Some (fun _ _ _ => Ok (JDict [])))
         (Some (fun _ _ => Ok [])))
      None None [] [] None None None in
  Client.get_followers (client self) = Some (fun _ _ => Ok [])
  /\ tweet_to_followers Sample.lib self 120 "" Sample.world0
     = (Raise IndexError, tick Sample.world0).
Proof.
  cbv zeta. split; [reflexivity|].
  exact (tweet_to_followers_needs_a_follower Sample.lib
           (__init__ Sample.now NoFile
              (Client.mk (Some "rice"%string) None
                 (Some (fun _ _ _ => Ok (JDict [])))
                 (Some (fun _ _ => Ok [])))
              None None [] [] None None None)
           120 "" Sample.world0 (fun _ _ => Ok []) eq_refl eq_refl).
Defined.

Lemma search_tweets_refreshes_the_csrf_header_witness :
  let self :=
    TwitterClient.with_headers
      (Sample.twitter_client
         [TwitterClient.mkCookieDict "ct0" "aaa" None None])
      [ ("Content-Type"%string, "application/json"%string);
        ("X-Csrf-Token"%string, "old"%string) ] in
  let self' :=
    snd (TwitterClient.search_tweets Sample.lib
           (Sample.net_of (TwitterClient.HttpRaises (OtherError "Timeout" ""))
              eq_refl)
           self "q" 20) in
  TwitterClient.get_csrf_token self = Ok (Some "aaa"%string)
  /\ TwitterClient.headers self'
     = [ ("Content-Type"%string, "application/json"%string);
         ("x-csrf-token"%string, "aaa"%string) ]
  /\ TwitterClient.headers_get "x-csrf-token" (TwitterClient.headers self')
     = Some "aaa"%string.
Proof.
  cbv zeta. split; [reflexivity|]. split; [reflexivity|].
  exact (proj1 (proj2
           (search_tweets_refreshes_the_csrf_header Sample.lib
              (Sample.net_of
                 (TwitterClient.HttpRaises (OtherError "Timeout" ""))
                 eq_refl)
              (TwitterClient.with_headers
                 (Sample.twitter_client
                    [TwitterClient.mkCookieDict "ct0" "aaa" None None])
                 [ ("Content-Type"%string, "application/json"%string);
                   ("X-Csrf-Token"%string, "old"%string) ])
              "q" 20 "aaa" eq_refl))).
Defined.

Lemma send_tweet_returns_only_on_status_200_witness :
  let net := Sample.net_of (Sample.ok_response (JDict [])) eq_refl in
  let self := Sample.twitter_client [] in
  TwitterClient.send_tweet Sample.lib net self "gm" (JStr "5")
  = (Ok (JDict []), self)
  /\ exists url payload response,
       TwitterClient.http_post net url payload (TwitterClient.headers self)
       = TwitterClient.HttpResponse response
       /\ TwitterClient.status_code response = 200
       /\ TwitterClient.json_ response = Ok (JDict []).
Proof.
  cbv zeta. split; [reflexivity|].
  exact (send_tweet_returns_only_on_status_200 Sample.lib
           (Sample.net_of (Sample.ok_response (JDict [])) eq_refl)
           (Sample.twitter_client []) "gm" (JStr "5") (JDict [])
           (Sample.twitter_client []) eq_refl).
Defined.

Lemma fetches_return_only_on_status_200_witness :
  let net := Sample.net_of (Sample.ok_response (JDict [])) eq_refl in
  let self := Sample.twitter_client [] in
  TwitterClient.get_tweet Sample.lib net self "5" = (Ok (JDict []), self)
  /\ exists url params response,
       TwitterClient.http_get net url params (TwitterClient.headers self)
       = TwitterClient.HttpResponse response
       /\ TwitterClient.status_code response = 200
       /\ TwitterClient.json_ response = Ok (JDict []).
Proof.
  cbv zeta. split; [reflexivity|].
  exact (fetches_return_only_on_status_200 Sample.lib
           (Sample.net_of (Sample.ok_response (JDict [])) eq_refl)
           (Sample.twitter_client []) "5" "1" 40 (JDict [])
           (Sample.twitter_client []) (or_introl eq_refl)).
Defined.

Lemma search_tweets_reads_a_well_formed_timeline_witness :
  let entries :=
    [ CursorEntry "top-1" (JDict []);
      TweetEntry "5" Sample.t5;
      TweetEntry "7" Sample.t7;
      CursorEntry "bottom-1" (JDict []) ] in
  let net :=
    Sample.net_of
      (Sample.ok_response (timeline_json ["TimelineClearCache"%string] entries))
      eq_refl in
  TwitterClient.get_csrf_token (Sample.twitter_client []) = Ok None
  /\ fst (TwitterClient.search_tweets Sample.lib net
            (Sample.twitter_client []) "q" 20)
     = Ok [Sample.t5; Sample.t7].
Proof.
  cbv zeta. split; [reflexivity|].
  exact (search_tweets_reads_a_well_formed_timeline Sample.lib
           (Sample.net_of
              (Sample.ok_response
                 (timeline_json ["TimelineClearCache"%string]
                    [ CursorEntry "top-1" (JDict []);
                      TweetEntry "5" Sample.t5;
                      TweetEntry "7" Sample.t7;
                      CursorEntry "bottom-1" (JDict []) ]))
              eq_refl)
           (Sample.twitter_client []) "q" 20 None
           ["TimelineClearCache"%string]
           [ CursorEntry "top-1" (JDict []);
             TweetEntry "5" Sample.t5;
             TweetEntry "7" Sample.t7;
             CursorEntry "bottom-1" (JDict []) ]
           "" eq_refl (fun _ _ _ => eq_refl)).
Defined.


(** The sample collaborators raise nothing, whatever the handler's search
    terms and reply targets are. *)
Lemma sample_benign_with :
  forall found cursor terms targets,
    Benign Sample.lib
      (__init__ Sample.now (Saved cursor) (Sample.platform found)
         (Some Sample.generator) (Some Sample.chroma) terms targets
         None None None).
Proof.
  intros found cursor terms targets. constructor; cbn.
  - intros search H. inversion H; subst. reflexivity.
  - intros send H. inversion H; subst. reflexivity.
  - reflexivity.
  - intros get H. discriminate.
  - intros fetch H. discriminate.
  - reflexivity.
  - intros update H. discriminate.
  - intros c Hc. inversion Hc; subst. repeat split.
Qed.


Lemma reply_guy_is_one_cycle_on_a_target_witness :
  let self :=
    __init__ Sample.now (Saved None) (Sample.platform [Sample.t5])
      (Some Sample.generator) (Some Sample.chroma) []
      [ReplyTarget.mk (Some "alice"%string) (Some "a builder"%string)]
      None None None in
  reply_targets self <> []
  /\ exists target,
       In target (reply_targets self)
       /\ match ReplyTarget.searchTerm target,
                ReplyTarget.searchContext target with
          | Some term, Some ctx =>
              snd (reply_guy Sample.lib self 120 "" Sample.world0)
              = snd (check_mentions Sample.lib self ("from:" ++ term)%string
                       "" ctx 3 Sample.world0)
              /\ (fst (check_mentions Sample.lib self
                         ("from:" ++ term)%string "" ctx 3 Sample.world0)
                  = Ok tt ->
                  fst (reply_guy Sample.lib self 120 "" Sample.world0)
                  = Ok tt)
          | _, _ =>
              reply_guy Sample.lib self 120 "" Sample.world0
              = (Ok tt, Sample.world0)
          end.
Proof.
  cbv zeta. split; [discriminate|].
  exact (proj2
           (reply_guy_is_one_cycle_on_a_target Sample.lib
              (__init__ Sample.now (Saved None) (Sample.platform [Sample.t5])
                 (Some Sample.generator) (Some Sample.chroma) []
                 [ReplyTarget.mk (Some "alice"%string)
                    (Some "a builder"%string)]
                 None None None)
              120 "" Sample.world0)
           ltac:(discriminate)).
Defined.
